(** * ecjsonrpc: red/black JSON-RPC message transform

    A shallow embedding of [index.js] of the ecjsonrpc package and the
    properties of its encoder, decoder, validators and message factories. *)

From Stdlib Require Import ZArith NArith Ascii String List Lia Bool DecimalString DecimalN.
From Stdlib.Strings Require Import Byte.
From Stdlib Require Import Floats.SpecFloat.
From stdpp Require Import base option list.
Import ListNotations.
Local Open Scope string_scope.

(* ================================================================== *)
(** * Part I. Definitions *)
(* ================================================================== *)

(** ** Byte buffers and their hex text form *)

(** A Node [Buffer] is a sequence of bytes. *)
Definition bytes := list byte.

(** JavaScript strings are modelled by the sequence of their UTF-8 bytes, so
    [Buffer.from(str)] (default encoding utf8) and [buf.toString()] are the
    two directions of the byte view of a string. *)
Definition Buffer_from_utf8 (s : string) : bytes := list_byte_of_string s.
Definition Buffer_toString (b : bytes) : string := string_of_list_byte b.

Module Hex.

(** The sixteen lower-case digits used by [buf.toString('hex')]. *)
Definition digit (n : N) : ascii :=
  match n with
  | 0 => "0" | 1 => "1" | 2 => "2" | 3 => "3" | 4 => "4" | 5 => "5"
  | 6 => "6" | 7 => "7" | 8 => "8" | 9 => "9" | 10 => "a" | 11 => "b"
  | 12 => "c" | 13 => "d" | 14 => "e" | _ => "f"
  end%N%char.

(** Value of one hex character; both letter cases are accepted, as Node's
    decoder does. *)
Definition value (c : ascii) : option N :=
  let n := N_of_ascii c in
  if ((48 <=? n) && (n <=? 57))%N then Some (n - 48)%N
  else if ((97 <=? n) && (n <=? 102))%N then Some (n - 87)%N
  else if ((65 <=? n) && (n <=? 70))%N then Some (n - 55)%N
  else None.

Definition byte_of_nibbles (hi lo : N) : byte :=
  match Byte.of_N (16 * hi + lo) with Some b => b | None => x00 end.

(** [buf.toString('hex')]: two lower-case digits per byte. *)
Fixpoint encode (b : bytes) : string :=
  match b with
  | [] => EmptyString
  | x :: r =>
      String (digit (Byte.to_N x / 16)) (String (digit (Byte.to_N x mod 16)) (encode r))
  end.

(** [Buffer.from(str, 'hex')]: characters are consumed two at a time and
    decoding stops, without any error, at the first pair that is not two
    hex digits; a trailing single character is dropped. *)
Fixpoint decode (s : string) : bytes :=
  match s with
  | String c1 (String c2 r) =>
      match value c1, value c2 with
      | Some hi, Some lo => byte_of_nibbles hi lo :: decode r
      | _, _ => []
      end
  | _ => []
  end.

(** A string is valid hex when it is an even number of hex digits. *)
Fixpoint valid (s : string) : bool :=
  match s with
  | EmptyString => true
  | String c1 (String c2 r) =>
      match value c1, value c2 with
      | Some _, Some _ => valid r
      | _, _ => false
      end
  | String _ EmptyString => false
  end.

End Hex.

(** Decoding stops at the first non-hex pair, so anything may follow the
    encoded bytes as long as it does not start with two hex digits. *)
Definition hex_stop (s : string) : Prop :=
  match s with
  | String c1 (String c2 _) => Hex.value c1 = None \/ Hex.value c2 = None
  | _ => True
  end.

(** ** JSON text *)

(** JavaScript numbers.  A number that is an integer is [JNum z] (and
    [VNum z] as a value); every other number, that is a double with a
    fractional part, [-0], [NaN] and the infinities, is [JDouble d] with [d] a
    binary64 of the Standard Library's [SpecFloat].  Integers are exact
    whatever their size: [JNum z] is printed with all the digits of [z] and an
    integer literal is read as that integer, where JavaScript has the nearest
    double, rounds beyond 2^53, prints 17 digits at most and an exponent from
    10^21 on; the number that is read back from the text of an integer is the
    same in both.  Every literal with a fraction or an exponent is rounded to
    the nearest double as JavaScript does, and a double is printed as
    JavaScript does. *)

Module Number.

(** Binary64: 53 bits of precision, infinities at exponent 1024. *)
Definition prec : Z := 53.
Definition emax : Z := 1024.

Definition eqb (a b : spec_float) : bool :=
  match a, b with
  | S754_zero s, S754_zero t => Bool.eqb s t
  | S754_infinity s, S754_infinity t => Bool.eqb s t
  | S754_nan, S754_nan => true
  | S754_finite s m e, S754_finite t n f => Bool.eqb s t && Pos.eqb m n && Z.eqb e f
  | _, _ => false
  end.

(** The double nearest to [m * 10^e], ties to even: the rounding of the
    Standard Library, on the exact product or on the exact quotient with the
    position of its remainder. *)
Definition of_decimal (neg : bool) (m : positive) (e : Z) : spec_float :=
  match e with
  | Zneg p =>
      let '(q, e', l) := SFdiv_core_binary prec emax (Zpos m) 0 (Z.pow_pos 10 p) 0 in
      binary_round_aux prec emax neg q e' l
  | _ => binary_round prec emax neg (Z.to_pos (Zpos m * 10 ^ e)) 0
  end.

(** The double nearest to an integer. *)
Definition of_Z (z : Z) : spec_float := binary_normalize prec emax z 0 false.

(** The integer a double is, when it is one. *)
Definition to_Z (d : spec_float) : option Z :=
  match d with
  | S754_zero _ => Some 0%Z
  | S754_finite s m e =>
      let z := if (0 <=? e)%Z then Some (Zpos m * 2 ^ e)%Z
               else if (Zpos m mod 2 ^ (- e) =? 0)%Z then Some (Zpos m / 2 ^ (- e))%Z
               else None in
      option_map (fun z => if s then (- z)%Z else z) z
  | _ => None
  end.

(** A double with a fractional part: a binary64 that is not an integer. *)
Definition fractional (d : spec_float) : bool :=
  match d with
  | S754_finite _ m e =>
      bounded prec emax m e && (e <? 0)%Z && negb (Zpos m mod 2 ^ (- e) =? 0)%Z
  | _ => false
  end.

(** [floor (m * 2^e / 10^p)] *)
Definition scaled (m e p : Z) : Z :=
  ((m * 2 ^ Z.max e 0 * 10 ^ Z.max (- p) 0) / (2 ^ Z.max (- e) 0 * 10 ^ Z.max p 0))%Z.

(** [m * 2^e] compared with [c * 10^p] *)
Definition compare_decimal (m e c p : Z) : comparison :=
  (m * 2 ^ Z.max e 0 * 10 ^ Z.max (- p) 0 ?= c * 10 ^ Z.max p 0 * 2 ^ Z.max (- e) 0)%Z.

(** The least [n] with [m * 2^e < 10^n], searched from an estimate. *)
Fixpoint magnitude_from (fuel : nat) (m e n : Z) : Z :=
  match fuel with
  | O => n
  | S fuel => if (scaled m e n =? 0)%Z then n else magnitude_from fuel m e (n + 1)%Z
  end.

Definition magnitude (m e : Z) : Z :=
  magnitude_from 8 m e (((Z.log2 m + e) * 30103) / 100000 - 2)%Z.

(** Trailing zeros move into the exponent. *)
Fixpoint strip_zeros (fuel : nat) (c p : Z) : Z * Z :=
  match fuel with
  | O => (c, p)
  | S fuel =>
      if ((0 <? c) && (c mod 10 =? 0))%Z then strip_zeros fuel (c / 10)%Z (p + 1)%Z
      else (c, p)
  end.

(** [c * 10^p], rounded to the nearest double, is the double [m * 2^e]. *)
Definition reads_back (neg : bool) (m : positive) (e c p : Z) : bool :=
  match c with
  | Zpos c' => eqb (of_decimal neg c' p) (S754_finite neg m e)
  | _ => false
  end.

(** A decimal is accepted for a double when it reads back as it is written,
    without its trailing zeros. *)
Definition accepted (neg : bool) (m : positive) (e c p : Z) : bool :=
  let '(c', p') := strip_zeros 20 c p in reads_back neg m e c' p'.

(** The decimal of [k] digits that is accepted for the double [m * 2^e] and
    is nearest to it (the even one of two that are as near), if there is
    one: its digits as an integer and its exponent. *)
Definition candidate (neg : bool) (m : positive) (e n k : Z) : option (Z * Z) :=
  let p := (n - k)%Z in
  let lo := scaled (Zpos m) e p in
  let ok c := accepted neg m e c p in
  match ok lo, ok (lo + 1)%Z with
  | true, false => Some (lo, p)
  | false, true => Some ((lo + 1)%Z, p)
  | true, true =>
      match compare_decimal (2 * Zpos m) e (2 * lo + 1) p with
      | Lt => Some (lo, p)
      | Gt => Some ((lo + 1)%Z, p)
      | Eq => Some (if Z.even lo then lo else (lo + 1)%Z, p)
      end
  | false, false => None
  end.

(** The shortest such decimal, searched from [k] digits on.  No double needs
    more than 17 digits; the search goes as far as the digits of the exact
    value of a double may. *)
Fixpoint shortest_from (fuel : nat) (neg : bool) (m : positive) (e n k : Z) : Z * Z :=
  match fuel with
  | O => (scaled (Zpos m) e (n - k), (n - k)%Z)
  | S fuel =>
      match candidate neg m e n k with
      | Some r => r
      | None => shortest_from fuel neg m e n (k + 1)%Z
      end
  end.

Definition digits_of (c : Z) : string :=
  DecimalString.NilEmpty.string_of_uint (N.to_uint (Z.to_N c)).

Fixpoint zeros (n : nat) : string :=
  match n with
  | O => EmptyString
  | S n => String "0" (zeros n)
  end.

(** Number::toString of the ECMAScript specification on the digits [s]
    and the exponent [n]: the value is [0.s * 10^n]. *)
Definition format (s : string) (n : Z) : string :=
  let k := Z.of_nat (String.length s) in
  if ((k <=? n) && (n <=? 21))%Z then s ++ zeros (Z.to_nat (n - k))
  else if ((0 <? n) && (n <=? 21))%Z then
    substring 0 (Z.to_nat n) s ++ "." ++ substring (Z.to_nat n) (Z.to_nat (k - n)) s
  else if ((-6 <? n) && (n <=? 0))%Z then "0." ++ zeros (Z.to_nat (- n)) ++ s
  else
    let x := (n - 1)%Z in
    let ex := (if (x <? 0)%Z then "-" else "+") ++ digits_of (Z.abs x) in
    match s with
    | String c EmptyString => String c ("e" ++ ex)
    | String c r => String c ("." ++ r ++ "e" ++ ex)
    | EmptyString => EmptyString
    end.

(** Number::toString of a finite double that is not zero. *)
Definition to_text (neg : bool) (m : positive) (e : Z) : string :=
  let n := magnitude (Zpos m) e in
  let '(c, p) := shortest_from 1100 neg m e n 1 in
  let '(c, p) := strip_zeros 20 c p in
  let s := digits_of c in
  (if neg then "-" else EmptyString) ++ format s (p + Z.of_nat (String.length s)).

(** The text [JSON.stringify] gives for a number that is not an integer:
    [null] for [NaN] and the infinities, [0] for [-0]. *)
Definition print (d : spec_float) : string :=
  match d with
  | S754_finite s m e => to_text s m e
  | S754_zero _ => "0"
  | _ => "null"
  end.

End Number.

(** JSON documents. *)
Unset Elimination Schemes.
Inductive json : Type :=
| JNull
| JBool (b : bool)
| JNum (z : Z)
| JDouble (d : spec_float)
| JStr (s : string)
| JArr (elems : list json)
| JObj (members : list (string * json)).
Set Elimination Schemes.

(** Induction on documents, through the members of arrays and objects. *)
Section JsonInduction.
Variable P : json -> Prop.
Hypothesis Hnull : P JNull.
Hypothesis Hbool : forall b, P (JBool b).
Hypothesis Hnum : forall z, P (JNum z).
Hypothesis Hdouble : forall d, P (JDouble d).
Hypothesis Hstr : forall s, P (JStr s).
Hypothesis Harr : forall l, Forall P l -> P (JArr l).
Hypothesis Hobj : forall l, Forall (fun kv => P (snd kv)) l -> P (JObj l).

Fixpoint json_ind (j : json) : P j :=
  match j with
  | JNull => Hnull
  | JBool b => Hbool b
  | JNum z => Hnum z
  | JDouble d => Hdouble d
  | JStr s => Hstr s
  | JArr l =>
      Harr l ((fix go (l : list json) : Forall P l :=
                 match l with
                 | [] => List.Forall_nil P
                 | x :: r => List.Forall_cons _ x r (json_ind x) (go r)
                 end) l)
  | JObj l =>
      Hobj l ((fix go (l : list (string * json)) : Forall (fun kv => P (snd kv)) l :=
                 match l with
                 | [] => List.Forall_nil _
                 | x :: r => List.Forall_cons _ x r (json_ind (snd x)) (go r)
                 end) l)
  end.
End JsonInduction.

Module JSON.

(** The double quote character. *)
Definition dquote : ascii := "034"%char.

Definition is_ws (c : ascii) : bool :=
  let n := N_of_ascii c in
  ((n =? 32) || (n =? 9) || (n =? 10) || (n =? 13))%N.

Definition is_digit (c : ascii) : bool :=
  let n := N_of_ascii c in ((48 <=? n) && (n <=? 57))%N.

Fixpoint skip_ws (s : string) : string :=
  match s with
  | String c r => if is_ws c then skip_ws r else s
  | EmptyString => EmptyString
  end.

(** *** Serialisation ([JSON.stringify] without indentation) *)

(** QuoteJSONString: the quote, the backslash and the control characters
    are escaped, every other character is copied. *)
Definition escape_char (c : ascii) : string :=
  let n := N_of_ascii c in
  if (n =? 34)%N then String "\" (String dquote EmptyString)
  else if (n =? 92)%N then "\\"
  else if (n =? 8)%N then "\b"
  else if (n =? 9)%N then "\t"
  else if (n =? 10)%N then "\n"
  else if (n =? 12)%N then "\f"
  else if (n =? 13)%N then "\r"
  else if (n <? 32)%N then
    String "\" (String "u" (String "0" (String "0"
      (String (Hex.digit (n / 16)) (String (Hex.digit (n mod 16)) EmptyString)))))
  else String c EmptyString.

Fixpoint escape (s : string) : string :=
  match s with
  | EmptyString => EmptyString
  | String c r => (escape_char c ++ escape r)%string
  end.

Definition quote (s : string) : string :=
  String dquote (escape s ++ String dquote EmptyString)%string.

Definition print_N (n : N) : string :=
  DecimalString.NilEmpty.string_of_uint (N.to_uint n).

Definition print_Z (z : Z) : string :=
  if (z <? 0)%Z then String "-" (print_N (Z.to_N (- z))) else print_N (Z.to_N z).

Fixpoint join (sep : string) (l : list string) : string :=
  match l with
  | [] => EmptyString
  | [x] => x
  | x :: r => (x ++ sep ++ join sep r)%string
  end.

Fixpoint print (j : json) : string :=
  match j with
  | JNull => "null"
  | JBool true => "true"
  | JBool false => "false"
  | JNum z => print_Z z
  | JDouble d => Number.print d
  | JStr s => quote s
  | JArr l => String "[" (join "," (map print l) ++ "]")%string
  | JObj l =>
      String "{"
        (join "," (map (fun kv => (quote (fst kv) ++ ":" ++ print (snd kv))%string) l)
         ++ "}")%string
  end.

(** *** Parsing ([JSON.parse]) *)

Definition simple_escape (e : ascii) : option ascii :=
  let n := N_of_ascii e in
  if (n =? 34)%N then Some dquote
  else if (n =? 92)%N then Some "\"%char
  else if (n =? 47)%N then Some "/"%char
  else if (n =? 98)%N then Some (ascii_of_N 8)
  else if (n =? 102)%N then Some (ascii_of_N 12)
  else if (n =? 110)%N then Some (ascii_of_N 10)
  else if (n =? 114)%N then Some (ascii_of_N 13)
  else if (n =? 116)%N then Some (ascii_of_N 9)
  else None.

Definition hex4 (a b c d : ascii) : option N :=
  match Hex.value a, Hex.value b, Hex.value c, Hex.value d with
  | Some x, Some y, Some z, Some w => Some (4096 * x + 256 * y + 16 * z + w)%N
  | _, _, _, _ => None
  end.

(** The UTF-8 bytes of the code unit named by a [\uXXXX] escape (a
    surrogate half is encoded on its own, in three bytes). *)
Definition utf8_of_code (cp : N) : string :=
  if (cp <? 128)%N then String (ascii_of_N cp) EmptyString
  else if (cp <? 2048)%N then
    String (ascii_of_N (192 + cp / 64))
      (String (ascii_of_N (128 + cp mod 64)) EmptyString)
  else
    String (ascii_of_N (224 + cp / 4096))
      (String (ascii_of_N (128 + (cp / 64) mod 64))
         (String (ascii_of_N (128 + cp mod 64)) EmptyString)).

Definition prepend (p : string) (r : option (string * string)) :
  option (string * string) :=
  match r with
  | Some (s, rest) => Some ((p ++ s)%string, rest)
  | None => None
  end.

(** The characters of a string literal after its opening quote: the decoded
    contents and the text after the closing quote. *)
Fixpoint parse_chars (s : string) : option (string * string) :=
  match s with
  | EmptyString => None
  | String c r =>
      if (N_of_ascii c =? 34)%N then Some (EmptyString, r)
      else if (N_of_ascii c =? 92)%N then
        match r with
        | EmptyString => None
        | String e r1 =>
            match simple_escape e with
            | Some ch => prepend (String ch EmptyString) (parse_chars r1)
            | None =>
                if (N_of_ascii e =? 117)%N then
                  match r1 with
                  | String a (String b (String x (String y r2))) =>
                      match hex4 a b x y with
                      | Some cp => prepend (utf8_of_code cp) (parse_chars r2)
                      | None => None
                      end
                  | _ => None
                  end
                else None
            end
        end
      else if (N_of_ascii c <? 32)%N then None
      else prepend (String c EmptyString) (parse_chars r)
  end.

(** The longest prefix of decimal digits. *)
Fixpoint span_digits (s : string) : string * string :=
  match s with
  | String c r =>
      if is_digit c then let '(d, rest) := span_digits r in (String c d, rest)
      else (EmptyString, s)
  | EmptyString => (EmptyString, EmptyString)
  end.

(** A string of decimal digits. *)
Fixpoint all_digits (s : string) : bool :=
  match s with
  | String c r => is_digit c && all_digits r
  | EmptyString => true
  end.

Definition starts_fraction (s : string) : bool :=
  match s with
  | String c _ =>
      let n := N_of_ascii c in ((n =? 46) || (n =? 101) || (n =? 69))%N
  | EmptyString => false
  end.

(** The integer part of a number literal: digits without a leading zero. *)
Definition lex_int (s : string) : option (string * string) :=
  let '(d, rest) := span_digits s in
  match d with
  | EmptyString => None
  | String c d' =>
      if (N_of_ascii c =? 48)%N && negb (String.eqb d' EmptyString) then None
      else Some (d, rest)
  end.

(** The fraction, if there is one: a point and at least one digit. *)
Definition lex_frac (s : string) : option (string * string) :=
  match s with
  | String c r =>
      if (N_of_ascii c =? 46)%N then
        match span_digits r with
        | (EmptyString, _) => None
        | (d, rest) => Some (d, rest)
        end
      else Some (EmptyString, s)
  | EmptyString => Some (EmptyString, s)
  end.

(** The exponent, if there is one: [e] or [E], a sign or none, and at least
    one digit. *)
Definition lex_exp (s : string) : option (option (bool * string) * string) :=
  match s with
  | String c r =>
      if ((N_of_ascii c =? 101) || (N_of_ascii c =? 69))%N then
        let '(neg, r1) :=
          match r with
          | String x r' =>
              if (N_of_ascii x =? 45)%N then (true, r')
              else if (N_of_ascii x =? 43)%N then (false, r')
              else (false, r)
          | EmptyString => (false, r)
          end in
        match span_digits r1 with
        | (EmptyString, _) => None
        | (d, rest) => Some (Some (neg, d), rest)
        end
      else Some (None, s)
  | EmptyString => Some (None, s)
  end.

Definition digits_value (d : string) : N :=
  match DecimalString.NilEmpty.uint_of_string d with
  | Some u => N.of_uint u
  | None => 0%N
  end.

(** A double as a document: [JNum] when it is an integer. *)
Definition of_double (d : spec_float) : json :=
  match d with
  | S754_zero false => JNum 0
  | S754_finite _ _ _ =>
      match Number.to_Z d with
      | Some z => JNum z
      | None => JDouble d
      end
  | _ => JDouble d
  end.

(** The number a literal denotes. *)
Definition number_value (neg : bool) (int frac : string) (exp : option (bool * string))
  : json :=
  match frac, exp with
  | EmptyString, None =>
      match digits_value int with
      | N0 => if neg then JDouble (S754_zero true) else JNum 0
      | Npos p => JNum (if neg then Zneg p else Zpos p)
      end
  | _, _ =>
      let e := match exp with
               | Some (true, d) => (- Z.of_N (digits_value d))%Z
               | Some (false, d) => Z.of_N (digits_value d)
               | None => 0%Z
               end in
      match digits_value (int ++ frac) with
      | N0 => if neg then JDouble (S754_zero true) else JNum 0
      | Npos p => of_double (Number.of_decimal neg p (e - Z.of_nat (String.length frac)))
      end
  end.

(** A number literal: an optional minus sign, the integer part, an
    optional fraction, an optional exponent. *)
Definition parse_number (s : string) : option (json * string) :=
  let '(neg, s1) :=
    match s with
    | String c r => if (N_of_ascii c =? 45)%N then (true, r) else (false, s)
    | EmptyString => (false, s)
    end in
  match lex_int s1 with
  | None => None
  | Some (int, r1) =>
      match lex_frac r1 with
      | None => None
      | Some (frac, r2) =>
          match lex_exp r2 with
          | None => None
          | Some (exp, r3) => Some (number_value neg int frac exp, r3)
          end
      end
  end.

(** [expect lit s]: [s] without its prefix [lit]. *)
Fixpoint expect (lit s : string) : option string :=
  match lit, s with
  | EmptyString, _ => Some s
  | String a l, String b r => if Ascii.eqb a b then expect l r else None
  | String _ _, EmptyString => None
  end.

Definition literal (lit : string) (v : json) (s : string) : option (json * string) :=
  match expect lit s with Some rest => Some (v, rest) | None => None end.

Definition wrap {A} (f : A -> json) (o : option (A * string)) :
  option (json * string) :=
  match o with
  | Some (x, rest) => Some (f x, rest)
  | None => None
  end.

(** [accept n s]: skip white space, then consume the character of code [n]. *)
Definition accept (n : N) (s : string) : option string :=
  match skip_ws s with
  | String c r => if (N_of_ascii c =? n)%N then Some r else None
  | EmptyString => None
  end.

(** The elements of a non-empty array, up to and including the closing
    bracket; [parse1] parses one element. *)
Fixpoint elements (parse1 : string -> option (json * string)) (k : nat) (s : string)
  : option (list json * string) :=
  match k with
  | O => None
  | S k =>
      match parse1 s with
      | None => None
      | Some (v, s1) =>
          match accept 44 s1 with
          | Some s2 =>
              match elements parse1 k s2 with
              | Some (vs, s3) => Some (v :: vs, s3)
              | None => None
              end
          | None =>
              match accept 93 s1 with
              | Some s2 => Some ([v], s2)
              | None => None
              end
          end
      end
  end.

(** The members of a non-empty object, up to and including the closing
    brace. *)
Fixpoint members (parse1 : string -> option (json * string)) (k : nat) (s : string)
  : option (list (string * json) * string) :=
  match k with
  | O => None
  | S k =>
      match accept 34 s with
      | None => None
      | Some s0 =>
          match parse_chars s0 with
          | None => None
          | Some (key, s1) =>
              match accept 58 s1 with
              | None => None
              | Some s2 =>
                  match parse1 s2 with
                  | None => None
                  | Some (v, s3) =>
                      match accept 44 s3 with
                      | Some s4 =>
                          match members parse1 k s4 with
                          | Some (kvs, s5) => Some ((key, v) :: kvs, s5)
                          | None => None
                          end
                      | None =>
                          match accept 125 s3 with
                          | Some s4 => Some ([(key, v)], s4)
                          | None => None
                          end
                      end
                  end
              end
          end
      end
  end.

(** Recursive descent; [fuel] bounds both the nesting depth and the number
    of members of one array or object. *)
Fixpoint parse_value (fuel : nat) (s : string) : option (json * string) :=
  match fuel with
  | O => None
  | S fuel =>
      match skip_ws s with
      | EmptyString => None
      | String c r =>
          let n := N_of_ascii c in
          if (n =? 110)%N then literal "ull" JNull r
          else if (n =? 116)%N then literal "rue" (JBool true) r
          else if (n =? 102)%N then literal "alse" (JBool false) r
          else if (n =? 34)%N then
            match parse_chars r with
            | Some (str, rest) => Some (JStr str, rest)
            | None => None
            end
          else if (n =? 91)%N then
            match accept 93 r with
            | Some rest => Some (JArr [], rest)
            | None => wrap JArr (elements (parse_value fuel) fuel r)
            end
          else if (n =? 123)%N then
            match accept 125 r with
            | Some rest => Some (JObj [], rest)
            | None => wrap JObj (members (parse_value fuel) fuel r)
            end
          else parse_number (String c r)
      end
  end.

(** A whole text: one value, surrounded by white space only. *)
Definition parse_text (s : string) : option json :=
  match parse_value (S (String.length s)) s with
  | Some (v, rest) =>
      match skip_ws rest with
      | EmptyString => Some v
      | String _ _ => None
      end
  | None => None
  end.

(** Number of nodes of a document. *)
Fixpoint size (j : json) : nat :=
  match j with
  | JArr l => S (list_sum (map size l))
  | JObj l => S (list_sum (map (fun kv => size (snd kv)) l))
  | _ => 1
  end.

(** Objects of a JavaScript program have pairwise distinct keys. *)
Fixpoint distinct (l : list string) : bool :=
  match l with
  | [] => true
  | k :: r => negb (existsb (String.eqb k) r) && distinct r
  end.

(** A document whose numbers other than integers are doubles with a
    fractional part: [NaN], the infinities and [-0] are no numbers of JSON,
    and an integer is a [JNum]. *)
Fixpoint exact (j : json) : bool :=
  match j with
  | JDouble d => Number.fractional d
  | JArr l => forallb exact l
  | JObj l => forallb (fun kv => exact (snd kv)) l
  | _ => true
  end.

Fixpoint well_formed (j : json) : bool :=
  match j with
  | JDouble d => Number.fractional d
  | JArr l => forallb well_formed l
  | JObj l => distinct (map fst l) && forallb (fun kv => well_formed (snd kv)) l
  | _ => true
  end.

End JSON.

(** What may follow a printed value: anything that cannot continue an integer
    literal. *)
Definition value_stop (rest : string) : Prop :=
  match rest with
  | String c _ => JSON.is_digit c = false /\ JSON.starts_fraction rest = false
  | EmptyString => True
  end.

(** The first character of a printed value is neither white space nor a
    closing bracket. *)
Definition head_ok (c : ascii) : Prop :=
  JSON.is_ws c = false /\ (N_of_ascii c =? 93)%N = false
  /\ (N_of_ascii c =? 125)%N = false.

(** [parse1] parses the printed form of [a], whatever follows it. *)
Definition inverts (parse1 : string -> option (json * string)) (a : json) : Prop :=
  forall tail, value_stop tail -> parse1 (JSON.print a ++ tail)%string = Some (a, tail).

(** ** JavaScript values and the object heap *)

(** Objects and arrays live in a heap and are handled through references, so
    that aliasing and in-place assignment are visible.  A number is [VNum z]
    when it is the integer [z] and [VDouble d] when it is any other double
    ([NaN], the infinities and [-0] among them); strings are byte strings
    (UTF-8); functions, symbols and accessor properties do not occur in the
    data the module handles. *)
Definition loc := nat.

Inductive value : Type :=
| VUndefined
| VNull
| VBool (b : bool)
| VNum (z : Z)
| VStr (s : string)
| VRef (l : loc)
| VDouble (d : spec_float).

(** A plain object is the list of its own properties in creation order,
    which is the order [JSON.stringify] enumerates them in (keys that look
    like array indices, which JavaScript would move to the front, get no
    special treatment); an array has its elements and, possibly, named
    properties besides. *)
Inductive cell : Type :=
| CObj (props : list (string * value))
| CArr (elems : list value) (props : list (string * value)).

Definition value_eqb (a b : value) : bool :=
  match a, b with
  | VUndefined, VUndefined => true
  | VNull, VNull => true
  | VBool x, VBool y => Bool.eqb x y
  | VNum x, VNum y => (x =? y)%Z
  | VDouble x, VDouble y => SFeqb x y
  | VNum x, VDouble y => SFeqb (Number.of_Z x) y
  | VDouble x, VNum y => SFeqb x (Number.of_Z y)
  | VStr x, VStr y => String.eqb x y
  | VRef x, VRef y => Nat.eqb x y
  | _, _ => false
  end.

(** [v != null]: neither [null] nor [undefined]. *)
Definition non_null (v : value) : bool :=
  match v with
  | VUndefined | VNull => false
  | _ => true
  end.

(** [a === b] on the values of this model. *)
Definition strict_eq (a b : value) : bool := value_eqb a b.

Fixpoint assoc_get (k : string) (ps : list (string * value)) : option value :=
  match ps with
  | [] => None
  | (k', v) :: r => if String.eqb k k' then Some v else assoc_get k r
  end.

(** Assignment to a property: an existing property keeps its place, a new
    one is added last. *)
Fixpoint assoc_set (k : string) (v : value) (ps : list (string * value))
  : list (string * value) :=
  match ps with
  | [] => [(k, v)]
  | (k', v') :: r =>
      if String.eqb k k' then (k, v) :: r else (k', v') :: assoc_set k v r
  end.

Definition cell_props (c : cell) : list (string * value) :=
  match c with
  | CObj ps => ps
  | CArr _ ps => ps
  end.

Definition cell_set (k : string) (v : value) (c : cell) : cell :=
  match c with
  | CObj ps => CObj (assoc_set k v ps)
  | CArr es ps => CArr es (assoc_set k v ps)
  end.

(** [obj.name] for a receiver that is not [null] or [undefined].  The
    program only reads the names [msghex], [sighex], [spkhex], [jsonrpc],
    [id], [method], [error], [result] and the names of its templates; none of
    them is inherited from a prototype, an array index or [length], so a
    primitive receiver yields [undefined] and an object yields its own
    property. *)
Definition read_prop (h : list cell) (obj : value) (name : string) : value :=
  match obj with
  | VRef l =>
      match h !! l with
      | Some c => default VUndefined (assoc_get name (cell_props c))
      | None => VUndefined
      end
  | _ => VUndefined
  end.

(** [obj.name = v] on a receiver that is not [null] or [undefined]: in
    sloppy mode an assignment to a property of a primitive is ignored. *)
Definition write_prop (h : list cell) (obj : value) (name : string) (v : value)
  : list cell :=
  match obj with
  | VRef l =>
      match h !! l with
      | Some c => <[l := cell_set name v c]> h
      | None => h
      end
  | _ => h
  end.

(** *** The traversal of [JSON.stringify] *)

(** SerializeJSONProperty yields [None] on a cyclic structure (a TypeError)
    and [Some None] on [undefined]: an [undefined] property is left out of
    an object and printed as [null] in an array. *)
Fixpoint reify_props (f : value -> option (option json)) (ps : list (string * value))
  : option (list (string * json)) :=
  match ps with
  | [] => Some []
  | (k, x) :: r =>
      match f x, reify_props f r with
      | Some (Some j), Some js => Some ((k, j) :: js)
      | Some None, Some js => Some js
      | _, _ => None
      end
  end.

Fixpoint reify_elems (f : value -> option (option json)) (es : list value)
  : option (list json) :=
  match es with
  | [] => Some []
  | x :: r =>
      match f x, reify_elems f r with
      | Some oj, Some js => Some (default JNull oj :: js)
      | _, _ => None
      end
  end.

Fixpoint reify (fuel : nat) (h : list cell) (v : value) : option (option json) :=
  match fuel with
  | O => None
  | S fuel =>
      match v with
      | VUndefined => Some None
      | VNull => Some (Some JNull)
      | VBool b => Some (Some (JBool b))
      | VNum z => Some (Some (JNum z))
      | VDouble (S754_finite s m e) => Some (Some (JDouble (S754_finite s m e)))
      | VDouble (S754_zero _) => Some (Some (JNum 0))
      | VDouble _ => Some (Some JNull)
      | VStr s => Some (Some (JStr s))
      | VRef l =>
          match h !! l with
          | None => None
          | Some (CObj ps) =>
              match reify_props (reify fuel h) ps with
              | Some js => Some (Some (JObj js))
              | None => None
              end
          | Some (CArr es _) =>
              match reify_elems (reify fuel h) es with
              | Some js => Some (Some (JArr js))
              | None => None
              end
          end
      end
  end.

(** *** Structure of a value *)

(** [shape fuel h v] is the JSON document that [v] is in heap [h], when [v]
    is one: no [undefined] anywhere, no named property on an array, distinct
    keys, and every number an integer or a double with a fractional part
    (not [NaN], an infinity or [-0]).  Two values with the same shape are
    structurally equal. *)
Fixpoint shape_props (f : value -> option json) (ps : list (string * value))
  : option (list (string * json)) :=
  match ps with
  | [] => Some []
  | (k, x) :: r =>
      match f x, shape_props f r with
      | Some j, Some js => Some ((k, j) :: js)
      | _, _ => None
      end
  end.

Fixpoint shape_elems (f : value -> option json) (es : list value) : option (list json) :=
  match es with
  | [] => Some []
  | x :: r =>
      match f x, shape_elems f r with
      | Some j, Some js => Some (j :: js)
      | _, _ => None
      end
  end.

Fixpoint shape (fuel : nat) (h : list cell) (v : value) : option json :=
  match fuel with
  | O => None
  | S fuel =>
      match v with
      | VUndefined => None
      | VNull => Some JNull
      | VBool b => Some (JBool b)
      | VNum z => Some (JNum z)
      | VDouble d => if Number.fractional d then Some (JDouble d) else None
      | VStr s => Some (JStr s)
      | VRef l =>
          match h !! l with
          | Some (CObj ps) =>
              if JSON.distinct (map fst ps) then
                match shape_props (shape fuel h) ps with
                | Some js => Some (JObj js)
                | None => None
                end
              else None
          | Some (CArr es []) =>
              match shape_elems (shape fuel h) es with
              | Some js => Some (JArr js)
              | None => None
              end
          | _ => None
          end
      end
  end.

(** The depth of the object graph below a value is at most the number of
    cells, so this much fuel reads every acyclic value. *)
Definition heap_fuel (h : list cell) : nat := S (length h).

(** [v] in [h] is the JSON document [j]. *)
Definition represents (h : list cell) (v : value) (j : json) : Prop :=
  shape (heap_fuel h) h v = Some j.

(** *** The allocation of [JSON.parse] *)

(** Members are assigned in text order, so a repeated key keeps its first
    place and its last value. *)
Definition build_props (kvs : list (string * value)) : list (string * value) :=
  fold_left (fun acc kv => assoc_set (fst kv) (snd kv) acc) kvs [].

Section AllocMembers.
Variable alloc1 : json -> list cell -> value * list cell.

Fixpoint alloc_elems (l : list json) (h : list cell) : list value * list cell :=
  match l with
  | [] => ([], h)
  | x :: r =>
      let '(v, h1) := alloc1 x h in
      let '(vs, h2) := alloc_elems r h1 in
      (v :: vs, h2)
  end.

Fixpoint alloc_props (l : list (string * json)) (h : list cell)
  : list (string * value) * list cell :=
  match l with
  | [] => ([], h)
  | (k, x) :: r =>
      let '(v, h1) := alloc1 x h in
      let '(kvs, h2) := alloc_props r h1 in
      ((k, v) :: kvs, h2)
  end.
End AllocMembers.

(** The value of a document, its parts allocated after the cells of [h]:
    first the parts of an array or object, then the array or object itself. *)
Fixpoint alloc (j : json) (h : list cell) : value * list cell :=
  match j with
  | JNull => (VNull, h)
  | JBool b => (VBool b, h)
  | JNum z => (VNum z, h)
  | JDouble d => (VDouble d, h)
  | JStr s => (VStr s, h)
  | JArr l =>
      let '(vs, h1) := alloc_elems alloc l h in
      (VRef (length h1), (h1 ++ [CArr vs []])%list)
  | JObj l =>
      let '(kvs, h1) := alloc_props alloc l h in
      (VRef (length h1), (h1 ++ [CObj (build_props kvs)])%list)
  end.

(** Nesting depth of a document. *)
Fixpoint depth (j : json) : nat :=
  match j with
  | JArr l => S (list_max (map depth l))
  | JObj l => S (list_max (map (fun kv => depth (snd kv)) l))
  | _ => 1
  end.

(** What allocation does for the document [j]: it adds cells after the
    existing ones, at least as many as [j] is deep, and the value it returns
    is [j]. *)
Definition alloc_ok (j : json) : Prop :=
  forall (h : list cell) (v : value) (h' : list cell),
    JSON.well_formed j = true -> alloc j h = (v, h') ->
    (exists new, h' = (h ++ new)%list)
    /\ length h + depth j <= S (length h')
    /\ shape (depth j) h' v = Some j.


(** ** The libraries the module calls *)

(** The order of the secp256k1 group. *)
Definition secp256k1_n : N :=
  0xFFFFFFFFFFFFFFFFFFFFFFFFFFFFFFFEBAAEDCE6AF48A03BBFD25E8CD0364141%N.

(** Big-endian value of a byte sequence. *)
Definition be_int (b : bytes) : N :=
  fold_left (fun acc x => (256 * acc + Byte.to_N x)%N) b 0%N.

(** A private key of the curve: 32 bytes whose value is in [1, n-1]. *)
Definition valid_secret (b : bytes) : bool :=
  Nat.eqb (length b) 32 && (0 <? be_int b)%N && (be_int b <? secp256k1_n)%N.

(** A private key in the hex form the module's callers pass around. *)
Definition valid_secret_hex (sk : string) : Prop :=
  Hex.valid sk = true /\ valid_secret (Hex.decode sk) = true.

(** What the module takes from [node:crypto], [elliptic] (curve secp256k1),
    [eciesjs] and [Buffer].  An [option] result is [None] when the call
    throws. *)
Class Library : Type := {
  (** [crypto.createHash('sha256').update(b).digest()] *)
  sha256 : bytes -> bytes;
  (** elliptic key pairs holding a private scalar, curve points, signatures *)
  privkey : Type;
  point : Type;
  signature : Type;
  (** [ec.keyFromPrivate(v, 'hex')] *)
  keyFromPrivate : value -> option privkey;
  (** [key.getPublic()]: the generator times the private scalar *)
  getPublic : privkey -> point;
  (** [point.encode(enc, compact)], as bytes; no encoding at infinity *)
  encodePoint : point -> bool -> option bytes;
  (** [key.sign(hash)] and [sig.toDER()] *)
  sign : privkey -> bytes -> option signature;
  toDER : signature -> bytes;
  (** [ec.keyFromPublic(v, 'hex')] *)
  keyFromPublic : value -> option point;
  (** [pubkey.verify(hash, sig)] *)
  verify : point -> bytes -> bytes -> option bool;
  (** [ecies.encrypt(pk, msg)] reads the entropy that is left and tells how
      much of it was used for the ephemeral key and the nonce *)
  ecies_encrypt : (nat -> byte) -> value -> bytes -> option (bytes * nat);
  (** [ecies.decrypt(sk, msg)] *)
  ecies_decrypt : value -> bytes -> option bytes;
  (** [Buffer.from(obj, 'hex')] when [obj] is an array or an object *)
  Buffer_from_object : list cell -> loc -> option bytes;
}.

(** ** Exceptions, the world and the monad of the program *)

(** What a call can throw.  The module itself throws one thing, the string
    ['Sender verification failure']; everything else is raised by the
    language or inside a library: [KeyError] when elliptic rejects a key,
    [SignatureError] when it cannot sign or cannot read a signature,
    [EncryptError] and [DecryptError] inside eciesjs, [SyntaxError] in
    [JSON.parse], [TypeError] for a property of [null], a [Buffer] made from
    something that is not text, or a cyclic structure.  The module raises
    nothing for a hex field that is not hex. *)
Inductive exn : Type :=
| Thrown (message : string)
| TypeError
| SyntaxError
| KeyError
| SignatureError
| EncryptError
| DecryptError.

(** The signature check of [blackToRed] failed. *)
Definition SenderVerificationFailure : exn := Thrown "Sender verification failure".

Section Program.
Context {L : Library}.

(** Calls into the libraries, in the order they are made. *)
Inductive event : Type :=
| EvRandom (n : nat)
| EvHash (data : bytes)
| EvKeyFromPrivate (sk : value)
| EvSign (hash : bytes)
| EvKeyFromPublic (pk : value)
| EvVerify (pk : point) (hash sig : bytes)
| EvEncrypt (pk : value) (plain : bytes)
| EvDecrypt (sk : value) (cipher : bytes).

Record world : Type := World {
  heap : list cell;
  tape : nat -> byte;      (** the entropy source *)
  cursor : nat;            (** how much of it has been read *)
  trace : list event;
}.

Definition M (A : Type) : Type := world -> (exn + A) * world.

Definition ret {A} (x : A) : M A := fun w => (inr x, w).
Definition throw {A} (e : exn) : M A := fun w => (inl e, w).
Definition bind {A B} (m : M A) (k : A -> M B) : M B :=
  fun w => match m w with
           | (inr x, w1) => k x w1
           | (inl e, w1) => (inl e, w1)
           end.

Notation "'let*' x ':=' m 'in' k" := (bind m (fun x => k))
  (at level 10, x name, m at level 100, k at level 200).
Notation "m ';;' k" := (bind m (fun _ => k))
  (at level 100, k at level 200, right associativity).

Definition with_heap (h : list cell) (w : world) : world :=
  World h (tape w) (cursor w) (trace w).
Definition log (e : event) : M unit :=
  fun w => (inr tt, World (heap w) (tape w) (cursor w) (trace w ++ [e])%list).
Definition lift {A} (e : exn) (o : option A) : M A :=
  match o with Some x => ret x | None => throw e end.

(** *** Language and built-ins *)

(** [obj.name]; a TypeError on [null] and [undefined]. *)
Definition get_prop (obj : value) (name : string) : M value :=
  fun w => if non_null obj then (inr (read_prop (heap w) obj name), w)
           else (inl TypeError, w).

(** [obj.name = v] *)
Definition set_prop (obj : value) (name : string) (v : value) : M unit :=
  fun w => if non_null obj
           then (inr tt, with_heap (write_prop (heap w) obj name v) w)
           else (inl TypeError, w).

(** An array or object literal. *)
Definition new_cell (c : cell) : M value :=
  fun w => (inr (VRef (length (heap w))), with_heap (heap w ++ [c])%list w).

(** [JSON.stringify(v)]: a string, or [undefined] ([None]) when [v] is. *)
Definition JSON_stringify (v : value) : M (option string) :=
  fun w => match reify (heap_fuel (heap w)) (heap w) v with
           | Some oj => (inr (option_map JSON.print oj), w)
           | None => (inl TypeError, w)
           end.

(** The string that [undefined] is converted to where text is expected. *)
Definition text_of (o : option string) : string := default "undefined" o.

(** [JSON.parse(text)] *)
Definition JSON_parse (text : string) : M value :=
  fun w => match JSON.parse_text text with
           | Some j => let '(v, h) := alloc j (heap w) in (inr v, with_heap h w)
           | None => (inl SyntaxError, w)
           end.

(** [Buffer.from(v, 'hex')] *)
Definition Buffer_from_hex (v : value) : M bytes :=
  fun w => match v with
           | VStr s => (inr (Hex.decode s), w)
           | VRef l => lift TypeError (Buffer_from_object (heap w) l) w
           | _ => (inl TypeError, w)
           end.

(** [Buffer.from(s)] on the result of [JSON.stringify] *)
Definition Buffer_from (s : option string) : M bytes :=
  match s with
  | Some s => ret (Buffer_from_utf8 s)
  | None => throw TypeError
  end.

(** [crypto.randomBytes(n)] *)
Definition randomBytes (n : nat) : M bytes :=
  fun w => (inr (map (tape w) (seq (cursor w) n)),
            World (heap w) (tape w) (cursor w + n) (trace w ++ [EvRandom n])%list).

(** *** Library calls *)

Definition createHash_sha256_digest (data : bytes) : M bytes :=
  log (EvHash data);; ret (sha256 data).

Definition ec_keyFromPrivate (sk : value) : M privkey :=
  log (EvKeyFromPrivate sk);; lift KeyError (keyFromPrivate sk).

Definition ec_keyFromPublic (pk : value) : M point :=
  log (EvKeyFromPublic pk);; lift KeyError (keyFromPublic pk).

Definition key_sign (k : privkey) (hash : bytes) : M signature :=
  log (EvSign hash);; lift SignatureError (sign k hash).

Definition key_verify (pk : point) (hash sig : bytes) : M bool :=
  log (EvVerify pk hash sig);; lift SignatureError (verify pk hash sig).

(** [point.encode('hex', compact)]: the hex text of the encoding; a
    TypeError at the point at infinity, which has no coordinates. *)
Definition point_encode_hex (p : point) (compact : bool) : M string :=
  match encodePoint p compact with
  | Some b => ret (Hex.encode b)
  | None => throw TypeError
  end.

Definition ecies_encrypt_call (pk : value) (plain : bytes) : M bytes :=
  log (EvEncrypt pk plain);;
  fun w => match ecies_encrypt (fun i => tape w (cursor w + i)%nat) pk plain with
           | Some (c, used) =>
               (inr c, World (heap w) (tape w) (cursor w + used) (trace w))
           | None => (inl EncryptError, w)
           end.

Definition ecies_decrypt_call (sk : value) (cipher : bytes) : M bytes :=
  log (EvDecrypt sk cipher);; lift DecryptError (ecies_decrypt sk cipher).

(** *** The module *)

(** The [exports] object and the five templates it holds when the module
    has been loaded. *)
Definition exports : value := VRef 0.

Definition initial_heap : list cell :=
  [ CObj [("BLACKMSG", VRef 1); ("REDHELLO", VRef 2); ("REQUEST", VRef 4);
          ("RESPONSE", VRef 6); ("ERRORRESPONSE", VRef 8)];
    CObj [("msghex", VStr EmptyString); ("sighex", VStr EmptyString);
          ("spkhex", VStr EmptyString)];
    CObj [("jsonrpc", VStr "2.0"); ("method", VStr "hello"); ("params", VRef 3);
          ("id", VNum 0)];
    CArr [] [];
    CObj [("jsonrpc", VStr "2.0"); ("method", VStr EmptyString); ("params", VRef 5);
          ("id", VNum 0)];
    CArr [] [];
    CObj [("jsonrpc", VStr "2.0"); ("result", VRef 7); ("id", VNum 0)];
    CObj [];
    CObj [("jsonrpc", VStr "2.0"); ("error", VRef 9); ("id", VNum 0)];
    CObj [("code", VNum 0); ("message", VStr EmptyString)] ].

(** The exported object and its templates are as the module created them. *)
Definition templates_intact (h : list cell) : Prop :=
  take (length initial_heap) h = initial_heap.

(** [exports.makeRedHello = function( sesspubkeyhex )]:
    a copy of [REDHELLO] with [params = [ sesspubkeyhex ]]. *)
Definition makeRedHello (sesspubkeyhex : value) : M value :=
  let* template := get_prop exports "REDHELLO" in
  let* text := JSON_stringify template in
  let* result := JSON_parse (text_of text) in
  let* params := new_cell (CArr [sesspubkeyhex] []) in
  set_prop result "params" params;;
  ret result.

(** [exports.makeErrorObj = function( errcode, errmessage, id )]:
    a copy of [ERRORRESPONSE] with [error.code], [error.message] and [id]
    assigned. *)
Definition makeErrorObj (errcode errmessage id : value) : M value :=
  let* template := get_prop exports "ERRORRESPONSE" in
  let* text := JSON_stringify template in
  let* result := JSON_parse (text_of text) in
  let* error := get_prop result "error" in
  set_prop error "code" errcode;;
  let* error := get_prop result "error" in
  set_prop error "message" errmessage;;
  set_prop result "id" id;;
  ret result.

(** [exports.blackToRed = function( myprivkeyhex, blackobj )]: decode the
    two hex fields, hash the message bytes, verify the signature under the
    key of [spkhex], throw ['Sender verification failure'] if it is not
    accepted, else decrypt and parse. *)
Definition blackToRed (myprivkeyhex blackobj : value) : M value :=
  let* msghex := get_prop blackobj "msghex" in
  let* msg := Buffer_from_hex msghex in
  let* sighex := get_prop blackobj "sighex" in
  let* sig := Buffer_from_hex sighex in
  let* msghash := createHash_sha256_digest msg in
  let* spkhex := get_prop blackobj "spkhex" in
  let* pubkey := ec_keyFromPublic spkhex in
  let* ok := key_verify pubkey msghash sig in
  if negb ok then throw SenderVerificationFailure
  else
    let* red := ecies_decrypt_call myprivkeyhex msg in
    JSON_parse (Buffer_toString red).

(** [exports.redToBlack = function( txprivkeyhex, rxpubkeyhex, redobj )]:
    serialise, encrypt to the receiver, hash the ciphertext, sign the hash,
    and fill a copy of [BLACKMSG] with the hex of the ciphertext, of the DER
    signature and of the sender's compressed public key. *)
Definition redToBlack (txprivkeyhex rxpubkeyhex redobj : value) : M value :=
  let* redstr := JSON_stringify redobj in
  let* plain := Buffer_from redstr in
  let* msg := ecies_encrypt_call rxpubkeyhex plain in
  let* msghash := createHash_sha256_digest msg in
  let* privkey := ec_keyFromPrivate txprivkeyhex in
  let* sig := key_sign privkey msghash in
  let* txpubkeyhex := point_encode_hex (getPublic privkey) true in
  let* template := get_prop exports "BLACKMSG" in
  let* text := JSON_stringify template in
  let* result := JSON_parse (text_of text) in
  set_prop result "msghex" (VStr (Hex.encode msg));;
  set_prop result "sighex" (VStr (Hex.encode (toDER sig)));;
  set_prop result "spkhex" (VStr txpubkeyhex);;
  ret result.

(** [exports.isBlackMsg = function( obj )]; it reads the heap and nothing
    else. *)
Definition isBlackMsg (h : list cell) (obj : value) : bool :=
  non_null obj
  && non_null (read_prop h obj "msghex")
  && non_null (read_prop h obj "sighex")
  && non_null (read_prop h obj "spkhex").

(** [exports.isJSONRPC = function( obj )] *)
Definition isJSONRPC (h : list cell) (obj : value) : bool :=
  non_null obj
  && non_null (read_prop h obj "jsonrpc")
  && strict_eq (read_prop h obj "jsonrpc") (VStr "2.0")
  && non_null (read_prop h obj "id")
  && (non_null (read_prop h obj "method")
      || non_null (read_prop h obj "error")
      || non_null (read_prop h obj "result")).

(** [exports.makeKey = function()]: 32 random bytes as the private key, and
    [privkey.getPublic().encode( 'hex' )], the encoding without the compact
    flag, as the public key. *)
Definition makeKey : M value :=
  let* random := randomBytes 32 in
  let privkeyhex := Hex.encode random in
  let* privkey := ec_keyFromPrivate (VStr privkeyhex) in
  let* pubkeyhex := point_encode_hex (getPublic privkey) false in
  new_cell (CObj [("prv", VStr privkeyhex); ("pub", VStr pubkeyhex)]).

(** [console.log( label + JSON.stringify(v, null, 2) )]: the output is not
    modelled, the serialisation is. *)
Definition console_log_json (v : value) : M unit :=
  JSON_stringify v;; ret tt.

(** [exports.smokeTest = function()]; [pid] is [process.pid]. *)
Definition smokeTest (pid : value) : M unit :=
  let* clnttestkey := makeKey in
  let* svrsesskey := makeKey in
  let* svrpub := get_prop svrsesskey "pub" in
  let* redhello := makeRedHello svrpub in
  console_log_json redhello;;
  let* template := get_prop exports "REQUEST" in
  let* text := JSON_stringify template in
  let* redReqObj := JSON_parse (text_of text) in
  set_prop redReqObj "method" (VStr "doSomething");;
  let* params := new_cell (CArr [VStr "testing"; VNum 123] []) in
  set_prop redReqObj "params" params;;
  set_prop redReqObj "id" pid;;
  console_log_json redReqObj;;
  let* clntprv := get_prop clnttestkey "prv" in
  let* svrpub := get_prop svrsesskey "pub" in
  let* black := redToBlack clntprv svrpub redReqObj in
  console_log_json black;;
  let* svrprv := get_prop svrsesskey "prv" in
  let* red := blackToRed svrprv black in
  console_log_json red;;
  let* template := get_prop exports "RESPONSE" in
  let* text := JSON_stringify template in
  let* redresponse := JSON_parse (text_of text) in
  let* result := new_cell (CObj [("answer", VNum 42)]) in
  set_prop redresponse "result" result;;
  let* redid := get_prop red "id" in
  set_prop redresponse "id" redid;;
  let* svrprv := get_prop svrsesskey "prv" in
  let* clntpub := get_prop clnttestkey "pub" in
  let* blackreply := redToBlack svrprv clntpub redresponse in
  console_log_json blackreply;;
  let* clntprv := get_prop clnttestkey "prv" in
  let* redreply := blackToRed clntprv blackreply in
  console_log_json redreply.

End Program.

Notation "'let*' x ':=' m 'in' k" := (bind m (fun x => k))
  (at level 10, x name, m at level 100, k at level 200).
Notation "m ';;' k" := (bind m (fun _ => k))
  (at level 100, k at level 200, right associativity).

(** ** What the libraries are trusted to do *)

(** [pk] is a hex text of the public key of the private key [sk]. *)
Definition valid_key_pair {L : Library} (sk pk : string) : Prop :=
  valid_secret_hex sk /\
  exists (k : privkey) (compact : bool) (enc : bytes),
    keyFromPrivate (VStr sk) = Some k
    /\ encodePoint (getPublic k) compact = Some enc
    /\ pk = Hex.encode enc.

Class LibraryLaws (L : Library) : Prop := {
  (** SHA-256 digests are 256 bits long. *)
  sha256_length : forall b, length (sha256 b) = 32;
  (** A valid private key is accepted, and its public point has both
      encodings. *)
  keyFromPrivate_valid : forall sk,
    valid_secret_hex sk ->
    exists k, keyFromPrivate (VStr sk) = Some k
              /\ forall compact, is_Some (encodePoint (getPublic k) compact);
  (** A compressed encoding is 33 bytes, an uncompressed one 65. *)
  encodePoint_length : forall p compact enc,
    encodePoint p compact = Some enc ->
    length enc = if compact then 33 else 65;
  (** A point is read back from the hex text of either encoding. *)
  keyFromPublic_encode : forall p compact enc,
    encodePoint p compact = Some enc ->
    keyFromPublic (VStr (Hex.encode enc)) = Some p;
  (** A valid private key signs every hash. *)
  sign_valid : forall sk k hash,
    valid_secret_hex sk -> keyFromPrivate (VStr sk) = Some k ->
    is_Some (sign k hash);
  (** ECDSA is correct: a signature verifies under the signer's public key. *)
  verify_sign : forall k hash s,
    sign k hash = Some s -> verify (getPublic k) hash (toDER s) = Some true;
  (** ECIES is correct: what is encrypted to a public key is decrypted by
      its private key, whatever the entropy. *)
  ecies_decrypt_encrypt : forall sk pk entropy plain,
    valid_key_pair sk pk ->
    exists cipher used,
      ecies_encrypt entropy (VStr pk) plain = Some (cipher, used)
      /\ ecies_decrypt (VStr sk) cipher = Some plain;
}.

(** What tamper detection rests on, besides the laws above: a signature
    the library made is read by [verify] whatever the hash and the key, and
    under the signer's key it is accepted for the hash that was signed and for
    no other.  For ECDSA this is the idealised form of unforgeability: another
    hash that the same signature fits exists, and cannot be computed without
    the private key. *)
Class SignatureBinding (L : Library) : Prop := {
  verify_reads : forall k h s p h',
    sign k h = Some s -> is_Some (verify p h' (toDER s));
  verify_binds : forall k h s h',
    sign k h = Some s -> verify (getPublic k) h' (toDER s) = Some true -> h' = h;
}.

(** ** A small instance of the libraries

    An instance with the interface of the libraries and none of their
    security, used to run the module on concrete inputs: a key is 32 bytes,
    its public point the reversed bytes, a signature names the point and the
    hash it signs, and a ciphertext is 32 bytes of entropy, the recipient's
    point and the reversed plain text. *)
Module Toy.

Fixpoint bytes_eqb (a b : bytes) : bool :=
  match a, b with
  | [], [] => true
  | x :: a, y :: b => Byte.eqb x y && bytes_eqb a b
  | _, _ => false
  end.

Definition hash (b : bytes) : bytes := resize 32 x00 (rev b).

Definition key_of (v : value) : option bytes :=
  match v with
  | VStr s =>
      let b := Hex.decode s in
      if Nat.eqb (length b) 32 then Some b else None
  | _ => None
  end.

Definition public (k : bytes) : bytes := rev k.

Definition encode (p : bytes) (compact : bool) : option bytes :=
  if Nat.eqb (length p) 32
  then Some (if compact then x02 :: p else x04 :: (p ++ p)%list)
  else None.

Definition decode (v : value) : option bytes :=
  match v with
  | VStr s =>
      match Hex.decode s with
      | x02 :: p => if Nat.eqb (length p) 32 then Some p else None
      | x04 :: pp =>
          if Nat.eqb (length pp) 64 && bytes_eqb (take 32 pp) (drop 32 pp)
          then Some (take 32 pp) else None
      | _ => None
      end
  | _ => None
  end.

Definition mksig (k : bytes) (h : bytes) : option (bytes * bytes) :=
  Some (public k, h).

Definition der (s : bytes * bytes) : bytes := x30 :: (fst s ++ snd s)%list.

Definition check (p h sig : bytes) : option bool :=
  match sig with
  | x30 :: body => Some (bytes_eqb body (p ++ h)%list)
  | _ => None
  end.

Definition encrypt (entropy : nat -> byte) (pk : value) (m : bytes)
  : option (bytes * nat) :=
  match decode pk with
  | Some p => Some ((map entropy (seq 0 32) ++ p ++ rev m)%list, 32)
  | None => None
  end.

Definition decrypt (sk : value) (c : bytes) : option bytes :=
  match key_of sk with
  | Some k =>
      if Nat.leb 64 (length c) && bytes_eqb (take 32 (drop 32 c)) (public k)
      then Some (rev (drop 64 c)) else None
  | None => None
  end.

#[export] Instance library : Library := {|
  sha256 := hash;
  privkey := bytes;
  point := bytes;
  signature := (bytes * bytes)%type;
  keyFromPrivate := key_of;
  getPublic := public;
  encodePoint := encode;
  sign := mksig;
  toDER := der;
  keyFromPublic := decode;
  verify := check;
  ecies_encrypt := encrypt;
  ecies_decrypt := decrypt;
  Buffer_from_object := fun _ _ => None;
|}.

(** A world in which the module has just been loaded; every byte of its
    entropy is [01]. *)
Definition world0 : world :=
  World initial_heap (fun _ => x01) 0 [].

(** A world in which the module has just been loaded and the entropy is
    [00 01 02 ...]. *)
Definition world2 : world :=
  World initial_heap
        (fun i => default x00 (Byte.of_N (N.of_nat i mod 256))) 0 [].

(** Two private keys and the compressed public key of each. *)
Definition skA : string := Hex.encode (repeat x0a 32).
Definition skB : string := Hex.encode (repeat xb0 31 ++ [x0b])%list.
Definition pkA : string := Hex.encode (x02 :: repeat x0a 32).
Definition pkB : string := Hex.encode (x02 :: x0b :: repeat xb0 31).

(** A request, and a world that holds it at location 11. *)
Definition request : json :=
  JObj [("jsonrpc", JStr "2.0"); ("method", JStr "doSomething");
        ("params", JArr [JStr "x"; JNum 1]); ("id", JNum 5)].

Definition world1 : world :=
  World (initial_heap ++
         [CArr [VStr "x"; VNum 1] [];
          CObj [("jsonrpc", VStr "2.0"); ("method", VStr "doSomething");
                ("params", VRef 10); ("id", VNum 5)]])
        (fun _ => x01) 0 [].

Definition message : value := VRef 11.

(** The envelope that [skA] sends to [pkB] for the request, and the text
    of its fields. *)
Definition sent : (exn + value) * world :=
  redToBlack (VStr skA) (VStr pkB) message world1.

Definition field (name : string) : string :=
  match sent with
  | (inr b, w) =>
      match read_prop (heap w) b name with
      | VStr s => s
      | _ => EmptyString
      end
  | (inl _, _) => EmptyString
  end.

End Toy.

(** ** The documents of the protocol *)

(** [{jsonrpc:"2.0", method:"hello", params:[s], id:0}] *)
Definition hello_doc (s : string) : json :=
  JObj [("jsonrpc", JStr "2.0"); ("method", JStr "hello");
        ("params", JArr [JStr s]); ("id", JNum 0)].

(** [{jsonrpc:"2.0", error:{code:c, message:m}, id:i}] *)
Definition error_doc (c : Z) (m : string) (i : Z) : json :=
  JObj [("jsonrpc", JStr "2.0");
        ("error", JObj [("code", JNum c); ("message", JStr m)]);
        ("id", JNum i)].

(** The templates [BLACKMSG], [REDHELLO] and [ERRORRESPONSE] as documents. *)
Definition BLACKMSG_doc : json :=
  JObj [("msghex", JStr EmptyString); ("sighex", JStr EmptyString);
        ("spkhex", JStr EmptyString)].
Definition REDHELLO_doc : json :=
  JObj [("jsonrpc", JStr "2.0"); ("method", JStr "hello");
        ("params", JArr []); ("id", JNum 0)].
Definition ERRORRESPONSE_doc : json :=
  JObj [("jsonrpc", JStr "2.0");
        ("error", JObj [("code", JNum 0); ("message", JStr EmptyString)]);
        ("id", JNum 0)].

(** The wire envelope [{msghex, sighex, spkhex}] as a heap cell. *)
Definition envelope (msghex sighex spkhex : value) : cell :=
  CObj [("msghex", msghex); ("sighex", sighex); ("spkhex", spkhex)].

(** The decoder on the decoded bytes: [blackToRed] from the hash onwards. *)
Definition verified_decrypt {L : Library} (myprivkeyhex : value) (msg sig : bytes)
  (spkhex : value) : M value :=
  let* msghash := createHash_sha256_digest msg in
  let* pubkey := ec_keyFromPublic spkhex in
  let* ok := key_verify pubkey msghash sig in
  if negb ok then throw SenderVerificationFailure
  else
    let* red := ecies_decrypt_call myprivkeyhex msg in
    JSON_parse (Buffer_toString red).

(** A world after more library calls. *)
Definition after {L : Library} (w : world) (evs : list event) : world :=
  World (heap w) (tape w) (cursor w) (trace w ++ evs).

(** The object references held by a cell. *)
Definition value_refs (v : value) : list loc :=
  match v with
  | VRef l => [l]
  | _ => []
  end.

Definition cell_refs (c : cell) : list loc :=
  match c with
  | CObj ps => flat_map (fun kv => value_refs (snd kv)) ps
  | CArr es ps =>
      (flat_map value_refs es ++ flat_map (fun kv => value_refs (snd kv)) ps)%list
  end.

(** Cells that refer to nothing allocated before location [n]: an object
    made of them shares no part with what existed. *)
Definition independent (n : nat) (new : list cell) : Prop :=
  Forall (fun c => Forall (fun l => n <= l) (cell_refs c)) new.

(** What the calls made by the decoder look like: a decryption is called
    right after a verification that accepted, and after a verification that
    rejected nothing is decrypted. *)
Definition guarded {L : Library} (sk spk : value) (r : exn + value)
  (evs : list event) : Prop :=
  (forall (i : nat) (skv : value) (ct : bytes),
      evs !! i = Some (EvDecrypt skv ct) ->
      skv = sk
      /\ exists (pk : point) (sig : bytes) (n : nat),
          i = S n
          /\ evs !! n = Some (EvVerify pk (sha256 ct) sig)
          /\ keyFromPublic spk = Some pk
          /\ verify pk (sha256 ct) sig = Some true)
  /\ (forall (pk : point) (h sig : bytes),
        EvVerify pk h sig ∈ evs -> verify pk h sig = Some false ->
        r = inl SenderVerificationFailure
        /\ forall skv ct, EvDecrypt skv ct ∉ evs).

(** Tampering with a hex text: the character at position [n] in its other
    letter case, and the text followed by something else. *)
Fixpoint flip_case (n : nat) (s : string) : string :=
  match s, n with
  | EmptyString, _ => EmptyString
  | String c r, O => String (ascii_of_N (N.lxor (N_of_ascii c) 32)) r
  | String c r, S n => String c (flip_case n r)
  end.

(** The text with the character at position [n] replaced by [c]. *)
Fixpoint set_char (n : nat) (c : ascii) (s : string) : string :=
  match s, n with
  | EmptyString, _ => EmptyString
  | String _ r, O => String c r
  | String a r, S n => String a (set_char n c r)
  end.

(** An envelope at a new location of the world. *)
Definition receive {L : Library} (msghex sighex spkhex : value) (w : world) : world :=
  with_heap (heap w ++ [envelope msghex sighex spkhex]) w.

(** ** Values that are new to a heap *)

(** A value that refers to nothing allocated before location [n]. *)
Definition fresh_value (n : nat) (v : value) : Prop :=
  Forall (fun l => n <= l) (value_refs v).

(** What allocation does to the heap, for the document [j]: the existing
    cells stay, the new cells refer to new cells only, the value returned
    refers to nothing older, and a value that is not a reference comes with
    no new cell. *)
Definition alloc_fresh (j : json) : Prop :=
  forall (h : list cell) (v : value) (h' : list cell),
    alloc j h = (v, h') ->
    exists new,
      h' = (h ++ new)%list
      /\ independent (length h) new
      /\ fresh_value (length h) v
      /\ (match v with
          | VRef l => l < length h'
          | _ => new = []
          end).

(** A run from [w] that kept the existing cells and the entropy source:
    cells were added at the end, none when the run threw, and a value
    returned refers to nothing older. *)
Definition keeps {L : Library} (w : world) (run : (exn + value) * world) : Prop :=
  exists new,
    heap run.2 = (heap w ++ new)%list
    /\ tape run.2 = tape w
    /\ match run.1 with
       | inl _ => new = []
       | inr b => fresh_value (length (heap w)) b
       end.

(** The document of an envelope whose three fields are texts. *)
Definition envelope_doc (x y z : string) : json :=
  JObj [("msghex", JStr x); ("sighex", JStr y); ("spkhex", JStr z)].

(** The templates [REQUEST] and [RESPONSE] as documents, and the request
    and the response that [smokeTest] makes of them for the request id
    [pid]. *)
Definition REQUEST_doc : json :=
  JObj [("jsonrpc", JStr "2.0"); ("method", JStr EmptyString);
        ("params", JArr []); ("id", JNum 0)].
Definition RESPONSE_doc : json :=
  JObj [("jsonrpc", JStr "2.0"); ("result", JObj []); ("id", JNum 0)].
Definition request_doc (pid : Z) : json :=
  JObj [("jsonrpc", JStr "2.0"); ("method", JStr "doSomething");
        ("params", JArr [JStr "testing"; JNum 123]); ("id", JNum pid)].
Definition response_doc (pid : Z) : json :=
  JObj [("jsonrpc", JStr "2.0"); ("result", JObj [("answer", JNum 42)]);
        ("id", JNum pid)].

(** ** Documents as the validators see them *)

(** The member of an object document that a property read finds. *)
Fixpoint member (k : string) (js : list (string * json)) : option json :=
  match js with
  | [] => None
  | (k', j) :: r => if String.eqb k k' then Some j else member k r
  end.

Definition doc_field (j : json) (k : string) : option json :=
  match j with
  | JObj js => member k js
  | _ => None
  end.

(** [j != null] for a document, and [obj.k != null] for a member that may
    be absent. *)
Definition doc_non_null (j : json) : bool :=
  match j with
  | JNull => false
  | _ => true
  end.

Definition present (j : json) (k : string) : bool :=
  match doc_field j k with
  | Some x => doc_non_null x
  | None => false
  end.

(** ** Sample inputs *)

(** A world that holds, at location 11, a message with an [undefined]
    property and an [undefined] array element:
    [{a: undefined, b: [undefined, 1]}], and the document of its text. *)
Definition sparse_world : @world Toy.library :=
  World (initial_heap ++
         [CArr [VUndefined; VNum 1] [];
          CObj [("a", VUndefined); ("b", VRef 10)]])
        (fun _ => x01) 0 [].
Definition sparse_message : value := VRef 11.
Definition sparse_doc : json := JObj [("b", JArr [JNull; JNum 1])].

(** A third private key. *)
Definition skE : string := Hex.encode (repeat x0c 32).

(** An envelope that arrived without its [sighex]. *)
Definition unsigned_world : @world Toy.library :=
  receive (VStr "00") VUndefined (VStr Toy.pkA) Toy.world0.

(** The request of [Toy.world1] once more, in a heap of its own. *)
Definition request_copy : value * list cell := alloc Toy.request [].

(** The doubles 1.5 and 0.1, and a world that holds, at location 11, a
    request with the parameters [[0.1, -2]] and the [id] 1.5. *)
Definition one_and_a_half : spec_float := S754_finite false 6755399441055744 (-52).
Definition one_tenth : spec_float := S754_finite false 7205759403792794 (-56).

Definition fraction_world : @world Toy.library :=
  World (initial_heap ++
         [CArr [VDouble one_tenth; VNum (-2)] [];
          CObj [("jsonrpc", VStr "2.0"); ("method", VStr "scale");
                ("params", VRef 10); ("id", VDouble one_and_a_half)]])
        (fun _ => x01) 0 [].
Definition fraction_message : value := VRef 11.
Definition fraction_doc : json :=
  JObj [("jsonrpc", JStr "2.0"); ("method", JStr "scale");
        ("params", JArr [JDouble one_tenth; JNum (-2)]);
        ("id", JDouble one_and_a_half)].

(** A world that holds, at location 11, the request
    [{jsonrpc: "2.0", method: "scale", params: [undefined], id: NaN}], and
    the document of the text that [JSON.stringify] gives for it. *)
Definition lossy_world : @world Toy.library :=
  World (initial_heap ++
         [CArr [VUndefined] [];
          CObj [("jsonrpc", VStr "2.0"); ("method", VStr "scale");
                ("params", VRef 10); ("id", VDouble S754_nan)]])
        (fun _ => x01) 0 [].
Definition lossy_message : value := VRef 11.
Definition lossy_doc : json :=
  JObj [("jsonrpc", JStr "2.0"); ("method", JStr "scale");
        ("params", JArr [JNull]); ("id", JNull)].

(* ================================================================== *)
(** * Part II. Properties *)
(* ================================================================== *)

(** ** Hex text *)

Lemma hex_pair_roundtrip (x : byte) :
  Hex.value (Hex.digit (Byte.to_N x / 16)) = Some (Byte.to_N x / 16)%N /\
  Hex.value (Hex.digit (Byte.to_N x mod 16)) = Some (Byte.to_N x mod 16)%N.
Proof. destruct x; split; reflexivity. Qed.

Lemma hex_nibbles_byte (x : byte) :
  Hex.byte_of_nibbles (Byte.to_N x / 16) (Byte.to_N x mod 16) = x.
Proof. destruct x; reflexivity. Qed.

Lemma hex_decode_encode_app (b : bytes) (tail : string) :
  hex_stop tail -> Hex.decode (Hex.encode b ++ tail)%string = (b ++ Hex.decode tail)%list.
Proof.
  intros Hstop. induction b as [|x r IH]; simpl.
  - reflexivity.
  - destruct (hex_pair_roundtrip x) as [-> ->].
    rewrite hex_nibbles_byte. now rewrite IH.
Qed.

Lemma hex_decode_stop (tail : string) : hex_stop tail -> Hex.decode tail = [].
Proof.
  destruct tail as [|c1 [|c2 r]]; simpl; try reflexivity.
  intros [-> | ->]; [reflexivity|]. now destruct (Hex.value c1).
Qed.

Lemma string_app_empty_r (s : string) : (s ++ EmptyString)%string = s.
Proof. induction s; simpl; congruence. Qed.

Lemma hex_decode_encode (b : bytes) : Hex.decode (Hex.encode b) = b.
Proof.
  rewrite <- (string_app_empty_r (Hex.encode b)).
  rewrite hex_decode_encode_app by exact I. simpl. apply app_nil_r.
Qed.

Lemma hex_encode_valid (b : bytes) : Hex.valid (Hex.encode b) = true.
Proof.
  induction b as [|x r IH]; simpl; [reflexivity|].
  now destruct (hex_pair_roundtrip x) as [-> ->].
Qed.


(** ** JSON text: parsing inverts printing *)


Lemma string_app_assoc (a b c : string) : ((a ++ b) ++ c = a ++ (b ++ c))%string.
Proof. induction a; simpl; congruence. Qed.

Lemma string_cons_app (c : ascii) (x r : string) :
  (String c x ++ r)%string = String c (x ++ r).
Proof. reflexivity. Qed.

(** String literals. *)

Lemma parse_chars_escape_char (c : ascii) (tail : string) :
  JSON.parse_chars (JSON.escape_char c ++ tail)
  = JSON.prepend (String c EmptyString) (JSON.parse_chars tail).
Proof. destruct c as [[] [] [] [] [] [] [] []]; reflexivity. Qed.

Lemma parse_chars_escape (s rest : string) :
  JSON.parse_chars (JSON.escape s ++ String JSON.dquote rest) = Some (s, rest).
Proof.
  induction s as [|c s IH]; simpl.
  - reflexivity.
  - rewrite string_app_assoc, parse_chars_escape_char, IH. reflexivity.
Qed.

Lemma parse_chars_quote (s rest : string) :
  exists body, (JSON.quote s ++ rest)%string = String JSON.dquote body
               /\ JSON.parse_chars body = Some (s, rest).
Proof.
  unfold JSON.quote. simpl. eexists; split; [reflexivity|].
  rewrite string_app_assoc. simpl. apply parse_chars_escape.
Qed.

(** Numbers. *)

Lemma span_digits_uint (d : Decimal.uint) (rest : string) :
  value_stop rest ->
  JSON.span_digits (NilEmpty.string_of_uint d ++ rest) = (NilEmpty.string_of_uint d, rest).
Proof.
  intros Hstop. induction d; simpl; try (rewrite IHd; reflexivity).
  destruct rest as [|c r]; simpl; [reflexivity|].
  destruct Hstop as [-> _]. reflexivity.
Qed.

Lemma to_uint_normal (n : N) : Decimal.unorm (N.to_uint n) = N.to_uint n.
Proof.
  rewrite <- (DecimalN.Unsigned.to_of (N.to_uint n)).
  now rewrite DecimalN.Unsigned.of_to.
Qed.

Lemma to_uint_leading_zero (n : N) (u : Decimal.uint) :
  N.to_uint n = Decimal.D0 u -> u = Decimal.Nil.
Proof.
  intros E. pose proof (to_uint_normal n) as Hn. rewrite E in Hn.
  rewrite DecimalFacts.unorm_D0 in Hn. unfold Decimal.unorm in Hn.
  destruct (Decimal.nzhead u) eqn:Hz; try discriminate.
  - injection Hn as <-. reflexivity.
  - exfalso. apply (DecimalFacts.nzhead_nonzero u u). congruence.
Qed.

Lemma string_of_uint_nil (u : Decimal.uint) :
  NilEmpty.string_of_uint u = EmptyString -> u = Decimal.Nil.
Proof. destruct u; simpl; congruence. Qed.

Lemma lex_int_print (n : N) (rest : string) :
  value_stop rest ->
  JSON.lex_int (JSON.print_N n ++ rest) = Some (JSON.print_N n, rest).
Proof.
  intros Hstop. unfold JSON.lex_int, JSON.print_N.
  rewrite span_digits_uint by assumption.
  destruct (N.to_uint n) as [|u|u|u|u|u|u|u|u|u|u] eqn:E;
    try (simpl NilEmpty.string_of_uint in *; cbv iota beta;
         change (N_of_ascii _ =? 48)%N with false; reflexivity).
  - exfalso. destruct n; [discriminate E|].
    revert E; apply DecimalPos.Unsigned.to_uint_nonnil.
  - apply to_uint_leading_zero in E as Hu. subst u. reflexivity.
Qed.

Lemma digits_value_print (n : N) : JSON.digits_value (JSON.print_N n) = n.
Proof.
  unfold JSON.digits_value, JSON.print_N.
  now rewrite NilEmpty.usu, DecimalN.Unsigned.of_to.
Qed.

Lemma lex_frac_stop (rest : string) :
  value_stop rest -> JSON.lex_frac rest = Some (EmptyString, rest).
Proof.
  destruct rest as [|c r]; [reflexivity|]. intros [_ Hf].
  unfold JSON.lex_frac. unfold JSON.starts_fraction in Hf.
  apply orb_false_elim in Hf as [Hf _]. apply orb_false_elim in Hf as [Hf _].
  now rewrite Hf.
Qed.

Lemma lex_exp_stop (rest : string) :
  value_stop rest -> JSON.lex_exp rest = Some (None, rest).
Proof.
  destruct rest as [|c r]; [reflexivity|]. intros [_ Hf].
  unfold JSON.lex_exp. unfold JSON.starts_fraction in Hf.
  apply orb_false_elim in Hf as [Hf H69]. apply orb_false_elim in Hf as [_ H101].
  now rewrite H101, H69.
Qed.

Lemma print_N_head (n : N) :
  exists c s, JSON.print_N n = String c s /\ JSON.is_digit c = true.
Proof.
  unfold JSON.print_N. destruct (N.to_uint n) eqn:E; simpl; eauto.
  exfalso. destruct n; [discriminate|].
  revert E; apply DecimalPos.Unsigned.to_uint_nonnil.
Qed.

Lemma parse_number_print (z : Z) (rest : string) :
  value_stop rest -> JSON.parse_number (JSON.print_Z z ++ rest) = Some (JNum z, rest).
Proof.
  intros Hstop. unfold JSON.print_Z. destruct (Z.ltb_spec z 0%Z).
  - unfold JSON.parse_number. cbn [append]. change (N_of_ascii "-" =? 45)%N with true.
    cbv iota. rewrite lex_int_print, lex_frac_stop, lex_exp_stop by assumption.
    unfold JSON.number_value. rewrite digits_value_print.
    destruct z as [|p|p]; try lia. reflexivity.
  - destruct (print_N_head (Z.to_N z)) as (c & s & E & Hd).
    unfold JSON.parse_number.
    assert (Hc : (N_of_ascii c =? 45)%N = false).
    { unfold JSON.is_digit in Hd. apply andb_prop in Hd as [H1 _].
      apply N.leb_le in H1. apply N.eqb_neq. lia. }
    pose proof (lex_int_print (Z.to_N z) rest Hstop) as HN.
    pose proof (digits_value_print (Z.to_N z)) as HV.
    rewrite E in *. cbn [append] in *. rewrite Hc, HN.
    rewrite lex_frac_stop, lex_exp_stop by assumption.
    unfold JSON.number_value. rewrite HV.
    destruct z as [|p|p]; try lia; reflexivity.
Qed.

(** A number literal is read the same whatever follows it, as long as what
    follows cannot continue it. *)
Lemma span_digits_app (s rest : string) :
  value_stop rest ->
  JSON.span_digits (s ++ rest)
  = (fst (JSON.span_digits s), (snd (JSON.span_digits s) ++ rest)%string).
Proof.
  intros Hstop. induction s as [|c s IH]; cbn [append JSON.span_digits].
  - destruct rest as [|c r]; [reflexivity|]. cbn [JSON.span_digits].
    destruct Hstop as [-> _]. reflexivity.
  - destruct (JSON.is_digit c); [|reflexivity].
    rewrite IH. now destruct (JSON.span_digits s).
Qed.

Lemma lex_int_app (s rest d r : string) :
  value_stop rest -> JSON.lex_int s = Some (d, r) ->
  JSON.lex_int (s ++ rest) = Some (d, (r ++ rest)%string).
Proof.
  intros Hstop. unfold JSON.lex_int. rewrite span_digits_app by assumption.
  destruct (JSON.span_digits s) as [d0 r0]. cbn [fst snd].
  destruct d0 as [|c d']; [discriminate|].
  destruct ((N_of_ascii c =? 48)%N && negb (String.eqb d' EmptyString)); [discriminate|].
  now intros [= <- <-].
Qed.

Lemma lex_frac_app (s rest d r : string) :
  value_stop rest -> JSON.lex_frac s = Some (d, r) ->
  JSON.lex_frac (s ++ rest) = Some (d, (r ++ rest)%string).
Proof.
  intros Hstop. destruct s as [|c s].
  - intros [= <- <-]. now apply lex_frac_stop.
  - unfold JSON.lex_frac. cbn [append]. destruct (N_of_ascii c =? 46)%N.
    + rewrite span_digits_app by assumption.
      destruct (JSON.span_digits s) as [d0 r0]. cbn [fst snd].
      destruct d0; [discriminate|]. now intros [= <- <-].
    + now intros [= <- <-].
Qed.

Lemma lex_exp_app (s rest : string) (x : option (bool * string)) (r : string) :
  value_stop rest -> JSON.lex_exp s = Some (x, r) ->
  JSON.lex_exp (s ++ rest) = Some (x, (r ++ rest)%string).
Proof.
  intros Hstop. destruct s as [|c s].
  - intros [= <- <-]. now apply lex_exp_stop.
  - unfold JSON.lex_exp. cbn [append].
    destruct ((N_of_ascii c =? 101) || (N_of_ascii c =? 69))%N;
      [|now intros [= <- <-]].
    destruct s as [|y s'].
    + discriminate.
    + cbn [append].
      destruct (N_of_ascii y =? 45)%N; [|destruct (N_of_ascii y =? 43)%N].
      * rewrite span_digits_app by assumption.
        destruct (JSON.span_digits s') as [d0 r0]. cbn [fst snd].
        destruct d0; [discriminate|]. now intros [= <- <-].
      * rewrite span_digits_app by assumption.
        destruct (JSON.span_digits s') as [d0 r0]. cbn [fst snd].
        destruct d0; [discriminate|]. now intros [= <- <-].
      * change (String y (s' ++ rest)) with (String y s' ++ rest)%string.
        rewrite span_digits_app by assumption.
        destruct (JSON.span_digits (String y s')) as [d0 r0]. cbn [fst snd].
        destruct d0; [discriminate|]. now intros [= <- <-].
Qed.

Lemma parse_number_app (s rest : string) (v : json) (r : string) :
  value_stop rest -> JSON.parse_number s = Some (v, r) ->
  JSON.parse_number (s ++ rest) = Some (v, (r ++ rest)%string).
Proof.
  intros Hstop. unfold JSON.parse_number.
  assert (Hgo : forall neg s1,
             match JSON.lex_int s1 with
             | Some (int, r1) =>
                 match JSON.lex_frac r1 with
                 | Some (frac, r2) =>
                     match JSON.lex_exp r2 with
                     | Some (exp, r3) => Some (JSON.number_value neg int frac exp, r3)
                     | None => None
                     end
                 | None => None
                 end
             | None => None
             end = Some (v, r) ->
             match JSON.lex_int (s1 ++ rest) with
             | Some (int, r1) =>
                 match JSON.lex_frac r1 with
                 | Some (frac, r2) =>
                     match JSON.lex_exp r2 with
                     | Some (exp, r3) => Some (JSON.number_value neg int frac exp, r3)
                     | None => None
                     end
                 | None => None
                 end
             | None => None
             end = Some (v, (r ++ rest)%string)).
  { intros neg s1.
    destruct (JSON.lex_int s1) as [[int r1]|] eqn:E1; [|discriminate].
    rewrite (lex_int_app _ _ _ _ Hstop E1).
    destruct (JSON.lex_frac r1) as [[frac r2]|] eqn:E2; [|discriminate].
    rewrite (lex_frac_app _ _ _ _ Hstop E2).
    destruct (JSON.lex_exp r2) as [[exp r3]|] eqn:E3; [|discriminate].
    rewrite (lex_exp_app _ _ _ _ Hstop E3). now intros [= <- <-]. }
  destruct s as [|c s0].
  - discriminate.
  - cbn [append]. destruct (N_of_ascii c =? 45)%N.
    + apply Hgo.
    + apply (Hgo false (String c s0)).
Qed.

(** A text that is read as a number starts with a digit or the minus
    sign. *)
Lemma parse_number_head (s : string) (v : json) (r : string) :
  JSON.parse_number s = Some (v, r) ->
  exists c s', s = String c s' /\ (JSON.is_digit c = true \/ N_of_ascii c = 45%N).
Proof.
  unfold JSON.parse_number. destruct s as [|c s0]; [discriminate|].
  intros H. exists c, s0. split; [reflexivity|].
  destruct (N.eqb_spec (N_of_ascii c) 45) as [E|_]; [now right|left].
  unfold JSON.lex_int in H. cbn [JSON.span_digits] in H.
  destruct (JSON.is_digit c); [reflexivity|discriminate].
Qed.

Lemma number_eqb_eq (a b : spec_float) : Number.eqb a b = true -> a = b.
Proof.
  destruct a as [s|s| |s m e], b as [t|t| |t n f]; cbn [Number.eqb]; try discriminate.
  - intros H. now apply Bool.eqb_prop in H as ->.
  - intros H. now apply Bool.eqb_prop in H as ->.
  - reflexivity.
  - intros H. apply andb_prop in H as [H He]. apply andb_prop in H as [Hs Hm].
    apply Bool.eqb_prop in Hs as ->. apply Pos.eqb_eq in Hm as ->.
    now apply Z.eqb_eq in He as ->.
Qed.

Lemma string_length_app (a b : string) :
  String.length (a ++ b) = (String.length a + String.length b)%nat.
Proof. induction a; simpl; congruence. Qed.

(** ** Doubles that read back from their text *)

Section Doubles.
Local Open Scope Z_scope.

Lemma digits2_bounds (p : positive) :
  (2 ^ (Z.pos (digits2_pos p) - 1) <= Z.pos p < 2 ^ Z.pos (digits2_pos p)).
Proof.
  induction p as [p IH|p IH|]; cbn [digits2_pos]; rewrite ?Pos2Z.inj_succ.
  - replace (Z.succ (Z.pos (digits2_pos p)) - 1) with (Z.succ (Z.pos (digits2_pos p) - 1))
      by lia.
    rewrite !Z.pow_succ_r by lia. lia.
  - replace (Z.succ (Z.pos (digits2_pos p)) - 1) with (Z.succ (Z.pos (digits2_pos p) - 1))
      by lia.
    rewrite !Z.pow_succ_r by lia. lia.
  - cbn. lia.
Qed.

Lemma digits2_unique (p : positive) (n : Z) :
  (2 ^ (n - 1) <= Z.pos p < 2 ^ n) -> Z.pos (digits2_pos p) = n.
Proof.
  intros [Hl Hu]. pose proof (digits2_bounds p) as [Bl Bu].
  assert (0 < n).
  { destruct (Z.ltb_spec 0 n) as [|Hn]; [assumption|].
    destruct (Z.eq_dec n 0) as [->|]; [cbn in Hu; lia|].
    rewrite Z.pow_neg_r in Hu by lia. lia. }
  destruct (Z.lt_trichotomy (Z.pos (digits2_pos p)) n) as [Hlt|[Heq|Hgt]]; [|exact Heq|].
  - assert (2 ^ Z.pos (digits2_pos p) <= 2 ^ (n - 1)) by (apply Z.pow_le_mono_r; lia).
    lia.
  - assert (2 ^ n <= 2 ^ (Z.pos (digits2_pos p) - 1)) by (apply Z.pow_le_mono_r; lia).
    lia.
Qed.

Lemma digits2_shift (m : positive) (d : Z) (q : positive) :
  (0 <= d) -> Z.pos q = (Z.pos m * 2 ^ d) ->
  Z.pos (digits2_pos q) = (Z.pos (digits2_pos m) + d).
Proof.
  intros Hd Hq. apply digits2_unique. rewrite Hq.
  pose proof (digits2_bounds m) as [Bl Bu].
  replace (Z.pos (digits2_pos m) + d - 1) with ((Z.pos (digits2_pos m) - 1) + d) by lia.
  rewrite !Z.pow_add_r by lia.
  assert (0 < 2 ^ d) by (apply Z.pow_pos_nonneg; lia).
  split; nia.
Qed.

Lemma shr_1_even (K : Z) :
  shr_1 {| shr_m := 2 * K; shr_r := false; shr_s := false |}
  = {| shr_m := K; shr_r := false; shr_s := false |}.
Proof. now destruct K. Qed.

Lemma pow2_xO (n : positive) : 2 ^ Z.pos n~0 = 2 ^ Z.pos n * 2 ^ Z.pos n.
Proof. rewrite <- Z.pow_add_r by lia. f_equal. lia. Qed.

Lemma pow2_xI (n : positive) : 2 ^ Z.pos n~1 = 2 * (2 ^ Z.pos n * 2 ^ Z.pos n).
Proof.
  rewrite <- Z.pow_add_r by lia.
  replace (Z.pos n~1) with (Z.succ (Z.pos n + Z.pos n)) by lia.
  now rewrite Z.pow_succ_r by lia.
Qed.

Lemma iter_shr_exact (n : positive) : forall M : Z,
  SpecFloat.iter_pos shr_1 n {| shr_m := M * 2 ^ Z.pos n; shr_r := false; shr_s := false |}
  = {| shr_m := M; shr_r := false; shr_s := false |}.
Proof.
  induction n as [n IH|n IH|]; intros M; cbn [SpecFloat.iter_pos].
  - replace (M * 2 ^ Z.pos n~1) with (2 * ((M * 2 ^ Z.pos n) * 2 ^ Z.pos n))
      by (rewrite pow2_xI; ring).
    now rewrite shr_1_even, !IH.
  - replace (M * 2 ^ Z.pos n~0) with ((M * 2 ^ Z.pos n) * 2 ^ Z.pos n)
      by (rewrite pow2_xO; ring).
    now rewrite !IH.
  - replace (M * 2 ^ 1) with (2 * M) by (rewrite Z.pow_1_r; ring).
    apply shr_1_even.
Qed.

Lemma bounded_inv (m : positive) (e : Z) :
  bounded 53 1024 m e = true ->
  Z.pos (digits2_pos m) <= 53 /\ -1074 <= e <= 971
  /\ (Z.pos (digits2_pos m) = 53 \/ e = -1074)
  /\ fexp 53 1024 (Z.pos (digits2_pos m) + e) = e.
Proof.
  unfold bounded, canonical_mantissa, fexp, emin. intros H.
  apply andb_true_iff in H as [H1 H2].
  apply Z.eqb_eq in H1. apply Z.leb_le in H2. lia.
Qed.

Lemma pow2_pos (d : Z) : 0 <= d -> 0 < 2 ^ d.
Proof. intros. apply Z.pow_pos_nonneg; lia. Qed.

(** Rounding a number that is a double gives that double. *)
Lemma binary_round_aux_exact (neg : bool) (m : positive) (e d : Z) :
  bounded 53 1024 m e = true -> 0 <= d ->
  binary_round_aux 53 1024 neg (Z.pos m * 2 ^ d) (e - d) loc_Exact = S754_finite neg m e.
Proof.
  intros Hb Hd. destruct (bounded_inv m e Hb) as (Hm & He & _ & Hf).
  pose proof (pow2_pos d Hd) as Hp.
  destruct (Z.pos m * 2 ^ d) as [|q|q] eqn:Eq; [lia| |lia].
  pose proof (digits2_shift m d q Hd (eq_sym Eq)) as Hq.
  unfold binary_round_aux, shr_fexp. cbn [Zdigits2 shr_record_of_loc].
  rewrite Hq. replace (Z.pos (digits2_pos m) + d + (e - d)) with (Z.pos (digits2_pos m) + e)
    by lia.
  rewrite Hf. replace (e - (e - d)) with d by lia.
  assert (E1 : shr {| shr_m := Z.pos q; shr_r := false; shr_s := false |} (e - d) d
               = ({| shr_m := Z.pos m; shr_r := false; shr_s := false |}, e)).
  { unfold shr. destruct d as [|p|p]; [| |lia].
    - f_equal; [|lia]. f_equal. lia.
    - rewrite <- Eq, iter_shr_exact. f_equal. lia. }
  rewrite E1. cbn [shr_m loc_of_shr_record round_nearest_even Zdigits2 shr_record_of_loc].
  rewrite Hf, Z.sub_diag. cbn [shr shr_m].
  destruct (Z.leb_spec e (1024 - 53)); [reflexivity|lia].
Qed.

Lemma div_eucl_exact (a b : Z) : 0 < b -> Z.div_eucl (a * b) b = (a, 0).
Proof.
  intros Hb. pose proof (Z.div_mul a b ltac:(lia)) as Hq.
  pose proof (Z.mod_mul a b ltac:(lia)) as Hr.
  unfold Z.div, Z.modulo in Hq, Hr.
  destruct (Z.div_eucl (a * b) b) as [q r]. now subst.
Qed.

Lemma new_location_exact (n : Z) : new_location n 0 = loc_Exact.
Proof. unfold new_location. now destruct (Z.even n). Qed.

(** A decimal with a fraction whose value is a double is read as that
    double. *)
Lemma of_decimal_exact (neg : bool) (m : positive) (e : Z) (c q : positive) :
  bounded 53 1024 m e = true -> e < 0 ->
  Z.pos c * 2 ^ (- e) = Z.pos m * 10 ^ Z.pos q ->
  Number.of_decimal neg c (Z.neg q) = S754_finite neg m e.
Proof.
  intros Hb He Hv. destruct (bounded_inv m e Hb) as (Hm & Hr & _ & Hf).
  unfold Number.of_decimal, Number.prec, Number.emax, SFdiv_core_binary.
  change (Z.pow_pos 10 q) with (10 ^ Z.pos q).
  assert (Ht : 0 < 10 ^ Z.pos q) by (apply Z.pow_pos_nonneg; lia).
  destruct (10 ^ Z.pos q) as [|t|t] eqn:Et; [lia| |lia].
  cbn [Zdigits2].
  set (e' := Z.min (fexp 53 1024 (Z.pos (digits2_pos c) + 0 - (Z.pos (digits2_pos t) + 0)))
                   (0 - 0)).
  assert (He' : e' <= e /\ e' <= 0).
  { pose proof (digits2_bounds c) as [Bc _].
    pose proof (digits2_bounds t) as [_ Bt].
    pose proof (digits2_bounds m) as [_ Bm].
    assert (Bm' : Z.pos m < 2 ^ 53).
    { eapply Z.lt_le_trans; [exact Bm|]. apply Z.pow_le_mono_r; lia. }
    assert (H1 : 2 ^ (Z.pos (digits2_pos c) - 1 - e) < 2 ^ (53 + Z.pos (digits2_pos t))).
    { replace (Z.pos (digits2_pos c) - 1 - e) with ((Z.pos (digits2_pos c) - 1) + (- e))
        by lia.
      rewrite !Z.pow_add_r by lia.
      pose proof (pow2_pos (- e) ltac:(lia)).
      assert (0 < 2 ^ 53) by reflexivity.
      nia. }
    apply Z.pow_lt_mono_r_iff in H1; [|lia|lia].
    subst e'. unfold fexp, emin. lia. }
  destruct He' as [He1 He2].
  replace (0 - 0 - e') with (- e') by lia.
  assert (Em : match - e' with
               | 0 => Z.pos c
               | Z.pos _ => Z.shiftl (Z.pos c) (- e')
               | Z.neg _ => 0
               end = (Z.pos m * 2 ^ (e - e')) * Z.pos t).
  { assert (E2 : Z.pos c * 2 ^ (- e') = (Z.pos m * 2 ^ (e - e')) * Z.pos t).
    { replace (- e') with ((- e) + (e - e')) by lia.
      rewrite Z.pow_add_r by lia. rewrite Z.mul_assoc, Hv. ring. }
    destruct (- e') as [|p|p] eqn:Ep; [|rewrite Z.shiftl_mul_pow2 by lia; exact E2|lia].
    rewrite <- E2. cbn. lia. }
  rewrite Em, div_eucl_exact by lia.
  rewrite new_location_exact.
  replace e' with (e - (e - e')) at 2 by lia.
  apply binary_round_aux_exact; [assumption|lia].
Qed.

Lemma pos_iter_xO (M d : positive) : Z.pos (Pos.iter xO M d) = Z.pos M * 2 ^ Z.pos d.
Proof.
  induction d as [|d IH] using Pos.peano_ind.
  - cbn. lia.
  - rewrite Pos.iter_succ, Pos2Z.inj_xO, IH, Pos2Z.inj_succ, Z.pow_succ_r by lia. ring.
Qed.

Lemma shr_exponent (r : shr_record) (e n : Z) : e <= snd (shr r e n).
Proof. unfold shr. destruct n; cbn [snd]; lia. Qed.

(** An integer is not read as a double with a fractional part. *)
Lemma binary_round_integer (neg : bool) (M : positive) :
  Number.fractional (binary_round 53 1024 neg M 0) = false.
Proof.
  unfold binary_round, shl_align.
  assert (Hf : fexp 53 1024 (Z.pos (digits2_pos M) + 0) = Z.pos (digits2_pos M) - 53)
    by (unfold fexp, emin; lia).
  rewrite Hf.
  destruct (Z.pos (digits2_pos M) - 53 - 0) as [|d|d] eqn:Ed.
  - replace (Z.pos M) with (Z.pos M * 2 ^ 0) by (cbn; lia).
    replace 0 with (0 - 0) at 2 by reflexivity.
    rewrite binary_round_aux_exact;
      [cbn [Number.fractional]; change (0 <? 0) with false; now rewrite andb_false_r| |lia].
    unfold bounded, canonical_mantissa, fexp, emin.
    apply andb_true_iff. split; [apply Z.eqb_eq|apply Z.leb_le]; lia.
  - unfold binary_round_aux.
    destruct (shr_fexp 53 1024 (Z.pos M) 0 loc_Exact) as [mrs' e'] eqn:E1.
    assert (H1 : 1 <= e').
    { unfold shr_fexp in E1. cbn [Zdigits2] in E1. rewrite Hf in E1.
      unfold shr in E1. rewrite Ed in E1. injection E1 as _ <-. lia. }
    match goal with |- context [shr_fexp 53 1024 ?x e' loc_Exact] =>
      pose proof (shr_exponent (shr_record_of_loc x loc_Exact) e'
                    (fexp 53 1024 (Zdigits2 x + e') - e')) as H2;
      fold (shr_fexp 53 1024 x e' loc_Exact) in H2;
      destruct (shr_fexp 53 1024 x e' loc_Exact) as [mrs'' e'']
    end.
    cbn [snd] in H2.
    destruct (shr_m mrs'') as [|m|m]; try reflexivity.
    destruct (e'' <=? 1024 - 53); [|reflexivity].
    cbn [Number.fractional]. destruct (Z.ltb_spec e'' 0); [lia|].
    now rewrite andb_false_r.
  - assert (Em : Z.pos (Pos.iter xO M d) = Z.pos M * 2 ^ Z.pos d) by apply pos_iter_xO.
    replace (Z.pos (Pos.iter xO M d)) with (Z.pos (Pos.iter xO M d) * 2 ^ 0) by (cbn; lia).
    replace (Z.pos (digits2_pos M) - 53)
      with (Z.pos (digits2_pos M) - 53 - 0) at 1 by lia.
    rewrite binary_round_aux_exact; [| |lia].
    + cbn [Number.fractional].
      replace (- (Z.pos (digits2_pos M) - 53)) with (Z.pos d) by lia.
      rewrite Em, Z.mod_mul by lia. cbn [Z.eqb negb]. now rewrite andb_false_r.
    + pose proof (digits2_shift M (Z.pos d) (Pos.iter xO M d) ltac:(lia) Em) as Hq.
      unfold bounded, canonical_mantissa, fexp, emin.
      apply andb_true_iff. split; [apply Z.eqb_eq|apply Z.leb_le]; lia.
Qed.

Lemma of_decimal_integer (neg : bool) (c : positive) (p : Z) :
  0 <= p -> Number.fractional (Number.of_decimal neg c p) = false.
Proof.
  intros Hp. unfold Number.of_decimal, Number.prec, Number.emax.
  destruct p as [|p|p]; [| |lia]; apply binary_round_integer.
Qed.

Lemma number_eqb_refl (d : spec_float) : Number.eqb d d = true.
Proof.
  destruct d as [s|s| |s m e]; cbn; rewrite ?eqb_reflx, ?Pos.eqb_refl, ?Z.eqb_refl;
    reflexivity.
Qed.

Lemma strip_zeros_spec (fuel : nat) : forall c p c' p' : Z,
  0 < c -> Number.strip_zeros fuel c p = (c', p') ->
  0 < c' /\ p <= p' /\ c = c' * 10 ^ (p' - p).
Proof.
  induction fuel as [|fuel IH]; intros c p c' p' Hc; cbn [Number.strip_zeros].
  - intros [= <- <-]. rewrite Z.sub_diag. cbn. lia.
  - destruct ((0 <? c) && (c mod 10 =? 0)) eqn:Ez.
    + apply andb_true_iff in Ez as [_ Ez]. apply Z.eqb_eq in Ez.
      pose proof (Z.div_mod c 10 ltac:(lia)) as Hd. rewrite Ez in Hd.
      intros Hs. apply IH in Hs as (H1 & H2 & H3); [|lia].
      split; [assumption|]. split; [lia|].
      replace (p' - p) with (Z.succ (p' - (p + 1))) by lia.
      rewrite Z.pow_succ_r by lia. lia.
    + intros [= <- <-]. rewrite Z.sub_diag. cbn. lia.
Qed.

Lemma pow10_split (n : Z) : 0 <= n -> 10 ^ n = 5 ^ n * 2 ^ n.
Proof. intros. now rewrite <- Z.pow_mul_l. Qed.

Lemma scaled_exact (m : positive) (e : Z) :
  e < 0 -> Number.scaled (Z.pos m) e e = Z.pos m * 5 ^ (- e).
Proof.
  intros He. unfold Number.scaled.
  rewrite !Z.max_r, !Z.max_l by lia. rewrite Z.pow_0_r, !Z.mul_1_r.
  rewrite pow10_split, Z.mul_assoc by lia.
  apply Z.div_mul. pose proof (pow2_pos (- e) ltac:(lia)). lia.
Qed.

(** The decimal expansion of a double with a fractional part, which is
    finite, reads back. *)
Lemma expansion_reads_back (neg : bool) (m : positive) (e : Z) :
  Number.fractional (S754_finite neg m e) = true ->
  Number.accepted neg m e (Number.scaled (Z.pos m) e e) e = true.
Proof.
  cbn [Number.fractional]. unfold Number.prec, Number.emax, Number.accepted. intros H.
  apply andb_true_iff in H as [H Hm]. apply andb_true_iff in H as [Hb He].
  apply Z.ltb_lt in He. apply negb_true_iff, Z.eqb_neq in Hm.
  rewrite scaled_exact by assumption.
  pose proof (pow2_pos (- e) ltac:(lia)) as P2.
  assert (P5 : 0 < 5 ^ (- e)) by (apply Z.pow_pos_nonneg; lia).
  destruct (Number.strip_zeros 20 (Z.pos m * 5 ^ (- e)) e) as [c' p'] eqn:Es.
  apply strip_zeros_spec in Es as (Hc & Hp & Hv); [|nia].
  assert (P10 : 0 < 10 ^ (p' - e)) by (apply Z.pow_pos_nonneg; lia).
  destruct (Z.ltb_spec p' 0) as [Hn|Hn].
  - destruct c' as [|cp|cp]; [lia| |lia]. destruct p' as [|q|q]; [lia|lia|].
    cbn [Number.reads_back]. rewrite (of_decimal_exact neg m e cp q Hb He).
    + apply number_eqb_refl.
    + assert (E : (Z.pos cp * 2 ^ (- e)) * 10 ^ (Z.neg q - e)
                  = (Z.pos m * 10 ^ Z.pos q) * 10 ^ (Z.neg q - e)).
      { rewrite <- (Z.mul_assoc (Z.pos m)), <- Z.pow_add_r by lia.
        replace (Z.pos q + (Z.neg q - e)) with (- e) by lia.
        rewrite (pow10_split (- e)) by lia. rewrite Z.mul_assoc, Hv. ring. }
      apply Z.mul_cancel_r in E; [exact E|lia].
  - exfalso. apply Hm.
    assert (E : Z.pos m * 5 ^ (- e) = (c' * 10 ^ p' * 2 ^ (- e)) * 5 ^ (- e)).
    { rewrite Hv. replace (p' - e) with (p' + (- e)) by lia.
      rewrite Z.pow_add_r, (pow10_split (- e)) by lia. ring. }
    apply Z.mul_cancel_r in E; [|lia]. rewrite E. apply Z.mod_mul. lia.
Qed.

Lemma candidate_ok (neg : bool) (m : positive) (e n k : Z) (r : Z * Z) :
  Number.candidate neg m e n k = Some r -> Number.accepted neg m e (fst r) (snd r) = true.
Proof.
  unfold Number.candidate.
  destruct (Number.accepted neg m e (Number.scaled (Z.pos m) e (n - k)) (n - k)) eqn:E1;
    destruct (Number.accepted neg m e (Number.scaled (Z.pos m) e (n - k) + 1) (n - k)) eqn:E2;
    try discriminate.
  - destruct (Number.compare_decimal _ _ _ _); [destruct (Z.even _)| |];
      intros [= <-]; cbn [fst snd]; assumption.
  - intros [= <-]. exact E1.
  - intros [= <-]. exact E2.
Qed.

Lemma candidate_found (neg : bool) (m : positive) (e n k : Z) :
  Number.accepted neg m e (Number.scaled (Z.pos m) e (n - k)) (n - k) = true ->
  is_Some (Number.candidate neg m e n k).
Proof.
  unfold Number.candidate. intros ->.
  destruct (Number.accepted neg m e (Number.scaled (Z.pos m) e (n - k) + 1) (n - k));
    [|eauto].
  destruct (Number.compare_decimal _ _ _ _); eauto.
Qed.

Lemma shortest_ok (neg : bool) (m : positive) (e n : Z) (fuel : nat) : forall k : Z,
  (exists j : nat, (j < fuel)%nat /\ is_Some (Number.candidate neg m e n (k + Z.of_nat j))) ->
  Number.accepted neg m e (fst (Number.shortest_from fuel neg m e n k))
    (snd (Number.shortest_from fuel neg m e n k)) = true.
Proof.
  induction fuel as [|fuel IH]; intros k (j & Hj & Hs); [lia|].
  cbn [Number.shortest_from].
  destruct (Number.candidate neg m e n k) as [r|] eqn:Ec; [eapply candidate_ok; exact Ec|].
  apply IH. destruct j as [|j].
  - rewrite Z.add_0_r, Ec in Hs. now destruct Hs.
  - exists j. split; [lia|]. now replace (k + 1 + Z.of_nat j) with (k + Z.of_nat (S j)) by lia.
Qed.

Lemma magnitude_from_range (fuel : nat) : forall m e n : Z,
  n <= Number.magnitude_from fuel m e n <= n + Z.of_nat fuel.
Proof.
  induction fuel as [|fuel IH]; intros m e n; cbn [Number.magnitude_from]; [lia|].
  destruct (Number.scaled m e n =? 0); [lia|]. specialize (IH m e (n + 1)). lia.
Qed.

Lemma log2_digits (m : positive) : Z.log2 (Z.pos m) = Z.pos (digits2_pos m) - 1.
Proof.
  pose proof (digits2_bounds m) as [Bl Bu].
  apply Z.log2_unique; [lia|]. now replace (Z.succ (Z.pos (digits2_pos m) - 1))
    with (Z.pos (digits2_pos m)) by lia.
Qed.

(** The digit search ends on a decimal that reads back. *)
Lemma shortest_reads_back (neg : bool) (m : positive) (e : Z) :
  Number.fractional (S754_finite neg m e) = true ->
  Number.accepted neg m e
    (fst (Number.shortest_from 1100 neg m e (Number.magnitude (Z.pos m) e) 1))
    (snd (Number.shortest_from 1100 neg m e (Number.magnitude (Z.pos m) e) 1)) = true.
Proof.
  intros Hfr. pose proof (expansion_reads_back neg m e Hfr) as Hx.
  cbn [Number.fractional] in Hfr. unfold Number.prec, Number.emax in Hfr.
  apply andb_true_iff in Hfr as [H _]. apply andb_true_iff in H as [Hb He].
  apply Z.ltb_lt in He. destruct (bounded_inv m e Hb) as (Hm & Hr & Hn & _).
  set (n := Number.magnitude (Z.pos m) e).
  assert (Hrange : 1 <= n - e <= 1100).
  { subst n. unfold Number.magnitude.
    pose proof (magnitude_from_range 8 (Z.pos m) e
                  ((Z.log2 (Z.pos m) + e) * 30103 / 100000 - 2)) as Hmr.
    rewrite log2_digits in *.
    pose proof (digits2_bounds m) as _.
    assert (1 <= Z.pos (digits2_pos m)) by lia.
    cbn [Z.of_nat Pos.of_succ_nat Pos.succ] in Hmr.
    Z.div_mod_to_equations. lia. }
  apply shortest_ok. exists (Z.to_nat (n - e - 1)). split; [lia|].
  apply candidate_found.
  replace (n - (1 + Z.of_nat (Z.to_nat (n - e - 1)))) with e by lia.
  exact Hx.
Qed.
End Doubles.

(** The text of a decimal is read as that decimal. *)

Lemma string_app_nil_r (s : string) : s ++ EmptyString = s.
Proof. induction s as [|c s IH]; cbn; [reflexivity|]. now rewrite IH. Qed.

Lemma all_digits_app (a b : string) :
  JSON.all_digits (a ++ b) = JSON.all_digits a && JSON.all_digits b.
Proof. induction a as [|c a IH]; cbn; [reflexivity|]. now rewrite IH, andb_assoc. Qed.

Lemma span_digits_all (d rest : string) :
  JSON.all_digits d = true ->
  match rest with String c _ => JSON.is_digit c = false | EmptyString => True end ->
  JSON.span_digits (d ++ rest) = (d, rest).
Proof.
  intros Hd Hr. induction d as [|c d IH]; cbn [append JSON.span_digits].
  - destruct rest as [|c r]; [reflexivity|]. cbn [JSON.span_digits]. now rewrite Hr.
  - cbn [JSON.all_digits] in Hd. apply andb_prop in Hd as [Hc Hd].
    now rewrite Hc, (IH Hd).
Qed.

Lemma uint_digits (u : Decimal.uint) : JSON.all_digits (NilEmpty.string_of_uint u) = true.
Proof. induction u; cbn; auto. Qed.

Lemma print_N_digits (n : N) : JSON.all_digits (JSON.print_N n) = true.
Proof. apply uint_digits. Qed.

Lemma zeros_digits (n : nat) : JSON.all_digits (Number.zeros n) = true.
Proof. induction n; cbn; auto. Qed.

Lemma zeros_length (n : nat) : String.length (Number.zeros n) = n.
Proof. induction n; cbn; auto. Qed.

Lemma digits_value_zero (s : string) :
  JSON.digits_value (String "0" s) = JSON.digits_value s.
Proof.
  unfold JSON.digits_value. cbn [NilEmpty.uint_of_string].
  now destruct (NilEmpty.uint_of_string s).
Qed.

Lemma digits_value_zeros (n : nat) (s : string) :
  JSON.digits_value (Number.zeros n ++ s) = JSON.digits_value s.
Proof. induction n as [|n IH]; cbn [Number.zeros append]; [reflexivity|]. now rewrite digits_value_zero. Qed.

(** The digits of a positive number: at least one, and the first is not
    zero. *)
Lemma print_pos_head (c : positive) :
  exists (ch : ascii) (r : string),
    JSON.print_N (Npos c) = String ch r
    /\ JSON.is_digit ch = true /\ (N_of_ascii ch =? 48)%N = false.
Proof.
  unfold JSON.print_N.
  destruct (N.to_uint (Npos c)) as [|u|u|u|u|u|u|u|u|u|u] eqn:E;
    try (cbn [NilEmpty.string_of_uint]; do 2 eexists; repeat split; reflexivity).
  - exfalso. revert E. apply DecimalPos.Unsigned.to_uint_nonnil.
  - exfalso. apply to_uint_leading_zero in E as Hu. subst u.
    pose proof (DecimalN.Unsigned.of_to (Npos c)) as H. rewrite E in H. discriminate.
Qed.

Lemma substring_all (s : string) : substring 0 (String.length s) s = s.
Proof. induction s as [|c s IH]; cbn; [reflexivity|]. now rewrite IH. Qed.

Lemma substring_split (n : nat) : forall s : string,
  (n <= String.length s)%nat ->
  exists a b : string,
    s = a ++ b /\ substring 0 n s = a /\ substring n (String.length s - n) s = b
    /\ String.length a = n.
Proof.
  induction n as [|n IH]; intros s Hn.
  - exists EmptyString, s. rewrite Nat.sub_0_r, substring_all.
    repeat split. now destruct s.
  - destruct s as [|c s]; [cbn in Hn; lia|]. cbn [String.length] in Hn.
    destruct (IH s ltac:(lia)) as (a & b & -> & Ha & Hb & Hl).
    exists (String c a), b. cbn [String.length substring append Nat.sub].
    rewrite Ha, Hb, Hl. repeat split.
Qed.

Lemma digit_not_minus (ch : ascii) : JSON.is_digit ch = true -> (N_of_ascii ch =? 45)%N = false.
Proof.
  unfold JSON.is_digit. intros H. apply andb_prop in H as [H _].
  apply N.leb_le in H. apply N.eqb_neq. lia.
Qed.

Lemma parse_number_signed (neg : bool) (ch : ascii) (r : string) :
  JSON.is_digit ch = true ->
  JSON.parse_number ((if neg then "-" else EmptyString) ++ String ch r)
  = match JSON.lex_int (String ch r) with
    | Some (int, r1) =>
        match JSON.lex_frac r1 with
        | Some (frac, r2) =>
            match JSON.lex_exp r2 with
            | Some (exp, r3) => Some (JSON.number_value neg int frac exp, r3)
            | None => None
            end
        | None => None
        end
    | None => None
    end.
Proof.
  intros Hd. unfold JSON.parse_number. destruct neg; cbn [append].
  - reflexivity.
  - now rewrite (digit_not_minus ch Hd).
Qed.

Lemma lex_int_digits (ch : ascii) (r rest : string) :
  JSON.is_digit ch = true -> JSON.all_digits r = true ->
  (N_of_ascii ch =? 48)%N = false \/ r = EmptyString ->
  match rest with String c _ => JSON.is_digit c = false | EmptyString => True end ->
  JSON.lex_int (String ch r ++ rest) = Some (String ch r, rest).
Proof.
  intros Hc Hr Hz Hrest. unfold JSON.lex_int.
  rewrite span_digits_all; [|cbn [JSON.all_digits]; now rewrite Hc, Hr|assumption].
  destruct Hz as [->| ->]; [reflexivity|]. cbn [String.eqb negb]. now rewrite andb_false_r.
Qed.

Lemma lex_frac_digits (b rest : string) :
  JSON.all_digits b = true -> b <> EmptyString ->
  match rest with String c _ => JSON.is_digit c = false | EmptyString => True end ->
  JSON.lex_frac (String "." (b ++ rest)) = Some (b, rest).
Proof.
  intros Hb Hne Hrest. unfold JSON.lex_frac. change (N_of_ascii "." =? 46)%N with true.
  cbv iota. rewrite span_digits_all by assumption. now destruct b.
Qed.

Lemma lex_exp_digits (x : Z) :
  JSON.lex_exp (String "e" ((if (x <? 0)%Z then "-" else "+") ++ Number.digits_of (Z.abs x)))
  = Some (Some ((x <? 0)%Z, JSON.print_N (Z.to_N (Z.abs x))), EmptyString).
Proof.
  unfold JSON.lex_exp. change (N_of_ascii "e" =? 101)%N with true. cbn [orb].
  change (Number.digits_of (Z.abs x)) with (JSON.print_N (Z.to_N (Z.abs x))).
  destruct (print_N_head (Z.to_N (Z.abs x))) as (c & s & E & Hd).
  pose proof (print_N_digits (Z.to_N (Z.abs x))) as Ha.
  pose proof (span_digits_all (JSON.print_N (Z.to_N (Z.abs x))) EmptyString Ha I) as Hs.
  rewrite string_app_nil_r in Hs.
  destruct (x <? 0)%Z; cbn [append].
  - change (N_of_ascii "-" =? 45)%N with true. cbv iota. rewrite Hs, E. reflexivity.
  - change (N_of_ascii "+" =? 45)%N with false. change (N_of_ascii "+" =? 43)%N with true.
    cbv iota. rewrite Hs, E. reflexivity.
Qed.

Lemma number_value_decimal (neg : bool) (int frac : string) (exp : option (bool * string))
      (c : positive) (p : Z) :
  frac <> EmptyString \/ exp <> None ->
  JSON.digits_value (int ++ frac) = Npos c ->
  (match exp with
   | Some (true, d) => - Z.of_N (JSON.digits_value d)
   | Some (false, d) => Z.of_N (JSON.digits_value d)
   | None => 0
   end - Z.of_nat (String.length frac))%Z = p ->
  JSON.number_value neg int frac exp = JSON.of_double (Number.of_decimal neg c p).
Proof.
  intros Hne Hv Hp. unfold JSON.number_value. rewrite Hv, Hp.
  destruct frac as [|a f]; [|reflexivity].
  destruct exp as [x|]; [reflexivity|]. now destruct Hne.
Qed.

Lemma exponent_value (x : Z) :
  (if (x <? 0)%Z then - Z.of_N (JSON.digits_value (JSON.print_N (Z.to_N (Z.abs x))))
   else Z.of_N (JSON.digits_value (JSON.print_N (Z.to_N (Z.abs x)))))%Z = x.
Proof. rewrite digits_value_print. destruct (Z.ltb_spec x 0); lia. Qed.

(** The text of the decimal [c * 10^p] with a fraction is read as the
    double nearest to it. *)
Lemma parse_number_decimal (neg : bool) (c : positive) (p : Z) :
  (p < 0)%Z ->
  JSON.parse_number
    ((if neg then "-" else EmptyString)
     ++ Number.format (Number.digits_of (Z.pos c))
          (p + Z.of_nat (String.length (Number.digits_of (Z.pos c)))))
  = Some (JSON.of_double (Number.of_decimal neg c p), EmptyString).
Proof.
  intros Hp. change (Number.digits_of (Z.pos c)) with (JSON.print_N (Npos c)).
  pose proof (print_N_digits (Npos c)) as Ha.
  pose proof (digits_value_print (Npos c)) as Hv.
  destruct (print_pos_head c) as (ch & r & Es & Hd & Hz).
  remember (JSON.print_N (N.pos c)) as s eqn:Hs. clear Hs.
  remember (p + Z.of_nat (String.length s))%Z as n eqn:Hn.
  unfold Number.format.
  destruct (Z.leb_spec (Z.of_nat (String.length s)) n) as [Hk|Hk]; [lia|]. cbn [andb].
  destruct ((0 <? n)%Z && (n <=? 21)%Z) eqn:H2.
  { apply andb_prop in H2 as [H2 _]. apply Z.ltb_lt in H2.
    assert (Hle : (Z.to_nat n <= String.length s)%nat) by lia.
    destruct (substring_split (Z.to_nat n) s Hle) as (a & b & Eab & Ea & Eb & La).
    replace (Z.to_nat (Z.of_nat (String.length s) - n))
      with (String.length s - Z.to_nat n)%nat by lia.
    rewrite Ea, Eb.
    assert (Lb : String.length s = (String.length a + String.length b)%nat)
      by (rewrite Eab; apply string_length_app).
    rewrite Eab in Ha, Hv. rewrite all_digits_app in Ha. apply andb_prop in Ha as [Ha Hb].
    destruct a as [|ch' a']; [cbn in La; lia|]. cbn [String.length] in La, Lb.
    rewrite Es in Eab. cbn [append] in Eab. injection Eab as <- Er.
    cbn [JSON.all_digits] in Ha. apply andb_prop in Ha as [_ Ha].
    change (String ch a' ++ "." ++ b) with (String ch (a' ++ String "." b)).
    rewrite parse_number_signed by assumption.
    change (String ch (a' ++ String "." b)) with (String ch a' ++ String "." b).
    rewrite lex_int_digits; [|assumption|assumption|now left|reflexivity].
    rewrite <- (string_app_nil_r b) at 1.
    rewrite lex_frac_digits; [|assumption|destruct b; [cbn [String.length] in Lb; lia|discriminate]|exact I].
    cbn [JSON.lex_exp]. f_equal. f_equal.
    apply number_value_decimal with (c := c); [|exact Hv|lia].
    left. destruct b; [cbn [String.length] in Lb; lia|discriminate]. }
  destruct ((-6 <? n)%Z && (n <=? 0)%Z) eqn:H3.
  { change ("0." ++ Number.zeros (Z.to_nat (- n)) ++ s)
      with (String "0" (EmptyString ++ String "." (Number.zeros (Z.to_nat (- n)) ++ s))).
    rewrite parse_number_signed by reflexivity.
    change (String "0" (EmptyString ++ String "." (Number.zeros (Z.to_nat (- n)) ++ s)))
      with (String "0" EmptyString ++ String "." (Number.zeros (Z.to_nat (- n)) ++ s)).
    rewrite lex_int_digits; [|reflexivity|reflexivity|now right|reflexivity].
    rewrite <- (string_app_nil_r (Number.zeros (Z.to_nat (- n)) ++ s)) at 1.
    rewrite lex_frac_digits; [| | |exact I].
    - cbn [JSON.lex_exp]. f_equal. f_equal.
      apply number_value_decimal with (c := c).
      + left. rewrite Es. destruct (Z.to_nat (- n)); discriminate.
      + cbn [append]. now rewrite digits_value_zero, digits_value_zeros.
      + rewrite string_length_app, zeros_length. apply andb_prop in H3 as [_ H3].
        apply Z.leb_le in H3. lia.
    - now rewrite all_digits_app, zeros_digits.
    - rewrite Es. destruct (Z.to_nat (- n)); discriminate. }
  rewrite Es in Ha, Hv |- *. cbn [JSON.all_digits] in Ha. apply andb_prop in Ha as [_ Ha].
  assert (Hlen : Z.of_nat (String.length s) = (1 + Z.of_nat (String.length r))%Z)
    by (rewrite Es; cbn [String.length]; lia).
  destruct r as [|c2 r2].
  -     match goal with |- context [String ch ("e" ++ ?x)] =>
      change (String ch ("e" ++ x)) with (String ch (EmptyString ++ String "e" x)) end.
    rewrite parse_number_signed by assumption.
    match goal with |- context [String ch (EmptyString ++ String "e" ?x)] =>
      change (String ch (EmptyString ++ String "e" x))
        with (String ch EmptyString ++ String "e" x) end.
    rewrite lex_int_digits; [|assumption|reflexivity|now right|reflexivity].
    unfold JSON.lex_frac at 1. change (N_of_ascii "e" =? 46)%N with false. cbv iota.
    rewrite lex_exp_digits. f_equal. f_equal.
    apply number_value_decimal with (c := c); [now right|exact Hv|].
    rewrite exponent_value. cbn [String.length] in *. lia.
  - match goal with |- context [String ch ("." ++ ?y ++ "e" ++ ?x)] =>
      change (String ch ("." ++ y ++ "e" ++ x))
        with (String ch (EmptyString ++ String "." (y ++ String "e" x))) end.
    rewrite parse_number_signed by assumption.
    match goal with |- context [String ch (EmptyString ++ ?x)] =>
      change (String ch (EmptyString ++ x)) with (String ch EmptyString ++ x) end.
    rewrite lex_int_digits; [|assumption|reflexivity|now right|reflexivity].
    rewrite lex_frac_digits; [|assumption|discriminate|reflexivity].
    rewrite lex_exp_digits. f_equal. f_equal.
    apply number_value_decimal with (c := c); [now left|exact Hv|].
    rewrite exponent_value. lia.
Qed.

Lemma of_double_fractional (d : spec_float) :
  Number.fractional d = true -> JSON.of_double d = JDouble d.
Proof.
  destruct d as [s|s| |s m e]; try discriminate. cbn [Number.fractional]. intros H.
  apply andb_true_iff in H as [H Hm]. apply andb_true_iff in H as [_ He].
  apply Z.ltb_lt in He. apply negb_true_iff in Hm.
  unfold JSON.of_double, Number.to_Z.
  destruct (Z.leb_spec 0 e); [lia|]. now rewrite Hm.
Qed.

(** Every double with a fractional part is read back from the text
    [JSON.stringify] gives it. *)
Lemma fractional_reads_back (d : spec_float) :
  Number.fractional d = true ->
  JSON.parse_number (Number.print d) = Some (JDouble d, EmptyString).
Proof.
  intros Hfr. destruct d as [s|s| |s m e]; try discriminate.
  pose proof (shortest_reads_back s m e Hfr) as Hok.
  cbn [Number.print]. unfold Number.to_text.
  destruct (Number.shortest_from 1100 s m e (Number.magnitude (Z.pos m) e) 1) as [c p].
  cbn [fst snd] in Hok. unfold Number.accepted in Hok.
  destruct (Number.strip_zeros 20 c p) as [c' p'].
  destruct c' as [|cp|cp]; try discriminate. cbn [Number.reads_back] in Hok.
  apply number_eqb_eq in Hok.
  destruct (Z.ltb_spec p' 0) as [Hp|Hp].
  - rewrite parse_number_decimal by assumption.
    now rewrite Hok, (of_double_fractional _ Hfr).
  - pose proof (of_decimal_integer s cp p' Hp) as Hi. rewrite Hok in Hi. congruence.
Qed.

(** A double with a fractional part is read back from its text, whatever
    follows the text. *)
Lemma parse_number_double (d : spec_float) (rest : string) :
  Number.fractional d = true -> value_stop rest ->
  JSON.parse_number (Number.print d ++ rest) = Some (JDouble d, rest).
Proof.
  intros Hfr Hstop.
  exact (parse_number_app _ _ _ _ Hstop (fractional_reads_back d Hfr)).
Qed.

Lemma digit_head_ok (c : ascii) : JSON.is_digit c = true -> head_ok c.
Proof.
  unfold head_ok, JSON.is_digit, JSON.is_ws. intros H.
  apply andb_prop in H as [H1 H2]. apply N.leb_le in H1, H2.
  assert (Hne : forall k, (k < 48 \/ 57 < k)%N -> (N_of_ascii c =? k)%N = false)
    by (intros k Hk; apply N.eqb_neq; lia).
  rewrite !Hne by lia. repeat split.
Qed.

Lemma format_head (s : string) (n : Z) :
  (exists c r, s = String c r /\ JSON.is_digit c = true) ->
  exists c r, Number.format s n = String c r /\ JSON.is_digit c = true.
Proof.
  intros (c & r & -> & Hc). unfold Number.format.
  destruct ((Z.of_nat (String.length (String c r)) <=? n)%Z && (n <=? 21)%Z).
  { cbn [append]. eauto. }
  destruct ((0 <? n)%Z && (n <=? 21)%Z) eqn:H2.
  { apply andb_prop in H2 as [H2 _]. apply Z.ltb_lt in H2.
    destruct (Z.to_nat n) as [|k] eqn:Ek; [lia|]. cbn [substring append]. eauto. }
  destruct ((-6 <? n)%Z && (n <=? 0)%Z).
  { cbn [append]. do 2 eexists. split; reflexivity. }
  destruct r; eauto.
Qed.

Lemma to_text_head (neg : bool) (m : positive) (e : Z) :
  exists c r, Number.to_text neg m e = String c r
              /\ head_ok c /\ (JSON.is_digit c = true \/ N_of_ascii c = 45%N).
Proof.
  unfold Number.to_text.
  destruct (Number.shortest_from _ neg m e (Number.magnitude (Z.pos m) e) 1) as [c p].
  destruct (Number.strip_zeros 20 c p) as [c' p'].
  destruct neg.
  - cbn [append]. do 2 eexists. split; [reflexivity|]. split; [|now right].
    repeat split.
  - cbn [append].
    destruct (format_head (Number.digits_of c')
                (p' + Z.of_nat (String.length (Number.digits_of c')))
                (print_N_head (Z.to_N c'))) as (ch & r & -> & Hd).
    do 2 eexists. split; [reflexivity|]. split; [now apply digit_head_ok|now left].
Qed.

Lemma number_print_head (d : spec_float) :
  exists c s, Number.print d = String c s /\ head_ok c.
Proof.
  destruct d as [s|s| |s m e]; cbn [Number.print];
    try (do 2 eexists; split; [reflexivity|repeat split; reflexivity]).
  destruct (to_text_head s m e) as (c & r & E & Hh & _). eauto.
Qed.

Lemma print_head (j : json) :
  exists c s, JSON.print j = String c s /\ head_ok c.
Proof.
  destruct j as [|[]|z|d|s|l|l]; simpl;
    try (do 2 eexists; split; [reflexivity|repeat split; reflexivity]).
  - unfold JSON.print_Z. destruct (z <? 0)%Z.
    + do 2 eexists; split; [reflexivity|repeat split; reflexivity].
    + destruct (print_N_head (Z.to_N z)) as (c & s & -> & Hd).
      do 2 eexists; split; [reflexivity|]. now apply digit_head_ok.
  - apply number_print_head.
Qed.

Lemma skip_ws_head (c : ascii) (s : string) :
  JSON.is_ws c = false -> JSON.skip_ws (String c s) = String c s.
Proof. intros H. simpl. now rewrite H. Qed.

Lemma accept_head (n : N) (c : ascii) (s : string) :
  JSON.is_ws c = false ->
  JSON.accept n (String c s) = if (N_of_ascii c =? n)%N then Some s else None.
Proof. intros H. unfold JSON.accept. now rewrite skip_ws_head. Qed.

Lemma value_stop_head (c : ascii) (s : string) :
  JSON.is_digit c = false -> JSON.starts_fraction (String c s) = false ->
  value_stop (String c s).
Proof. intros; split; assumption. Qed.

Section Elements.
Variable parse1 : string -> option (json * string).

Lemma elements_print (l : list json) : forall (k : nat) (rest : string),
  l <> [] -> (length l <= k)%nat -> Forall (inverts parse1) l ->
  JSON.elements parse1 k (JSON.join "," (map JSON.print l) ++ String "]" rest)
  = Some (l, rest).
Proof.
  induction l as [|a l IH]; intros k rest Hne Hk Hall; [congruence|].
  destruct k as [|k]; [simpl in Hk; lia|].
  apply Forall_cons in Hall as [Ha Hall].
  destruct l as [|b l].
  - simpl. rewrite Ha by (apply value_stop_head; reflexivity). reflexivity.
  - change (JSON.join "," (map JSON.print (a :: b :: l)))
      with (JSON.print a ++ "," ++ JSON.join "," (map JSON.print (b :: l)))%string.
    rewrite !string_app_assoc. cbn [JSON.elements].
    rewrite Ha by (apply value_stop_head; reflexivity).
    change ("," ++ ?x)%string with (String "," x).
    rewrite accept_head by reflexivity. simpl N.eqb. cbv iota.
    rewrite IH; [reflexivity|congruence|simpl in *; lia|assumption].
Qed.

Lemma members_print (l : list (string * json)) : forall (k : nat) (rest : string),
  l <> [] -> (length l <= k)%nat -> Forall (fun kv => inverts parse1 (snd kv)) l ->
  JSON.members parse1 k
    (JSON.join "," (map (fun kv => (JSON.quote (fst kv) ++ ":" ++ JSON.print (snd kv))%string) l)
     ++ String "}" rest)
  = Some (l, rest).
Proof.
  induction l as [|[key a] l IH]; intros k rest Hne Hk Hall; [congruence|].
  destruct k as [|k]; [simpl in Hk; lia|].
  apply Forall_cons in Hall as [Ha Hall]. simpl in Ha.
  destruct l as [|b l].
  - cbn [JSON.join map fst snd]. rewrite !string_app_assoc.
    destruct (parse_chars_quote key (":" ++ JSON.print a ++ String "}" rest))
      as (body & -> & Hbody).
    cbn [JSON.members]. rewrite accept_head by reflexivity.
    change (N_of_ascii JSON.dquote =? 34)%N with true. cbv iota.
    rewrite Hbody. change (":" ++ ?x)%string with (String ":" x).
    rewrite accept_head by reflexivity. simpl N.eqb. cbv iota.
    rewrite Ha by (apply value_stop_head; reflexivity). reflexivity.
  - change (JSON.join "," (map ?f ((key, a) :: b :: l)))
      with (f (key, a) ++ "," ++ JSON.join "," (map f (b :: l)))%string.
    cbn [fst snd]. rewrite !string_app_assoc.
    destruct (parse_chars_quote key
                (":" ++ JSON.print a ++ "," ++
                 JSON.join "," (map (fun kv => (JSON.quote (fst kv) ++ ":" ++ JSON.print (snd kv))%string) (b :: l))
                 ++ String "}" rest))
      as (body & -> & Hbody).
    cbn [JSON.members]. rewrite accept_head by reflexivity.
    change (N_of_ascii JSON.dquote =? 34)%N with true. cbv iota.
    rewrite Hbody. change (":" ++ ?x)%string with (String ":" x).
    rewrite accept_head by reflexivity. simpl N.eqb. cbv iota.
    rewrite Ha by (apply value_stop_head; reflexivity).
    change ("," ++ ?x)%string with (String "," x).
    rewrite accept_head by reflexivity. simpl N.eqb. cbv iota.
    rewrite IH; [reflexivity|congruence|simpl in *; lia|assumption].
Qed.
End Elements.

Lemma parse_value_number (fuel : nat) (c : ascii) (r : string) :
  JSON.is_digit c = true \/ N_of_ascii c = 45%N ->
  JSON.parse_value (S fuel) (String c r) = JSON.parse_number (String c r).
Proof.
  intros H.
  assert (Hne : forall k, (k <> 45 /\ (k < 48 \/ 57 < k))%N -> (N_of_ascii c =? k)%N = false).
  { intros k Hk. apply N.eqb_neq. destruct H as [H| ->]; [|lia].
    unfold JSON.is_digit in H. apply andb_prop in H as [H1 H2].
    apply N.leb_le in H1, H2. lia. }
  cbn [JSON.parse_value]. rewrite skip_ws_head.
  - cbv zeta. rewrite !Hne by lia. reflexivity.
  - unfold JSON.is_ws. rewrite !Hne by lia. reflexivity.
Qed.

Lemma print_Z_head (z : Z) :
  exists c s, JSON.print_Z z = String c s
              /\ (JSON.is_digit c = true \/ N_of_ascii c = 45%N).
Proof.
  unfold JSON.print_Z. destruct (z <? 0)%Z.
  - do 2 eexists; split; [reflexivity|right; reflexivity].
  - destruct (print_N_head (Z.to_N z)) as (c & s & -> & Hd). eauto.
Qed.

Lemma size_pos (j : json) : (1 <= JSON.size j)%nat.
Proof. destruct j; simpl; lia. Qed.

Lemma list_sum_bound {A} (f : A -> nat) (l : list A) (x : A) :
  In x l -> (f x <= list_sum (map f l))%nat.
Proof.
  induction l as [|y l IH]; simpl; [tauto|].
  intros [->|H]; [lia|]. specialize (IH H). lia.
Qed.

Lemma list_sum_length {A} (f : A -> nat) (l : list A) :
  (forall x, 1 <= f x)%nat -> (length l <= list_sum (map f l))%nat.
Proof.
  intros Hf. induction l as [|y l IH]; simpl; [lia|]. specialize (Hf y). lia.
Qed.

(** Parsing the printed form of a document gives the document back, whatever
    follows it. *)
Lemma parse_value_print (j : json) : forall (fuel : nat) (rest : string),
  JSON.exact j = true -> (JSON.size j <= fuel)%nat -> value_stop rest ->
  JSON.parse_value fuel (JSON.print j ++ rest) = Some (j, rest).
Proof.
  induction j as [|b|z|d|s|l IH|l IH] using json_ind; intros fuel rest He Hf Hstop;
    (destruct fuel as [|fuel]; [pose proof (size_pos ltac:(eassumption || exact JNull)); simpl in Hf; lia|]).
  - reflexivity.
  - destruct b; reflexivity.
  - cbn [JSON.print]. destruct (print_Z_head z) as (c & s & E & Hc).
    pose proof (parse_number_print z rest Hstop) as HN.
    rewrite E in *. cbn [append] in *. now rewrite parse_value_number.
  - cbn [JSON.print JSON.exact] in *.
    pose proof (parse_number_double d rest He Hstop) as HN.
    destruct (parse_number_head _ _ _ HN) as (c & s & E & Hc).
    rewrite E in *. now rewrite parse_value_number.
  - cbn [JSON.print].
    destruct (parse_chars_quote s rest) as (body & -> & Hbody).
    cbn [JSON.parse_value]. rewrite skip_ws_head by reflexivity.
    cbv zeta. change (N_of_ascii JSON.dquote) with 34%N. simpl N.eqb. cbv iota.
    now rewrite Hbody.
  - cbn [JSON.print append JSON.parse_value]. rewrite skip_ws_head by reflexivity.
    cbv zeta. simpl N.eqb. cbv iota. rewrite string_app_assoc.
    destruct l as [|a l].
    + reflexivity.
    + assert (Hacc : JSON.accept 93 (JSON.join "," (map JSON.print (a :: l)) ++ "]" ++ rest) = None).
      { destruct (print_head a) as (c & s & E & Hws & H93 & _).
        destruct l; cbn [map JSON.join]; rewrite E; cbn [append];
          rewrite accept_head by assumption; now rewrite H93. }
      rewrite Hacc. cbn [JSON.size] in Hf.
      change ("]" ++ rest)%string with (String "]" rest).
      rewrite elements_print; [reflexivity|congruence| |].
      * pose proof (list_sum_length JSON.size (a :: l) size_pos). lia.
      * apply List.Forall_forall. intros x Hx tail Htail.
        rewrite List.Forall_forall in IH. apply IH; [assumption| | |assumption].
        -- cbn [JSON.exact] in He. rewrite List.forallb_forall in He. now apply He.
        -- pose proof (list_sum_bound JSON.size (a :: l) x Hx). lia.
  - cbn [JSON.print]. rewrite string_cons_app. cbn [JSON.parse_value].
    rewrite skip_ws_head by reflexivity.
    cbv zeta. simpl N.eqb. cbv iota. rewrite string_app_assoc.
    destruct l as [|a l].
    + reflexivity.
    + assert (Hacc : JSON.accept 125
                (JSON.join "," (map (fun kv => (JSON.quote (fst kv) ++ ":" ++ JSON.print (snd kv))%string) (a :: l))
                 ++ "}" ++ rest) = None).
      { destruct l; cbn [map JSON.join]; unfold JSON.quote at 1; cbn [append];
          rewrite accept_head by reflexivity; reflexivity. }
      rewrite Hacc. cbn [JSON.size] in Hf.
      change ("}" ++ rest)%string with (String "}" rest).
      rewrite members_print; [reflexivity|congruence| |].
      * pose proof (list_sum_length (fun kv : string * json => JSON.size (snd kv)) (a :: l)
                      (fun kv => size_pos (snd kv))). lia.
      * apply List.Forall_forall. intros x Hx tail Htail.
        rewrite List.Forall_forall in IH. apply IH; [assumption| | |assumption].
        -- cbn [JSON.exact] in He. rewrite List.forallb_forall in He. now apply He.
        -- pose proof (list_sum_bound (fun kv : string * json => JSON.size (snd kv)) (a :: l) x Hx). lia.
Qed.

Lemma join_length (strs : list string) :
  (list_sum (map String.length strs) <= String.length (JSON.join "," strs))%nat.
Proof.
  induction strs as [|x [|y r] IH]; simpl in *; [lia|lia|].
  rewrite string_length_app. simpl. lia.
Qed.

Lemma list_sum_le {A} (f g : A -> nat) (l : list A) :
  Forall (fun x => f x <= g x)%nat l ->
  (list_sum (map f l) <= list_sum (map g l))%nat.
Proof. induction 1; simpl; lia. Qed.

(** A printed document has at least one character per node, so the length of
    a text is enough fuel to parse it. *)
Lemma size_le_length (j : json) : (JSON.size j <= String.length (JSON.print j))%nat.
Proof.
  induction j as [|b|z|d|s|l IH|l IH] using json_ind; cbn [JSON.size JSON.print].
  - simpl; lia.
  - destruct b; simpl; lia.
  - destruct (print_Z_head z) as (c & s & -> & _). simpl; lia.
  - destruct (number_print_head d) as (c & s & -> & _). simpl; lia.
  - simpl; lia.
  - cbn [String.length]. rewrite string_length_app.
    pose proof (join_length (map JSON.print l)) as H. rewrite map_map in H.
    pose proof (list_sum_le _ _ l IH). lia.
  - cbn [String.length]. rewrite string_length_app.
    pose proof (join_length (map (fun kv : string * json =>
                  (JSON.quote (fst kv) ++ ":" ++ JSON.print (snd kv))%string) l)) as H.
    rewrite map_map in H.
    assert (H' : (list_sum (map (fun kv : string * json => JSON.size (snd kv)) l)
                  <= list_sum (map (fun kv : string * json =>
                        String.length (JSON.quote (fst kv) ++ ":" ++ JSON.print (snd kv))) l))%nat).
    { apply list_sum_le. eapply Forall_impl; [exact IH|].
      intros kv Hkv. cbn beta in Hkv. rewrite !string_length_app. lia. }
    lia.
Qed.

(** [JSON.parse(JSON.stringify(v))] on documents. *)
Lemma parse_text_print (j : json) :
  JSON.exact j = true -> JSON.parse_text (JSON.print j) = Some j.
Proof.
  intros He. unfold JSON.parse_text.
  rewrite <- (string_app_empty_r (JSON.print j)) at 2.
  rewrite parse_value_print; [reflexivity|assumption| |exact I].
  pose proof (size_le_length j). lia.
Qed.

Lemma well_formed_exact (j : json) : JSON.well_formed j = true -> JSON.exact j = true.
Proof.
  induction j as [|b|z|d|s|l IH|l IH] using json_ind;
    cbn [JSON.well_formed JSON.exact]; try reflexivity.
  - auto.
  - rewrite !List.forallb_forall. rewrite List.Forall_forall in IH. auto.
  - intros H. apply andb_prop in H as [_ H]. revert H.
    rewrite !List.forallb_forall. rewrite List.Forall_forall in IH. auto.
Qed.

Example parse_text_spaces :
  JSON.parse_text (" { " ++ JSON.quote "id" ++ " : [ 1 , -20 , true , null ] } ")
  = Some (JObj [("id", JArr [JNum 1; JNum (-20); JBool true; JNull])]).
Proof. vm_compute. reflexivity. Qed.

Example parse_text_rejects :
  JSON.parse_text "[01]" = None /\ JSON.parse_text "[1,]" = None
  /\ JSON.parse_text "1 2" = None /\ JSON.parse_text EmptyString = None.
Proof. vm_compute. auto. Qed.

Example print_string_escapes :
  JSON.parse_text (JSON.print (JStr (String (ascii_of_N 10) (String JSON.dquote "\z"))))
  = Some (JStr (String (ascii_of_N 10) (String JSON.dquote "\z"))).
Proof. vm_compute. reflexivity. Qed.

(** ** The heap: reading and allocating documents *)

Local Open Scope list_scope.

Lemma shape_props_impl (f g : value -> option json) (ps : list (string * value)) :
  (forall x j, In x (map snd ps) -> f x = Some j -> g x = Some j) ->
  forall js, shape_props f ps = Some js -> shape_props g ps = Some js.
Proof.
  induction ps as [|[k x] r IH]; intros Hfg js; simpl; [auto|].
  destruct (f x) as [j|] eqn:Ef; [|discriminate].
  destruct (shape_props f r) as [js'|] eqn:Er; [|discriminate].
  intros [= <-]. rewrite (Hfg x j) by (simpl; auto).
  rewrite (IH (fun y j' Hy => Hfg y j' (or_intror Hy)) js') by reflexivity.
  reflexivity.
Qed.

Lemma shape_elems_impl (f g : value -> option json) (es : list value) :
  (forall x j, In x es -> f x = Some j -> g x = Some j) ->
  forall js, shape_elems f es = Some js -> shape_elems g es = Some js.
Proof.
  induction es as [|x r IH]; intros Hfg js; simpl; [auto|].
  destruct (f x) as [j|] eqn:Ef; [|discriminate].
  destruct (shape_elems f r) as [js'|] eqn:Er; [|discriminate].
  intros [= <-]. rewrite (Hfg x j) by (simpl; auto).
  rewrite (IH (fun y j' Hy => Hfg y j' (or_intror Hy)) js') by reflexivity.
  reflexivity.
Qed.

(** More fuel and more cells do not change what a value is. *)
Lemma shape_extend (n : nat) : forall (h : list cell) (v : value) (j : json),
  shape n h v = Some j ->
  forall (m : nat) (ext : list cell), n <= m -> shape m (h ++ ext) v = Some j.
Proof.
  induction n as [|n IH]; intros h v j Hs m ext Hm; [discriminate|].
  destruct m as [|m]; [lia|]. simpl in *.
  destruct v as [| | | | |l|d]; try assumption.
  destruct (h !! l) as [c|] eqn:El; [|discriminate].
  rewrite (lookup_app_l_Some _ _ _ _ El).
  destruct c as [ps|es [|]]; try discriminate.
  - destruct (JSON.distinct (map fst ps)); [|discriminate].
    destruct (shape_props (shape n h) ps) as [js|] eqn:Ep; [|discriminate].
    erewrite shape_props_impl; [eassumption| |eassumption].
    intros x j' _ Hx. apply IH; [assumption|lia].
  - destruct (shape_elems (shape n h) es) as [js|] eqn:Ep; [|discriminate].
    erewrite shape_elems_impl; [eassumption| |eassumption].
    intros x j' _ Hx. apply IH; [assumption|lia].
Qed.

Lemma shape_fuel (n m : nat) (h : list cell) (v : value) (j : json) :
  shape n h v = Some j -> n <= m -> shape m h v = Some j.
Proof.
  intros Hs Hm. rewrite <- (app_nil_r h). now apply shape_extend with (n := n).
Qed.

Lemma shape_props_reify (f : value -> option json) (g : value -> option (option json))
  (ps : list (string * value)) :
  (forall x j, f x = Some j -> g x = Some (Some j)) ->
  forall js, shape_props f ps = Some js -> reify_props g ps = Some js.
Proof.
  intros Hfg. induction ps as [|[k x] r IH]; intros js; simpl; [auto|].
  destruct (f x) as [j|] eqn:Ef; [|discriminate].
  destruct (shape_props f r) as [js'|] eqn:Er; [|discriminate].
  intros [= <-]. now rewrite (Hfg x j Ef), (IH js').
Qed.

Lemma shape_elems_reify (f : value -> option json) (g : value -> option (option json))
  (es : list value) :
  (forall x j, f x = Some j -> g x = Some (Some j)) ->
  forall js, shape_elems f es = Some js -> reify_elems g es = Some js.
Proof.
  intros Hfg. induction es as [|x r IH]; intros js; simpl; [auto|].
  destruct (f x) as [j|] eqn:Ef; [|discriminate].
  destruct (shape_elems f r) as [js'|] eqn:Er; [|discriminate].
  intros [= <-]. now rewrite (Hfg x j Ef), (IH js').
Qed.

(** [JSON.stringify] traverses a value that is a document as that document. *)
Lemma shape_reify (n : nat) : forall (h : list cell) (v : value) (j : json),
  shape n h v = Some j -> reify n h v = Some (Some j).
Proof.
  induction n as [|n IH]; intros h v j Hs; [discriminate|]. simpl in *.
  destruct v as [| | | | |l|d]; try discriminate; try (now injection Hs as <-).
  2:{ destruct (Number.fractional d) eqn:Ed; [|discriminate]. injection Hs as <-.
      destruct d; try discriminate Ed; reflexivity. }
  destruct (h !! l) as [[ps|es [|]]|]; try discriminate.
  - destruct (JSON.distinct (map fst ps)); [|discriminate].
    destruct (shape_props (shape n h) ps) as [js|] eqn:Ep; [|discriminate].
    injection Hs as <-.
    now rewrite (shape_props_reify _ (reify n h) ps (IH h) js Ep).
  - destruct (shape_elems (shape n h) es) as [js|] eqn:Ep; [|discriminate].
    injection Hs as <-.
    now rewrite (shape_elems_reify _ (reify n h) es (IH h) js Ep).
Qed.

Lemma shape_props_keys (f : value -> option json) (ps : list (string * value))
  (js : list (string * json)) :
  shape_props f ps = Some js -> map fst js = map fst ps.
Proof.
  revert js. induction ps as [|[k x] r IH]; intros js; simpl.
  - now intros [= <-].
  - destruct (f x); [|discriminate]. destruct (shape_props f r); [|discriminate].
    intros [= <-]. simpl. f_equal. now apply IH.
Qed.

Lemma shape_props_forall (f : value -> option json) (P : json -> Prop)
  (ps : list (string * value)) (js : list (string * json)) :
  (forall x j, f x = Some j -> P j) ->
  shape_props f ps = Some js -> Forall (fun kv => P (snd kv)) js.
Proof.
  intros Hf. revert js. induction ps as [|[k x] r IH]; intros js; simpl.
  - intros [= <-]. constructor.
  - destruct (f x) eqn:Ef; [|discriminate]. destruct (shape_props f r); [|discriminate].
    intros [= <-]. constructor; [now apply (Hf x)|now apply IH].
Qed.

Lemma shape_elems_forall (f : value -> option json) (P : json -> Prop)
  (es : list value) (js : list json) :
  (forall x j, f x = Some j -> P j) ->
  shape_elems f es = Some js -> Forall P js.
Proof.
  intros Hf. revert js. induction es as [|x r IH]; intros js; simpl.
  - intros [= <-]. constructor.
  - destruct (f x) eqn:Ef; [|discriminate]. destruct (shape_elems f r); [|discriminate].
    intros [= <-]. constructor; [now apply (Hf x)|now apply IH].
Qed.

(** The document of a value has distinct keys. *)
Lemma shape_well_formed (n : nat) : forall (h : list cell) (v : value) (j : json),
  shape n h v = Some j -> JSON.well_formed j = true.
Proof.
  induction n as [|n IH]; intros h v j Hs; [discriminate|]. simpl in Hs.
  destruct v as [| | | | |l|d]; try discriminate; try (now injection Hs as <-).
  2:{ destruct (Number.fractional d) eqn:Ed; [|discriminate]. now injection Hs as <-. }
  destruct (h !! l) as [[ps|es [|]]|]; try discriminate.
  - destruct (JSON.distinct (map fst ps)) eqn:Ed; [|discriminate].
    destruct (shape_props (shape n h) ps) as [js|] eqn:Ep; [|discriminate].
    injection Hs as <-. simpl.
    rewrite (shape_props_keys _ _ _ Ep), Ed. simpl.
    apply forallb_forall. apply List.Forall_forall.
    apply (shape_props_forall (shape n h) (fun j => JSON.well_formed j = true) ps js);
      [|exact Ep]. intros x j. apply IH.
  - destruct (shape_elems (shape n h) es) as [js|] eqn:Ep; [|discriminate].
    injection Hs as <-. simpl.
    apply forallb_forall. apply List.Forall_forall.
    apply (shape_elems_forall (shape n h) (fun j => JSON.well_formed j = true) es js);
      [|exact Ep]. intros x j. apply IH.
Qed.

(** Keys. *)

Lemma existsb_eqb_elem (k : string) (l : list string) :
  existsb (String.eqb k) l = true <-> k ∈ l.
Proof.
  rewrite existsb_exists, list_elem_of_In. split.
  - intros (x & Hx & E). apply String.eqb_eq in E. now subst.
  - intros H. exists k. split; [assumption|apply String.eqb_refl].
Qed.

Lemma distinct_NoDup (l : list string) : JSON.distinct l = true <-> NoDup l.
Proof.
  induction l as [|k r IH]; simpl.
  - split; [constructor|reflexivity].
  - rewrite andb_true_iff, negb_true_iff, NoDup_cons, IH.
    rewrite <- not_true_iff_false, existsb_eqb_elem. reflexivity.
Qed.

Lemma assoc_set_fresh (k : string) (v : value) (acc : list (string * value)) :
  k ∉ map fst acc -> assoc_set k v acc = (acc ++ [(k, v)])%list.
Proof.
  induction acc as [|[k' v'] r IH]; simpl; intros Hk; [reflexivity|].
  rewrite not_elem_of_cons in Hk. destruct Hk as [Hne Hr].
  destruct (String.eqb_spec k k'); [contradiction|]. now rewrite IH.
Qed.

Lemma fold_assoc_set_distinct (kvs acc : list (string * value)) :
  NoDup (map fst (acc ++ kvs)) ->
  fold_left (fun a kv => assoc_set (fst kv) (snd kv) a) kvs acc = (acc ++ kvs)%list.
Proof.
  revert acc. induction kvs as [|[k v] r IH]; intros acc Hnd; simpl.
  - now rewrite app_nil_r.
  - rewrite assoc_set_fresh.
    + rewrite IH; rewrite <- app_assoc; [reflexivity|assumption].
    + rewrite map_app in Hnd. apply NoDup_app in Hnd as (_ & Hdisj & _).
      intros Hin. apply (Hdisj k Hin). simpl. left.
Qed.

Lemma build_props_distinct (kvs : list (string * value)) :
  JSON.distinct (map fst kvs) = true -> build_props kvs = kvs.
Proof.
  intros H. apply distinct_NoDup in H. unfold build_props.
  now rewrite fold_assoc_set_distinct.
Qed.

(** Allocation. *)

Lemma alloc_elems_ok (l : list json) :
  Forall alloc_ok l -> forallb JSON.well_formed l = true ->
  forall (h : list cell) (vs : list value) (h1 : list cell),
    alloc_elems alloc l h = (vs, h1) ->
    (exists new, h1 = (h ++ new)%list)
    /\ length h + list_max (map depth l) <= S (length h1)
    /\ forall ext, shape_elems (shape (list_max (map depth l)) (h1 ++ ext)) vs = Some l.
Proof.
  induction 1 as [|x r Hx Hr IH]; intros Hwf h vs h1 Ha; simpl in *.
  - injection Ha as <- <-. split; [exists []; now rewrite app_nil_r|]. split; [lia|auto].
  - apply andb_prop in Hwf as [Hwx Hwr].
    destruct (alloc x h) as [v ha] eqn:Ex.
    destruct (alloc_elems alloc r ha) as [vs' hb] eqn:Er.
    injection Ha as <- <-.
    destruct (Hx h v ha Hwx Ex) as ((n1 & ->) & Hl1 & Hs1).
    destruct (IH Hwr _ _ _ Er) as ((n2 & ->) & Hl2 & Hs2).
    split; [exists (n1 ++ n2)%list; now rewrite app_assoc|].
    rewrite !length_app in *. split; [lia|]. intros ext.
    rewrite <- (app_assoc (h ++ n1) n2 ext). cbn [shape_elems].
    rewrite (shape_extend _ _ _ _ Hs1) by lia.
    rewrite (app_assoc (h ++ n1) n2 ext).
    erewrite shape_elems_impl; [reflexivity| |apply Hs2].
    intros y j _ Hy. eapply shape_fuel; [exact Hy|lia].
Qed.

Lemma alloc_props_ok (l : list (string * json)) :
  Forall (fun kv => alloc_ok (snd kv)) l ->
  forallb (fun kv => JSON.well_formed (snd kv)) l = true ->
  forall (h : list cell) (kvs : list (string * value)) (h1 : list cell),
    alloc_props alloc l h = (kvs, h1) ->
    (exists new, h1 = (h ++ new)%list)
    /\ length h + list_max (map (fun kv => depth (snd kv)) l) <= S (length h1)
    /\ map fst kvs = map fst l
    /\ forall ext,
        shape_props (shape (list_max (map (fun kv => depth (snd kv)) l)) (h1 ++ ext)) kvs
        = Some l.
Proof.
  induction 1 as [|[k x] r Hx Hr IH]; intros Hwf h kvs h1 Ha; simpl in *.
  - injection Ha as <- <-. split; [exists []; now rewrite app_nil_r|].
    split; [lia|auto].
  - apply andb_prop in Hwf as [Hwx Hwr].
    destruct (alloc x h) as [v ha] eqn:Ex.
    destruct (alloc_props alloc r ha) as [kvs' hb] eqn:Er.
    injection Ha as <- <-.
    destruct (Hx h v ha Hwx Ex) as ((n1 & ->) & Hl1 & Hs1).
    destruct (IH Hwr _ _ _ Er) as ((n2 & ->) & Hl2 & Hk & Hs2).
    split; [exists (n1 ++ n2)%list; now rewrite app_assoc|].
    rewrite !length_app in *. split; [lia|]. split; [simpl; now f_equal|].
    intros ext.
    rewrite <- (app_assoc (h ++ n1) n2 ext). cbn [shape_props].
    rewrite (shape_extend _ _ _ _ Hs1) by lia.
    rewrite (app_assoc (h ++ n1) n2 ext).
    erewrite shape_props_impl; [reflexivity| |apply Hs2].
    intros y j _ Hy. eapply shape_fuel; [exact Hy|lia].
Qed.

Lemma alloc_all_ok (j : json) : alloc_ok j.
Proof.
  induction j as [|b|z|d|s|l IH|l IH] using json_ind; intros h v h' Hwf Ha; simpl in *;
    try (injection Ha as <- <-;
         split; [exists []; now rewrite app_nil_r|split; [lia|now rewrite ?Hwf]]).
  - destruct (alloc_elems alloc l h) as [vs h1] eqn:El. injection Ha as <- <-.
    destruct (alloc_elems_ok l IH Hwf _ _ _ El) as ((n1 & ->) & Hl & Hs).
    split; [exists (n1 ++ [CArr vs []])%list; now rewrite app_assoc|].
    rewrite !length_app in *. simpl. split; [lia|].
    rewrite list_lookup_middle by (now rewrite length_app).
    now rewrite Hs.
  - apply andb_prop in Hwf as [Hd Hwf].
    destruct (alloc_props alloc l h) as [kvs h1] eqn:El. injection Ha as <- <-.
    destruct (alloc_props_ok l IH Hwf _ _ _ El) as ((n1 & ->) & Hl & Hk & Hs).
    split; [exists (n1 ++ [CObj (build_props kvs)])%list; now rewrite app_assoc|].
    rewrite !length_app in *. simpl. split; [lia|].
    rewrite list_lookup_middle by (now rewrite length_app).
    rewrite build_props_distinct by (now rewrite Hk).
    now rewrite Hk, Hd, Hs.
Qed.

(** [JSON.parse] builds, after the cells that exist, a value that is the
    parsed document. *)
Lemma alloc_represents (j : json) (h : list cell) (v : value) (h' : list cell) :
  JSON.well_formed j = true -> alloc j h = (v, h') ->
  (exists new, h' = (h ++ new)%list) /\ represents h' v j.
Proof.
  intros Hwf Ha. destruct (alloc_all_ok j h v h' Hwf Ha) as (Hext & Hl & Hs).
  split; [assumption|]. unfold represents, heap_fuel.
  eapply shape_fuel; [exact Hs|lia].
Qed.

(** The fuel [heap_fuel] is enough: a value that is a document with some
    fuel is that document with the fuel of its heap, because the references
    on a path of the document are distinct cells. *)

Lemma shape_functional (n n' : nat) (h : list cell) (v : value) (j j' : json) :
  shape n h v = Some j -> shape n' h v = Some j' -> j = j'.
Proof.
  intros H H'.
  apply (shape_fuel n (Nat.max n n')) in H; [|lia].
  apply (shape_fuel n' (Nat.max n n')) in H'; [|lia].
  congruence.
Qed.

Lemma shape_props_members (f : value -> option json) (ps : list (string * value))
  (js : list (string * json)) :
  shape_props f ps = Some js ->
  forall kv, In kv js -> exists x, f x = Some (snd kv).
Proof.
  revert js. induction ps as [|[k x] r IH]; intros js; simpl.
  - intros [= <-] kv [].
  - destruct (f x) as [jx|] eqn:Ef; [|discriminate].
    destruct (shape_props f r) as [js'|]; [|discriminate].
    intros [= <-] kv [<-|Hin]; [eauto|]. now apply (IH js').
Qed.

Lemma shape_elems_members (f : value -> option json) (es : list value) (js : list json) :
  shape_elems f es = Some js ->
  forall jx, In jx js -> exists x, f x = Some jx.
Proof.
  revert js. induction es as [|x r IH]; intros js; simpl.
  - intros [= <-] jx [].
  - destruct (f x) as [j0|] eqn:Ef; [|discriminate].
    destruct (shape_elems f r) as [js'|]; [|discriminate].
    intros [= <-] jx [<-|Hin]; [eauto|]. now apply (IH js').
Qed.

Lemma distinct_below (m : nat) (l : list nat) :
  NoDup l -> (forall x, x ∈ l -> x < m) -> length l <= m.
Proof.
  intros Hnd Hlt. transitivity (length (seq 0 m)); [|now rewrite length_seq].
  apply submseteq_length, NoDup_submseteq; [assumption|].
  intros x Hx. apply elem_of_seq. specialize (Hlt x Hx). lia.
Qed.

Lemma shape_depth (n : nat) : forall (h : list cell) (v : value) (j : json),
  shape n h v = Some j ->
  forall visited : list loc,
    NoDup visited ->
    (forall l, l ∈ visited ->
               l < length h
               /\ exists n' d, shape n' h (VRef l) = Some d /\ JSON.size j < JSON.size d) ->
    depth j + length visited <= S (length h).
Proof.
  induction n as [|n IH]; intros h v j Hs visited Hnd Hvis; [discriminate|].
  assert (Hbound : length visited <= length h).
  { apply distinct_below; [assumption|]. intros l Hl. now apply Hvis. }
  pose proof Hs as Hs0. simpl in Hs.
  destruct v as [| | | | |l|d]; try discriminate;
    try (injection Hs as <-; simpl; lia).
  2:{ destruct (Number.fractional d); [|discriminate]. injection Hs as <-. simpl. lia. }
  destruct (h !! l) as [c|] eqn:El; [|discriminate].
  assert (Hl : l < length h) by (eapply lookup_lt_Some; exact El).
  assert (Hfresh : l ∉ visited).
  { intros Hin. destruct (Hvis l Hin) as (_ & n' & d & Hd & Hlt).
    rewrite (shape_functional _ _ _ _ _ _ Hd Hs0) in Hlt. lia. }
  assert (Hnd' : NoDup (l :: visited)) by now constructor.
  assert (Hbound' : S (length visited) <= length h).
  { apply (distinct_below (length h) (l :: visited) Hnd').
    intros x Hx. apply elem_of_cons in Hx as [->|Hx]; [assumption|now apply Hvis]. }
  assert (Hchild : forall x jx, shape n h x = Some jx -> JSON.size jx < JSON.size j ->
                                depth jx <= length h - length visited).
  { intros x jx Hx Hlt.
    assert (depth jx + length (l :: visited) <= S (length h)); [|simpl in *; lia].
    apply (IH h x jx Hx (l :: visited) Hnd').
    intros l' Hl'. apply elem_of_cons in Hl' as [->|Hl'].
    - split; [assumption|]. exists (S n), j. auto.
    - destruct (Hvis l' Hl') as (Hlt' & n' & d & Hd & Hsz).
      split; [assumption|]. exists n', d. split; [assumption|lia]. }
  destruct c as [ps|es [|]]; try discriminate.
  - destruct (JSON.distinct (map fst ps)); [|discriminate].
    destruct (shape_props (shape n h) ps) as [js|] eqn:Ep; [|discriminate].
    injection Hs as <-. cbn [depth].
    enough (list_max (map (fun kv => depth (snd kv)) js) <= length h - length visited) by lia.
    apply list_max_le, List.Forall_forall. intros d Hd.
    apply in_map_iff in Hd as (kv & <- & Hkv).
    destruct (shape_props_members _ _ _ Ep kv Hkv) as (x & Hx).
    apply (Hchild x _ Hx). cbn [JSON.size].
    pose proof (list_sum_bound (fun kv : string * json => JSON.size (snd kv)) js kv Hkv). lia.
  - destruct (shape_elems (shape n h) es) as [js|] eqn:Ep; [|discriminate].
    injection Hs as <-. cbn [depth].
    enough (list_max (map depth js) <= length h - length visited) by lia.
    apply list_max_le, List.Forall_forall. intros d Hd.
    apply in_map_iff in Hd as (jx & <- & Hjx).
    destruct (shape_elems_members _ _ _ Ep jx Hjx) as (x & Hx).
    apply (Hchild x _ Hx). cbn [JSON.size].
    pose proof (list_sum_bound JSON.size js jx Hjx). lia.
Qed.

Lemma shape_needs_depth (n : nat) : forall (h : list cell) (v : value) (j : json),
  shape n h v = Some j -> shape (depth j) h v = Some j.
Proof.
  induction n as [|n IH]; intros h v j Hs; [discriminate|]. simpl in Hs.
  destruct v as [| | | | |l|d]; try discriminate; try (now injection Hs as <-).
  2:{ destruct (Number.fractional d) eqn:Ed; [|discriminate]. injection Hs as <-.
      simpl. now rewrite Ed. }
  destruct (h !! l) as [[ps|es [|]]|] eqn:El; try discriminate.
  - destruct (JSON.distinct (map fst ps)) eqn:Ed; [|discriminate].
    destruct (shape_props (shape n h) ps) as [js|] eqn:Ep; [|discriminate].
    injection Hs as <-. cbn [depth shape]. rewrite El, Ed.
    assert (Hgo : forall qs ks, shape_props (shape n h) qs = Some ks ->
                    forall m, list_max (map (fun kv => depth (snd kv)) ks) <= m ->
                    shape_props (shape m h) qs = Some ks).
    { induction qs as [|[k x] r IHr]; intros ks; simpl.
      - now intros [= <-].
      - destruct (shape n h x) as [jx|] eqn:Ex; [|discriminate].
        destruct (shape_props (shape n h) r) as [ks'|] eqn:Er; [|discriminate].
        intros [= <-] m Hm. simpl in Hm.
        rewrite (shape_fuel _ m _ _ _ (IH _ _ _ Ex)) by lia.
        now rewrite (IHr ks' eq_refl m) by lia. }
    now rewrite (Hgo ps js Ep _ (Nat.le_refl _)).
  - destruct (shape_elems (shape n h) es) as [js|] eqn:Ep; [|discriminate].
    injection Hs as <-. cbn [depth shape]. rewrite El.
    assert (Hgo : forall qs ks, shape_elems (shape n h) qs = Some ks ->
                    forall m, list_max (map depth ks) <= m ->
                    shape_elems (shape m h) qs = Some ks).
    { induction qs as [|x r IHr]; intros ks; simpl.
      - now intros [= <-].
      - destruct (shape n h x) as [jx|] eqn:Ex; [|discriminate].
        destruct (shape_elems (shape n h) r) as [ks'|] eqn:Er; [|discriminate].
        intros [= <-] m Hm. simpl in Hm.
        rewrite (shape_fuel _ m _ _ _ (IH _ _ _ Ex)) by lia.
        now rewrite (IHr ks' eq_refl m) by lia. }
    now rewrite (Hgo es js Ep _ (Nat.le_refl _)).
Qed.

(** [represents] does not depend on the fuel: a value is the document [j]
    as soon as some fuel reads it as [j]. *)
Lemma represents_any_fuel (h : list cell) (v : value) (j : json) :
  represents h v j <-> exists n, shape n h v = Some j.
Proof.
  split; [intros H; now exists (heap_fuel h)|]. intros [n Hs].
  unfold represents, heap_fuel.
  apply (shape_fuel (depth j)); [now apply (shape_needs_depth n)|].
  assert (Hd : depth j + length (@nil loc) <= S (length h)).
  { apply (shape_depth n h v j Hs [] (NoDup_nil_2 (A:=loc))).
    intros l Hl. now apply elem_of_nil in Hl. }
  cbn [length] in Hd. lia.
Qed.

(** ** Running the module *)

Section Runs.
Context {L : Library}.

Lemma templates_split (h : list cell) :
  templates_intact h -> h = (initial_heap ++ drop (length initial_heap) h)%list.
Proof.
  unfold templates_intact. intros H.
  rewrite <- (take_drop (length initial_heap) h) at 1. now rewrite H.
Qed.

Lemma templates_extend (h ext : list cell) :
  templates_intact h -> templates_intact (h ++ ext).
Proof.
  intros H. unfold templates_intact.
  rewrite (templates_split h H), <- app_assoc.
  now rewrite take_app_length.
Qed.

(** The templates are the documents the source writes. *)
Lemma templates_represent (h : list cell) :
  templates_intact h ->
  read_prop h exports "BLACKMSG" = VRef 1
  /\ read_prop h exports "REDHELLO" = VRef 2
  /\ read_prop h exports "ERRORRESPONSE" = VRef 8
  /\ represents h (VRef 1) BLACKMSG_doc
  /\ represents h (VRef 2) REDHELLO_doc
  /\ represents h (VRef 8) ERRORRESPONSE_doc.
Proof.
  intros H. rewrite (templates_split h H).
  generalize (drop (length initial_heap) h). intros rest.
  repeat split.
Qed.

Lemma lookup_tail0 (h : list cell) (c : cell) (rest : list cell) :
  (h ++ c :: rest) !! length h = Some c.
Proof. now apply list_lookup_middle. Qed.

Lemma lookup_tail1 (h : list cell) (c0 c1 : cell) (rest : list cell) :
  (h ++ c0 :: c1 :: rest) !! S (length h) = Some c1.
Proof.
  change (h ++ c0 :: c1 :: rest)%list with (h ++ [c0] ++ c1 :: rest)%list.
  rewrite app_assoc. apply list_lookup_middle. rewrite length_app. simpl. lia.
Qed.

Lemma insert_tail0 (h : list cell) (x c : cell) (rest : list cell) :
  <[length h := x]> (h ++ c :: rest) = (h ++ x :: rest)%list.
Proof. rewrite insert_app_r_alt by lia. now rewrite Nat.sub_diag. Qed.

Lemma insert_tail1 (h : list cell) (x c0 c1 : cell) (rest : list cell) :
  <[S (length h) := x]> (h ++ c0 :: c1 :: rest) = (h ++ c0 :: x :: rest)%list.
Proof.
  rewrite insert_app_r_alt by lia.
  now replace (S (length h) - length h) with 1 by lia.
Qed.

Lemma write_prop_last (h : list cell) (c : cell) (name : string) (v : value) :
  write_prop (h ++ [c]) (VRef (length h)) name v = (h ++ [cell_set name v c])%list.
Proof.
  unfold write_prop. rewrite list_lookup_middle by reflexivity.
  rewrite insert_app_r_alt by lia. now rewrite Nat.sub_diag.
Qed.

(** [JSON.parse(JSON.stringify(v))] on a value that is a document [j]
    allocates a fresh copy of [j]. *)
Lemma deep_copy (v : value) (j : json) (w : world) :
  represents (heap w) v j ->
  bind (JSON_stringify v) (fun text => JSON_parse (text_of text)) w
  = (inr (alloc j (heap w)).1, with_heap (alloc j (heap w)).2 w).
Proof.
  intros Hr. unfold bind, JSON_stringify, JSON_parse.
  rewrite (shape_reify _ _ _ _ Hr). cbn [option_map text_of default from_option id].
  rewrite parse_text_print
    by (apply well_formed_exact; eapply shape_well_formed; exact Hr).
  now destruct (alloc j (heap w)).
Qed.

Lemma alloc_BLACKMSG (h : list cell) :
  alloc BLACKMSG_doc h
  = (VRef (length h),
     (h ++ [envelope (VStr EmptyString) (VStr EmptyString) (VStr EmptyString)])%list).
Proof. reflexivity. Qed.

Lemma alloc_REDHELLO (h : list cell) :
  alloc REDHELLO_doc h
  = (VRef (S (length h)),
     (h ++ [CArr [] [];
            CObj [("jsonrpc", VStr "2.0"); ("method", VStr "hello");
                  ("params", VRef (length h)); ("id", VNum 0)]])%list).
Proof.
  cbn. rewrite length_app, <- app_assoc. cbn. now rewrite Nat.add_1_r.
Qed.

Lemma alloc_ERRORRESPONSE (h : list cell) :
  alloc ERRORRESPONSE_doc h
  = (VRef (S (length h)),
     (h ++ [CObj [("code", VNum 0); ("message", VStr EmptyString)];
            CObj [("jsonrpc", VStr "2.0"); ("error", VRef (length h));
                  ("id", VNum 0)]])%list).
Proof.
  cbn. rewrite length_app, <- app_assoc. cbn. now rewrite Nat.add_1_r.
Qed.

(** The encoder, when every library call succeeds. *)
Lemma redToBlack_run (sk pk m : value) (w : world) (j : json)
      (cipher : bytes) (used : nat) (k : privkey) (s : signature) (enc : bytes) :
  templates_intact (heap w) ->
  reify (heap_fuel (heap w)) (heap w) m = Some (Some j) ->
  ecies_encrypt (fun i => tape w (cursor w + i)) pk (Buffer_from_utf8 (JSON.print j))
    = Some (cipher, used) ->
  keyFromPrivate sk = Some k ->
  sign k (sha256 cipher) = Some s ->
  encodePoint (getPublic k) true = Some enc ->
  redToBlack sk pk m w
  = (inr (VRef (length (heap w))),
     World (heap w ++ [envelope (VStr (Hex.encode cipher))
                                (VStr (Hex.encode (toDER s)))
                                (VStr (Hex.encode enc))])
           (tape w) (cursor w + used)
           (trace w ++ [EvEncrypt pk (Buffer_from_utf8 (JSON.print j));
                        EvHash cipher; EvKeyFromPrivate sk; EvSign (sha256 cipher)])).
Proof.
  intros Ht Hm He Hk Hs Hp.
  destruct (templates_represent _ Ht) as (Hb & _ & _ & Hbd & _).
  unfold redToBlack.
  unfold bind at 1. unfold JSON_stringify at 1.
  rewrite Hm. cbn [option_map].
  unfold bind at 1. cbn [Buffer_from ret].
  unfold bind at 1. unfold ecies_encrypt_call, bind, log. cbn [heap tape cursor trace].
  rewrite He. cbn [heap tape cursor trace].
  unfold createHash_sha256_digest, bind, log, ret. cbn [heap tape cursor trace].
  unfold ec_keyFromPrivate, bind, log, lift. rewrite Hk. cbn [ret heap tape cursor trace].
  unfold key_sign, bind, log, lift. rewrite Hs. cbn [ret heap tape cursor trace].
  unfold point_encode_hex. rewrite Hp. cbn [ret].
  unfold get_prop at 1. cbn [non_null exports heap]. rewrite Hb.
  unfold JSON_stringify, JSON_parse. cbn [heap tape cursor trace].
  rewrite (shape_reify _ _ _ _ Hbd). cbn [option_map text_of default from_option id].
  rewrite parse_text_print by reflexivity. rewrite alloc_BLACKMSG.
  unfold set_prop, with_heap, envelope. cbn [non_null heap tape cursor trace].
  rewrite !write_prop_last. cbn [cell_set assoc_set String.eqb Ascii.eqb Bool.eqb].
  rewrite <- !app_assoc. reflexivity.
Qed.

(** Hex decoding reads the heap and changes nothing. *)
Lemma Buffer_from_hex_pure (v : value) (w : world) :
  (Buffer_from_hex v w).2 = w.
Proof.
  unfold Buffer_from_hex, lift, ret, throw.
  destruct v; try reflexivity. now destruct (Buffer_from_object (heap w) l).
Qed.

(** The decoder decodes the two hex fields and hands the bytes on. *)
Lemma blackToRed_normal (sk b : value) (w : world) :
  blackToRed sk b w
  = if non_null b then
      match (Buffer_from_hex (read_prop (heap w) b "msghex") w).1 with
      | inl e => (inl e, w)
      | inr msg =>
          match (Buffer_from_hex (read_prop (heap w) b "sighex") w).1 with
          | inl e => (inl e, w)
          | inr sig =>
              verified_decrypt sk msg sig (read_prop (heap w) b "spkhex") w
          end
      end
    else (inl TypeError, w).
Proof.
  unfold blackToRed, bind at 1, get_prop at 1.
  destruct (non_null b) eqn:Hb; [|reflexivity].
  unfold bind at 1.
  pose proof (Buffer_from_hex_pure (read_prop (heap w) b "msghex") w) as H1.
  destruct (Buffer_from_hex (read_prop (heap w) b "msghex") w) as [[e|msg] w1];
    cbn [fst snd] in *; subst w1; [reflexivity|].
  unfold bind at 1, get_prop at 1. rewrite Hb.
  unfold bind at 1.
  pose proof (Buffer_from_hex_pure (read_prop (heap w) b "sighex") w) as H2.
  destruct (Buffer_from_hex (read_prop (heap w) b "sighex") w) as [[e|sig] w1];
    cbn [fst snd] in *; subst w1; [reflexivity|].
  unfold verified_decrypt, createHash_sha256_digest, bind, log, ret, get_prop.
  cbn [heap tape cursor trace]. now rewrite Hb.
Qed.

Lemma blackToRed_fields (sk b : value) (w : world) (x y : string) :
  non_null b = true ->
  read_prop (heap w) b "msghex" = VStr x ->
  read_prop (heap w) b "sighex" = VStr y ->
  blackToRed sk b w
  = verified_decrypt sk (Hex.decode x) (Hex.decode y) (read_prop (heap w) b "spkhex") w.
Proof. intros Hb Hx Hy. now rewrite blackToRed_normal, Hb, Hx, Hy. Qed.

(** The decoder on bytes, call by call. *)
Lemma verified_decrypt_cases (sk : value) (msg sig : bytes) (spk : value) (w : world) :
  verified_decrypt sk msg sig spk w
  = match keyFromPublic spk with
    | None => (inl KeyError, after w [EvHash msg; EvKeyFromPublic spk])
    | Some pk =>
        match verify pk (sha256 msg) sig with
        | None =>
            (inl SignatureError,
             after w [EvHash msg; EvKeyFromPublic spk; EvVerify pk (sha256 msg) sig])
        | Some false =>
            (inl SenderVerificationFailure,
             after w [EvHash msg; EvKeyFromPublic spk; EvVerify pk (sha256 msg) sig])
        | Some true =>
            match ecies_decrypt sk msg with
            | None =>
                (inl DecryptError,
                 after w [EvHash msg; EvKeyFromPublic spk;
                          EvVerify pk (sha256 msg) sig; EvDecrypt sk msg])
            | Some red =>
                JSON_parse (Buffer_toString red)
                  (after w [EvHash msg; EvKeyFromPublic spk;
                            EvVerify pk (sha256 msg) sig; EvDecrypt sk msg])
            end
        end
    end.
Proof.
  unfold verified_decrypt, createHash_sha256_digest, ec_keyFromPublic, key_verify,
    ecies_decrypt_call, bind, log, lift, ret, throw, after.
  cbn [heap tape cursor trace].
  destruct (keyFromPublic spk) as [pk|]; [|now rewrite <- !app_assoc].
  destruct (verify pk (sha256 msg) sig) as [[|]|]; cbn [negb heap tape cursor trace];
    cbv iota; rewrite <- ?app_assoc; try reflexivity.
  destruct (ecies_decrypt sk msg) as [red|]; reflexivity.
Qed.

Ltac heap_step :=
  unfold read_prop, write_prop;
  rewrite ?lookup_tail1, ?lookup_tail0, ?insert_tail1, ?insert_tail0;
  cbn [cell_props assoc_get assoc_set cell_set default from_option id non_null
       String.eqb Ascii.eqb Bool.eqb heap tape cursor trace].

(** The hello factory: a copy of the template after the existing cells,
    then the array of the session key, then the assignment. *)
Lemma makeRedHello_run (s : value) (w : world) :
  templates_intact (heap w) ->
  makeRedHello s w
  = (inr (VRef (S (length (heap w)))),
     with_heap
       (heap w ++
        [CArr [] [];
         CObj [("jsonrpc", VStr "2.0"); ("method", VStr "hello");
               ("params", VRef (S (S (length (heap w))))); ("id", VNum 0)];
         CArr [s] []]) w).
Proof.
  intros Ht. destruct (templates_represent _ Ht) as (_ & Hh & _ & _ & Hd & _).
  unfold makeRedHello, bind, get_prop, JSON_stringify, JSON_parse, new_cell, set_prop, ret.
  cbn [non_null exports]. rewrite Hh.
  rewrite (shape_reify _ _ _ _ Hd). cbn [option_map text_of default from_option id].
  rewrite parse_text_print by reflexivity. rewrite alloc_REDHELLO.
  unfold with_heap. cbn [non_null heap tape cursor trace].
  rewrite length_app. cbn [length]. rewrite Nat.add_comm. cbn [Nat.add].
  rewrite <- app_assoc. cbn [app]. heap_step. reflexivity.
Qed.

(** The error factory. *)
Lemma makeErrorObj_run (errcode errmessage reqid : value) (w : world) :
  templates_intact (heap w) ->
  makeErrorObj errcode errmessage reqid w
  = (inr (VRef (S (length (heap w)))),
     with_heap
       (heap w ++
        [CObj [("code", errcode); ("message", errmessage)];
         CObj [("jsonrpc", VStr "2.0"); ("error", VRef (length (heap w)));
               ("id", reqid)]]) w).
Proof.
  intros Ht. destruct (templates_represent _ Ht) as (_ & _ & He & _ & _ & Hd).
  unfold makeErrorObj, bind, get_prop, JSON_stringify, JSON_parse, set_prop, ret.
  cbn [non_null exports]. rewrite He.
  rewrite (shape_reify _ _ _ _ Hd). cbn [option_map text_of default from_option id].
  rewrite parse_text_print by reflexivity. rewrite alloc_ERRORRESPONSE.
  unfold with_heap. cbn [non_null heap tape cursor trace].
  repeat heap_step. reflexivity.
Qed.

(** Whenever the encoder returns, every library call succeeded and the
    envelope is the one of [redToBlack_run]. *)
Lemma redToBlack_inv (sk pk m : value) (w : world) (b : value) (w' : world) :
  templates_intact (heap w) ->
  redToBlack sk pk m w = (inr b, w') ->
  exists j cipher used k s enc,
    reify (heap_fuel (heap w)) (heap w) m = Some (Some j)
    /\ ecies_encrypt (fun i => tape w (cursor w + i)) pk
         (Buffer_from_utf8 (JSON.print j)) = Some (cipher, used)
    /\ keyFromPrivate sk = Some k
    /\ sign k (sha256 cipher) = Some s
    /\ encodePoint (getPublic k) true = Some enc.
Proof.
  intros Ht Hrun. unfold redToBlack in Hrun.
  unfold bind at 1 in Hrun. unfold JSON_stringify at 1 in Hrun.
  destruct (reify (heap_fuel (heap w)) (heap w) m) as [[j|]|] eqn:Ej;
    try discriminate.
  exists j. cbn [option_map] in Hrun.
  unfold bind at 1 in Hrun. cbn [Buffer_from ret] in Hrun.
  unfold bind at 1 in Hrun.
  unfold ecies_encrypt_call, bind, log in Hrun. cbn [heap tape cursor trace] in Hrun.
  destruct (ecies_encrypt _ pk _) as [[cipher used]|] eqn:Ee; try discriminate.
  exists cipher, used. cbn [heap tape cursor trace] in Hrun.
  unfold createHash_sha256_digest, bind, log, ret in Hrun.
  cbn [heap tape cursor trace] in Hrun.
  unfold ec_keyFromPrivate, bind, log, lift in Hrun.
  destruct (keyFromPrivate sk) as [k|] eqn:Ek; try discriminate.
  exists k. cbn [ret heap tape cursor trace] in Hrun.
  unfold key_sign, bind, log, lift in Hrun.
  destruct (sign k (sha256 cipher)) as [s|] eqn:Es; try discriminate.
  exists s. cbn [ret heap tape cursor trace] in Hrun.
  unfold point_encode_hex in Hrun.
  destruct (encodePoint (getPublic k) true) as [enc|] eqn:Ep; try discriminate.
  exists enc. auto.
Qed.

(** The key generator, when the library accepts the drawn bytes. *)
Lemma makeKey_run (w : world) (k : privkey) (enc : bytes) :
  keyFromPrivate (VStr (Hex.encode (map (tape w) (seq (cursor w) 32)))) = Some k ->
  encodePoint (getPublic k) false = Some enc ->
  makeKey w
  = (inr (VRef (length (heap w))),
     World (heap w ++
            [CObj [("prv", VStr (Hex.encode (map (tape w) (seq (cursor w) 32))));
                   ("pub", VStr (Hex.encode enc))]])
           (tape w) (cursor w + 32)
           (trace w ++
            [EvRandom 32;
             EvKeyFromPrivate (VStr (Hex.encode (map (tape w) (seq (cursor w) 32))))])).
Proof.
  intros Hk Hp.
  unfold makeKey, randomBytes, ec_keyFromPrivate, log, lift, point_encode_hex,
    new_cell, with_heap. unfold bind.
  cbn [heap tape cursor trace]. rewrite Hk. cbn [ret heap tape cursor trace].
  rewrite Hp. cbn [ret heap tape cursor trace]. now rewrite <- app_assoc.
Qed.
End Runs.

(** ** The validators *)

Lemma strict_eq_str (v : value) (s : string) :
  strict_eq v (VStr s) = true <-> v = VStr s.
Proof.
  unfold strict_eq. destruct v; simpl; try (split; [discriminate|congruence]).
  rewrite String.eqb_eq. split; congruence.
Qed.

(** C7: [isJSONRPC(obj)] is true exactly when [obj] is not null, its
    [jsonrpc] is the string "2.0", its [id] is not null and one of [method],
    [error], [result] is not null; it accepts
    [{jsonrpc:"2.0", id:1, method:"x"}] and rejects
    [{jsonrpc:"1.0", id:1, method:"x"}] and [{jsonrpc:"2.0", id:1}]. *)
Theorem isJSONRPC_spec :
  (forall (h : list cell) (obj : value),
      isJSONRPC h obj = true <->
      non_null obj = true
      /\ read_prop h obj "jsonrpc" = VStr "2.0"
      /\ non_null (read_prop h obj "id") = true
      /\ (non_null (read_prop h obj "method") = true
          \/ non_null (read_prop h obj "error") = true
          \/ non_null (read_prop h obj "result") = true))
  /\ isJSONRPC [CObj [("jsonrpc", VStr "2.0"); ("id", VNum 1); ("method", VStr "x")]]
       (VRef 0) = true
  /\ isJSONRPC [CObj [("jsonrpc", VStr "1.0"); ("id", VNum 1); ("method", VStr "x")]]
       (VRef 0) = false
  /\ isJSONRPC [CObj [("jsonrpc", VStr "2.0"); ("id", VNum 1)]] (VRef 0) = false.
Proof.
  split; [|repeat split].
  intros h obj. unfold isJSONRPC.
  rewrite !andb_true_iff, !orb_true_iff, strict_eq_str. split.
  - intros ((((Ho & _) & Hj) & Hi) & Hm). tauto.
  - intros (Ho & Hj & Hi & Hm). rewrite Hj. repeat split; tauto.
Qed.

(** C8: [isBlackMsg(obj)] is true exactly when [obj] is not null and its
    [msghex], [sighex] and [spkhex] are not null, whatever they hold: it
    accepts [{msghex:"a", sighex:"b", spkhex:"c"}], whose fields are not
    even hex, and rejects [{msghex:"a"}] and [null]. *)
Theorem isBlackMsg_spec :
  (forall (h : list cell) (obj : value),
      isBlackMsg h obj = true <->
      non_null obj = true
      /\ non_null (read_prop h obj "msghex") = true
      /\ non_null (read_prop h obj "sighex") = true
      /\ non_null (read_prop h obj "spkhex") = true)
  /\ isBlackMsg [envelope (VStr "a") (VStr "b") (VStr "c")] (VRef 0) = true
  /\ Hex.valid "a" = false
  /\ isBlackMsg [CObj [("msghex", VStr "a")]] (VRef 0) = false
  /\ (forall h : list cell, isBlackMsg h VNull = false).
Proof.
  split; [|repeat split].
  intros h obj. unfold isBlackMsg. rewrite !andb_true_iff. tauto.
Qed.

(** ** The message factories *)

Section Factories.
Context {L : Library}.

Lemma lookup_tail2 (h : list cell) (c0 c1 c2 : cell) (rest : list cell) :
  (h ++ c0 :: c1 :: c2 :: rest) !! S (S (length h)) = Some c2.
Proof.
  rewrite lookup_app_r by lia.
  now replace (S (S (length h)) - length h) with 2 by lia.
Qed.

Lemma hello_represented (h : list cell) (s : string) :
  represents
    (h ++ [CArr [] [];
           CObj [("jsonrpc", VStr "2.0"); ("method", VStr "hello");
                 ("params", VRef (S (S (length h)))); ("id", VNum 0)];
           CArr [VStr s] []])
    (VRef (S (length h))) (hello_doc s).
Proof.
  unfold represents, heap_fuel. rewrite length_app. cbn [length].
  rewrite Nat.add_comm. cbn [Nat.add shape].
  rewrite lookup_tail1. cbn [map fst JSON.distinct existsb String.eqb Ascii.eqb Bool.eqb
                             negb andb orb shape_props shape].
  rewrite lookup_tail2. reflexivity.
Qed.

Lemma error_represented (h : list cell) (c : Z) (m : string) (i : Z) :
  represents
    (h ++ [CObj [("code", VNum c); ("message", VStr m)];
           CObj [("jsonrpc", VStr "2.0"); ("error", VRef (length h)); ("id", VNum i)]])
    (VRef (S (length h))) (error_doc c m i).
Proof.
  unfold represents, heap_fuel. rewrite length_app. cbn [length].
  rewrite Nat.add_comm. cbn [Nat.add shape].
  rewrite lookup_tail1. cbn [map fst JSON.distinct existsb String.eqb Ascii.eqb Bool.eqb
                             negb andb orb shape_props shape].
  rewrite lookup_tail0. reflexivity.
Qed.

End Factories.

(** ** The encoder and the decoder *)

Section Transform.
Context {L : Library} {Laws : LibraryLaws L}.

Lemma envelope_fields (h : list cell) (x y z : value) :
  read_prop (h ++ [envelope x y z]) (VRef (length h)) "msghex" = x
  /\ read_prop (h ++ [envelope x y z]) (VRef (length h)) "sighex" = y
  /\ read_prop (h ++ [envelope x y z]) (VRef (length h)) "spkhex" = z.
Proof. unfold read_prop. rewrite lookup_tail0. repeat split. Qed.

(** With a valid sender key, a valid recipient public key and a message
    that is a document, every step of the encoder succeeds. *)
Lemma encoder_succeeds (skA pkB skB : string) (m : value) (j : json) (w : world) :
  valid_secret_hex skA -> valid_key_pair skB pkB ->
  templates_intact (heap w) -> represents (heap w) m j ->
  exists cipher used k s enc,
    ecies_encrypt (fun i => tape w (cursor w + i)) (VStr pkB)
      (Buffer_from_utf8 (JSON.print j)) = Some (cipher, used)
    /\ ecies_decrypt (VStr skB) cipher = Some (Buffer_from_utf8 (JSON.print j))
    /\ keyFromPrivate (VStr skA) = Some k
    /\ sign k (sha256 cipher) = Some s
    /\ encodePoint (getPublic k) true = Some enc
    /\ redToBlack (VStr skA) (VStr pkB) m w
       = (inr (VRef (length (heap w))),
          World (heap w ++ [envelope (VStr (Hex.encode cipher))
                                     (VStr (Hex.encode (toDER s)))
                                     (VStr (Hex.encode enc))])
                (tape w) (cursor w + used)
                (trace w ++ [EvEncrypt (VStr pkB) (Buffer_from_utf8 (JSON.print j));
                             EvHash cipher; EvKeyFromPrivate (VStr skA);
                             EvSign (sha256 cipher)])).
Proof.
  intros HA HB Ht Hm.
  destruct (ecies_decrypt_encrypt skB pkB (fun i => tape w (cursor w + i))
              (Buffer_from_utf8 (JSON.print j)) HB) as (cipher & used & He & Hd).
  destruct (keyFromPrivate_valid skA HA) as (k & Hk & Henc).
  destruct (sign_valid skA k (sha256 cipher) HA Hk) as (s & Hs).
  destruct (Henc true) as (enc & Hp).
  exists cipher, used, k, s, enc. repeat (split; [assumption|]).
  apply (redToBlack_run _ _ _ _ j cipher used k s enc); try assumption.
  now apply shape_reify.
Qed.


(** C3: in every envelope that [redToBlack] returns, [sighex] is the hex
    text of the DER form of the signature, under the sender's private key,
    of the SHA-256 digest (32 bytes) of the bytes in [msghex], and those
    bytes are the ciphertext of the serialised message, not the serialised
    message; with valid keys and a message that is a document, an envelope
    is returned. *)
Theorem sighex_signs_ciphertext_hash (w : world) (m : value) :
  templates_intact (heap w) ->
  (forall (sk pk b : value) (w' : world),
      redToBlack sk pk m w = (inr b, w') ->
      exists (j : json) (cipher : bytes) (used : nat) (k : privkey) (s : signature),
        reify (heap_fuel (heap w)) (heap w) m = Some (Some j)
        /\ ecies_encrypt (fun i => tape w (cursor w + i)) pk
             (Buffer_from_utf8 (JSON.print j)) = Some (cipher, used)
        /\ read_prop (heap w') b "msghex" = VStr (Hex.encode cipher)
        /\ keyFromPrivate sk = Some k
        /\ sign k (sha256 cipher) = Some s
        /\ length (sha256 cipher) = 32
        /\ read_prop (heap w') b "sighex" = VStr (Hex.encode (toDER s)))
  /\ (forall (skA pkB skB : string) (j : json),
      valid_secret_hex skA -> valid_key_pair skB pkB -> represents (heap w) m j ->
      exists (b : value) (w' : world),
        redToBlack (VStr skA) (VStr pkB) m w = (inr b, w')).
Proof.
  intros Ht. split.
  - intros sk pk b w' Hrun.
    destruct (redToBlack_inv sk pk m w b w' Ht Hrun)
      as (j & cipher & used & k & s & enc & Hj & He & Hk & Hs & Hp).
    rewrite (redToBlack_run sk pk m w j cipher used k s enc Ht Hj He Hk Hs Hp) in Hrun.
    injection Hrun as <- <-. cbn [heap].
    destruct (envelope_fields (heap w) (VStr (Hex.encode cipher))
                (VStr (Hex.encode (toDER s))) (VStr (Hex.encode enc)))
      as (Hx & Hy & _).
    exists j, cipher, used, k, s. repeat split; try assumption. apply sha256_length.
  - intros skA pkB skB j HA HB Hm.
    destruct (encoder_succeeds skA pkB skB m j w HA HB Ht Hm)
      as (cipher & used & k & s & enc & _ & _ & _ & _ & _ & Hrun).
    eauto.
Qed.

Lemma JSON_parse_print (j : json) (w : world) :
  JSON.well_formed j = true ->
  exists (v : value) (new : list cell),
    JSON_parse (Buffer_toString (Buffer_from_utf8 (JSON.print j))) w
    = (inr v, with_heap (heap w ++ new) w)
    /\ represents (heap w ++ new) v j.
Proof.
  intros Hwf. unfold JSON_parse, Buffer_toString, Buffer_from_utf8.
  rewrite string_of_list_byte_of_string, parse_text_print by (now apply well_formed_exact).
  destruct (alloc j (heap w)) as [v h'] eqn:Ea.
  destruct (alloc_represents j (heap w) v h' Hwf Ea) as ((new & ->) & Hr).
  now exists v, new.
Qed.

(** With a valid sender key and a valid recipient public key, every step of
    the encoder succeeds on a message that [JSON.stringify] gives a text
    for. *)
Lemma encoder_succeeds_text (skA pkB skB : string) (m : value) (j : json) (w : world) :
  valid_secret_hex skA -> valid_key_pair skB pkB ->
  templates_intact (heap w) ->
  reify (heap_fuel (heap w)) (heap w) m = Some (Some j) ->
  exists cipher used k s enc,
    ecies_decrypt (VStr skB) cipher = Some (Buffer_from_utf8 (JSON.print j))
    /\ sign k (sha256 cipher) = Some s
    /\ encodePoint (getPublic k) true = Some enc
    /\ redToBlack (VStr skA) (VStr pkB) m w
       = (inr (VRef (length (heap w))),
          World (heap w ++ [envelope (VStr (Hex.encode cipher))
                                     (VStr (Hex.encode (toDER s)))
                                     (VStr (Hex.encode enc))])
                (tape w) (cursor w + used)
                (trace w ++ [EvEncrypt (VStr pkB) (Buffer_from_utf8 (JSON.print j));
                             EvHash cipher; EvKeyFromPrivate (VStr skA);
                             EvSign (sha256 cipher)])).
Proof.
  intros HA HB Ht Hm.
  destruct (ecies_decrypt_encrypt skB pkB (fun i => tape w (cursor w + i))
              (Buffer_from_utf8 (JSON.print j)) HB) as (cipher & used & He & Hd).
  destruct (keyFromPrivate_valid skA HA) as (k & Hk & Henc).
  destruct (sign_valid skA k (sha256 cipher) HA Hk) as (s & Hs).
  destruct (Henc true) as (enc & Hp).
  exists cipher, used, k, s, enc. repeat (split; [assumption|]).
  now apply (redToBlack_run _ _ _ _ j cipher used k s enc).
Qed.

(** The decoder on the envelope that the encoder made returns what
    [JSON.parse] returns on the text that was encrypted. *)
Lemma decoder_run (skB : value) (h : list cell) (tp : nat -> byte) (c : nat)
      (tr : list event) (cipher : bytes) (k : privkey) (s : signature) (enc : bytes)
      (text : string) :
  encodePoint (getPublic k) true = Some enc ->
  sign k (sha256 cipher) = Some s ->
  ecies_decrypt skB cipher = Some (Buffer_from_utf8 text) ->
  blackToRed skB (VRef (length h))
    (World (h ++ [envelope (VStr (Hex.encode cipher)) (VStr (Hex.encode (toDER s)))
                           (VStr (Hex.encode enc))]) tp c tr)
  = JSON_parse text
      (after (World (h ++ [envelope (VStr (Hex.encode cipher))
                                    (VStr (Hex.encode (toDER s)))
                                    (VStr (Hex.encode enc))]) tp c tr)
         [EvHash cipher; EvKeyFromPublic (VStr (Hex.encode enc));
          EvVerify (getPublic k) (sha256 cipher) (toDER s);
          EvDecrypt skB cipher]).
Proof.
  intros Hp Hs Hd.
  destruct (envelope_fields h (VStr (Hex.encode cipher))
              (VStr (Hex.encode (toDER s))) (VStr (Hex.encode enc)))
    as (Hx & Hy & Hz).
  rewrite (blackToRed_fields _ _ _ (Hex.encode cipher) (Hex.encode (toDER s)));
    [|reflexivity|exact Hx|exact Hy].
  cbn [heap]. rewrite Hz, !hex_decode_encode, verified_decrypt_cases.
  rewrite (keyFromPublic_encode _ _ _ Hp), (verify_sign _ _ _ Hs), Hd.
  unfold Buffer_toString, Buffer_from_utf8.
  now rewrite string_of_list_byte_of_string.
Qed.

(** C1 (as the code has it): for valid key pairs [(skA, pkA)] and
    [(skB, pkB)] and every message [m] that [JSON.stringify] gives a text
    for, [redToBlack(skA, pkB, m)] returns an envelope and
    [blackToRed(skB, envelope)] returns what [JSON.parse] returns on that
    text, in a world that differs from the one after the encoder by the
    record of the library calls only.  When [m] is a JSON document, that is
    [null], a boolean, a string, an integer, a double with a fractional part
    or an array or object of documents, with no [undefined], [NaN], infinity
    or negative zero in it, the value returned is the same document. *)
Theorem blackToRed_redToBlack (skA pkA skB pkB : string) (m : value) (w : world) :
  valid_key_pair skA pkA -> valid_key_pair skB pkB ->
  templates_intact (heap w) ->
  (forall text : string,
      (JSON_stringify m w).1 = inr (Some text) ->
      exists (b : value) (w1 : world) (evs : list event),
        redToBlack (VStr skA) (VStr pkB) m w = (inr b, w1)
        /\ blackToRed (VStr skB) b w1 = JSON_parse text (after w1 evs))
  /\ (forall j : json,
      represents (heap w) m j ->
      exists (b : value) (w1 : world) (m' : value) (w2 : world),
        redToBlack (VStr skA) (VStr pkB) m w = (inr b, w1)
        /\ blackToRed (VStr skB) b w1 = (inr m', w2)
        /\ represents (heap w2) m' j).
Proof.
  intros [HA _] HB Ht.
  assert (G : forall j : json,
             reify (heap_fuel (heap w)) (heap w) m = Some (Some j) ->
             exists (b : value) (w1 : world) (evs : list event),
               redToBlack (VStr skA) (VStr pkB) m w = (inr b, w1)
               /\ blackToRed (VStr skB) b w1 = JSON_parse (JSON.print j) (after w1 evs)).
  { intros j Hm.
    destruct (encoder_succeeds_text skA pkB skB m j w HA HB Ht Hm)
      as (cipher & used & k & s & enc & Hd & Hs & Hp & Hrun).
    do 3 eexists. split; [exact Hrun|].
    apply (decoder_run _ _ _ _ _ cipher k s enc (JSON.print j) Hp Hs Hd). }
  split.
  - intros text Hs. unfold JSON_stringify in Hs.
    destruct (reify (heap_fuel (heap w)) (heap w) m) as [[j|]|] eqn:Hm;
      try discriminate.
    cbn [option_map fst] in Hs. injection Hs as <-. now apply G.
  - intros j Hm.
    destruct (G j (shape_reify _ _ _ _ Hm)) as (b & w1 & evs & Hrun & Hdec).
    assert (Hwf : JSON.well_formed j = true) by (eapply shape_well_formed; exact Hm).
    unfold JSON_parse in Hdec.
    rewrite parse_text_print in Hdec by (now apply well_formed_exact).
    destruct (alloc j (heap (after w1 evs))) as [m' h'] eqn:Ea.
    destruct (alloc_represents j _ m' h' Hwf Ea) as (_ & Hr).
    exists b, w1, m'. eexists. split; [exact Hrun|]. split; [exact Hdec|exact Hr].
Qed.
End Transform.

(** ** Order of the decoder's library calls *)

Section Decoder.
Context {L : Library}.

Lemma JSON_parse_trace (text : string) (w : world) :
  trace (JSON_parse text w).2 = trace w.
Proof.
  unfold JSON_parse. destruct (JSON.parse_text text) as [j|]; [|reflexivity].
  now destruct (alloc j (heap w)).
Qed.

Lemma guarded_nil (sk spk : value) (r : exn + value) : guarded sk spk r [].
Proof.
  split.
  - intros i skv ct Hi. now rewrite lookup_nil in Hi.
  - intros pk h sig Hin. now apply elem_of_nil in Hin.
Qed.

Lemma verified_decrypt_guarded (sk : value) (msg sig : bytes) (spk : value) (w : world) :
  exists evs : list event,
    trace (verified_decrypt sk msg sig spk w).2 = trace w ++ evs
    /\ guarded sk spk (verified_decrypt sk msg sig spk w).1 evs.
Proof.
  rewrite verified_decrypt_cases.
  destruct (keyFromPublic spk) as [pk|] eqn:Ek.
  2:{ eexists. split; [reflexivity|]. split.
      - intros [|[|i]] skv ct Hi; discriminate.
      - intros pk h s Hin. rewrite !elem_of_cons, elem_of_nil in Hin.
        intuition discriminate. }
  destruct (verify pk (sha256 msg) sig) as [[|]|] eqn:Ev.
  - assert (Hg : forall r, guarded sk spk r
              [EvHash msg; EvKeyFromPublic spk; EvVerify pk (sha256 msg) sig;
               EvDecrypt sk msg]).
    { intros r. split.
      - intros [|[|[|[|i]]]] skv ct Hi; try discriminate.
        injection Hi as <- <-. split; [reflexivity|].
        exists pk, sig, 2. auto.
      - intros pk' h s Hin Hrej. rewrite !elem_of_cons, elem_of_nil in Hin.
        destruct Hin as [Hin|[Hin|[Hin|[Hin|[]]]]]; try discriminate.
        injection Hin as -> -> ->. congruence. }
    destruct (ecies_decrypt sk msg) as [red|]; eexists; (split; [|apply Hg]).
    + now rewrite JSON_parse_trace.
    + reflexivity.
  - eexists. split; [reflexivity|]. split.
    + intros [|[|[|i]]] skv ct Hi; discriminate.
    + intros pk' h s Hin _. split; [reflexivity|].
      intros skv ct Hd. rewrite !elem_of_cons, elem_of_nil in Hd.
      intuition discriminate.
  - eexists. split; [reflexivity|]. split.
    + intros [|[|[|i]]] skv ct Hi; discriminate.
    + intros pk' h s Hin Hrej. rewrite !elem_of_cons, elem_of_nil in Hin.
      destruct Hin as [Hin|[Hin|[Hin|[]]]]; try discriminate.
      injection Hin as -> -> ->. congruence.
Qed.

Lemma Buffer_from_hex_error (v : value) (w : world) (e : exn) :
  (Buffer_from_hex v w).1 = inl e -> e = TypeError.
Proof.
  unfold Buffer_from_hex, lift, ret, throw.
  destruct v; cbn [fst]; try congruence.
  destruct (Buffer_from_object (heap w) l); cbn [fst]; congruence.
Qed.

(** C2 (as the code has it): every run of [blackToRed], call by call.  An
    envelope that is [null] or [undefined], or a [msghex] or [sighex] that is
    not text, ends the run with a TypeError and no library call.  Otherwise
    the decoded [msghex] is hashed, the key is read from [spkhex] (a key the
    library cannot read ends the run with its error), and [verify] is called
    on that key, the hash and the decoded [sighex]: when it returns [true],
    and only then, the decryption with the recipient's private key is called,
    right after it and on the decoded [msghex]; when it returns [false] the run
    ends with ['Sender verification failure']; when the library cannot read
    the signature the run ends with the library's error.  In the last two
    cases nothing is decrypted.  So, in every run, a decryption is preceded
    by the verification, under the key of [spkhex], of the hash of what is
    decrypted, and that verification returned [true]. *)
Theorem verification_precedes_decryption (sk b : value) (w : world) :
  match non_null b,
        (Buffer_from_hex (read_prop (heap w) b "msghex") w).1,
        (Buffer_from_hex (read_prop (heap w) b "sighex") w).1 with
  | true, inr msg, inr sig =>
      match keyFromPublic (read_prop (heap w) b "spkhex") with
      | None =>
          blackToRed sk b w
          = (inl KeyError,
             after w [EvHash msg; EvKeyFromPublic (read_prop (heap w) b "spkhex")])
      | Some pk =>
          match verify pk (sha256 msg) sig with
          | Some true =>
              blackToRed sk b w
              = match ecies_decrypt sk msg with
                | Some red =>
                    JSON_parse (Buffer_toString red)
                      (after w [EvHash msg;
                                EvKeyFromPublic (read_prop (heap w) b "spkhex");
                                EvVerify pk (sha256 msg) sig; EvDecrypt sk msg])
                | None =>
                    (inl DecryptError,
                     after w [EvHash msg;
                              EvKeyFromPublic (read_prop (heap w) b "spkhex");
                              EvVerify pk (sha256 msg) sig; EvDecrypt sk msg])
                end
              /\ trace (blackToRed sk b w).2
                 = trace w ++ [EvHash msg;
                               EvKeyFromPublic (read_prop (heap w) b "spkhex");
                               EvVerify pk (sha256 msg) sig; EvDecrypt sk msg]
          | Some false =>
              blackToRed sk b w
              = (inl SenderVerificationFailure,
                 after w [EvHash msg; EvKeyFromPublic (read_prop (heap w) b "spkhex");
                          EvVerify pk (sha256 msg) sig])
          | None =>
              blackToRed sk b w
              = (inl SignatureError,
                 after w [EvHash msg; EvKeyFromPublic (read_prop (heap w) b "spkhex");
                          EvVerify pk (sha256 msg) sig])
          end
      end
  | _, _, _ => blackToRed sk b w = (inl TypeError, w)
  end
  /\ exists evs : list event,
      trace (blackToRed sk b w).2 = trace w ++ evs
      /\ (forall (i : nat) (skv : value) (ct : bytes),
            evs !! i = Some (EvDecrypt skv ct) ->
            skv = sk
            /\ exists (pk : point) (sig : bytes) (n : nat),
                i = S n
                /\ evs !! n = Some (EvVerify pk (sha256 ct) sig)
                /\ keyFromPublic (read_prop (heap w) b "spkhex") = Some pk
                /\ verify pk (sha256 ct) sig = Some true)
      /\ (forall (pk : point) (h sig : bytes),
            EvVerify pk h sig ∈ evs -> verify pk h sig = Some false ->
            (blackToRed sk b w).1 = inl SenderVerificationFailure
            /\ forall skv ct, EvDecrypt skv ct ∉ evs).
Proof.
  split.
  - rewrite blackToRed_normal.
    destruct (non_null b); [|reflexivity].
    pose proof (Buffer_from_hex_error (read_prop (heap w) b "msghex") w) as E1.
    destruct (Buffer_from_hex (read_prop (heap w) b "msghex") w).1 as [e|msg].
    { now rewrite (E1 e eq_refl). }
    pose proof (Buffer_from_hex_error (read_prop (heap w) b "sighex") w) as E2.
    destruct (Buffer_from_hex (read_prop (heap w) b "sighex") w).1 as [e|sig].
    { now rewrite (E2 e eq_refl). }
    rewrite verified_decrypt_cases.
    destruct (keyFromPublic (read_prop (heap w) b "spkhex")) as [pk|]; [|reflexivity].
    destruct (verify pk (sha256 msg) sig) as [[|]|]; try reflexivity.
    split; [reflexivity|].
    destruct (ecies_decrypt sk msg) as [red|]; [|reflexivity].
    now rewrite JSON_parse_trace.
  - rewrite blackToRed_normal.
    assert (Hstop : forall e : exn,
               exists evs, trace (inl e : exn + value, w).2 = trace w ++ evs
                           /\ guarded sk (read_prop (heap w) b "spkhex") (inl e) evs).
    { intros e. exists []. split; [symmetry; apply app_nil_r|apply guarded_nil]. }
    destruct (non_null b); [|apply Hstop].
    destruct (Buffer_from_hex (read_prop (heap w) b "msghex") w).1 as [e|msg];
      [apply Hstop|].
    destruct (Buffer_from_hex (read_prop (heap w) b "sighex") w).1 as [e|sig];
      [apply Hstop|].
    apply verified_decrypt_guarded.
Qed.
End Decoder.

(** ** Hex fields that are not valid hex *)

Section Lenient.
Context {L : Library}.

Lemma verified_decrypt_hashes (sk : value) (msg sig : bytes) (spk : value) (w : world) :
  exists evs, trace (verified_decrypt sk msg sig spk w).2 = trace w ++ EvHash msg :: evs.
Proof.
  rewrite verified_decrypt_cases.
  destruct (keyFromPublic spk) as [pk|]; [|eexists; reflexivity].
  destruct (verify pk (sha256 msg) sig) as [[|]|]; try (eexists; reflexivity).
  destruct (ecies_decrypt sk msg) as [red|]; [|eexists; reflexivity].
  rewrite JSON_parse_trace. eexists; reflexivity.
Qed.

(** C5 (as the code has it): [blackToRed] does not validate its hex
    fields.  For every envelope whose [msghex] and [sighex] are strings,
    each field is decoded up to its first pair of characters that is not
    two hex digits (an empty field gives no bytes) and nothing fails at
    that step: the SHA-256 of the decoded [msghex] is always computed, and
    the run is that of verification and decryption on the decoded bytes. *)
Theorem hex_fields_not_validated (sk b : value) (w : world) (x y : string) :
  non_null b = true ->
  read_prop (heap w) b "msghex" = VStr x ->
  read_prop (heap w) b "sighex" = VStr y ->
  blackToRed sk b w
  = verified_decrypt sk (Hex.decode x) (Hex.decode y) (read_prop (heap w) b "spkhex") w
  /\ (exists evs,
        trace (blackToRed sk b w).2 = trace w ++ EvHash (Hex.decode x) :: evs)
  /\ (forall (bs : bytes) (tail : string),
        hex_stop tail -> x = (Hex.encode bs ++ tail)%string -> Hex.decode x = bs)
  /\ (x = EmptyString -> Hex.decode x = []).
Proof.
  intros Hb Hx Hy. rewrite (blackToRed_fields sk b w x y Hb Hx Hy).
  split; [reflexivity|]. split; [apply verified_decrypt_hashes|]. split.
  - intros bs tail Hstop ->. rewrite hex_decode_encode_app by assumption.
    rewrite hex_decode_stop by assumption. apply app_nil_r.
  - now intros ->.
Qed.
End Lenient.

(** ** Tampering with an envelope, and the key generator *)

Section Tamper.
Context {L : Library} {Laws : LibraryLaws L} {Binding : SignatureBinding L}.

End Tamper.

(** ** The key generator *)

Section KeyGenerator.
Context {L : Library} {Laws : LibraryLaws L}.

(** C4 (as the code has it): when the 32 bytes it draws are a private key
    of the curve, [makeKey] returns [{prv, pub}] where [prv] is the hex
    text of those bytes and [pub] the hex text of the uncompressed encoding
    (65 bytes) of the public key of the private key read from [prv]; the
    two form a valid key pair and 32 bytes of entropy have been used. *)
Theorem makeKey_uncompressed (w : world) :
  valid_secret (map (tape w) (seq (cursor w) 32)) = true ->
  exists (k : privkey) (enc : bytes) (r : loc) (w' : world),
    makeKey w = (inr (VRef r), w')
    /\ keyFromPrivate (VStr (Hex.encode (map (tape w) (seq (cursor w) 32)))) = Some k
    /\ encodePoint (getPublic k) false = Some enc
    /\ length enc = 65
    /\ heap w' !! r
       = Some (CObj [("prv", VStr (Hex.encode (map (tape w) (seq (cursor w) 32))));
                     ("pub", VStr (Hex.encode enc))])
    /\ cursor w' = cursor w + 32
    /\ valid_key_pair (Hex.encode (map (tape w) (seq (cursor w) 32))) (Hex.encode enc).
Proof.
  intros Hv. set (random := map (tape w) (seq (cursor w) 32)) in *.
  assert (Hs : valid_secret_hex (Hex.encode random)).
  { split; [apply hex_encode_valid|now rewrite hex_decode_encode]. }
  destruct (keyFromPrivate_valid _ Hs) as (k & Hk & Henc).
  destruct (Henc false) as (enc & Hp).
  exists k, enc. do 2 eexists.
  split; [apply (makeKey_run w k enc Hk Hp)|]. cbn [heap cursor].
  repeat (split; [assumption|]).
  split; [apply (encodePoint_length _ _ _ Hp)|].
  split; [apply lookup_tail0|]. split; [reflexivity|].
  split; [assumption|]. exists k, false, enc. auto.
Qed.
End KeyGenerator.

(** ** The small instance satisfies what the libraries are trusted to do *)

Lemma bytes_eqb_refl (b : bytes) : Toy.bytes_eqb b b = true.
Proof.
  induction b as [|x r IH]; simpl; [reflexivity|].
  rewrite IH, andb_true_r. now apply Byte.byte_dec_lb.
Qed.

Lemma toy_decode_encode (p : bytes) (compact : bool) (enc : bytes) :
  Toy.encode p compact = Some enc -> Toy.decode (VStr (Hex.encode enc)) = Some p.
Proof.
  unfold Toy.encode, Toy.decode. rewrite hex_decode_encode.
  destruct (Nat.eqb_spec (length p) 32) as [Hl|]; [|discriminate].
  intros [= <-]. destruct compact.
  - now rewrite Hl.
  - rewrite length_app, Hl. cbn [Nat.eqb andb].
    rewrite take_app_length' by lia.
    rewrite drop_app_length' by lia.
    now rewrite bytes_eqb_refl.
Qed.

Lemma valid_secret_length (b : bytes) : valid_secret b = true -> length b = 32.
Proof.
  unfold valid_secret. intros H.
  apply andb_prop in H as [H _]. apply andb_prop in H as [H _].
  now apply Nat.eqb_eq.
Qed.

Lemma toy_laws : LibraryLaws Toy.library.
Proof.
  split; cbn [sha256 keyFromPrivate getPublic encodePoint sign toDER keyFromPublic verify
              ecies_encrypt ecies_decrypt Toy.library privkey point signature].
  - intros b. apply length_resize.
  - intros sk [_ Hs]. apply valid_secret_length in Hs.
    exists (Hex.decode sk). unfold Toy.key_of, Toy.encode, Toy.public.
    rewrite length_rev, Hs. cbn [Nat.eqb]. split; [reflexivity|eauto].
  - intros p compact enc. unfold Toy.encode.
    destruct (Nat.eqb_spec (length p) 32) as [Hl|]; [|discriminate].
    intros [= <-]. destruct compact; cbn [length]; rewrite ?length_app; lia.
  - apply toy_decode_encode.
  - intros sk k hash _ _. unfold Toy.mksig. eauto.
  - intros k hash s [= <-]. unfold Toy.check, Toy.der. cbn [fst snd].
    now rewrite bytes_eqb_refl.
  - intros sk pk entropy plain (Hsec & k & compact & enc & Hk & He & ->).
    cbn [keyFromPrivate getPublic encodePoint Toy.library] in Hk, He.
    unfold Toy.encrypt, Toy.decrypt.
    rewrite (toy_decode_encode _ _ _ He), Hk. do 2 eexists. split; [reflexivity|].
    assert (Hp : length (Toy.public k) = 32).
    { unfold Toy.encode in He. destruct (Nat.eqb_spec (length (Toy.public k)) 32);
        [assumption|discriminate]. }
    assert (Hc : length (map entropy (seq 0 32)) = 32)
      by now rewrite length_map, length_seq.
    rewrite !length_app, Hc, Hp.
    replace (Nat.leb 64 (32 + (32 + length (rev plain)))) with true
      by (symmetry; apply Nat.leb_le; lia).
    rewrite (drop_app_length' _ _ 32) by lia.
    rewrite (take_app_length' _ _ 32) by lia. rewrite bytes_eqb_refl. cbn [andb].
    change 64 with (32 + 32). rewrite <- drop_drop.
    rewrite (drop_app_length' _ _ 32) by lia. rewrite (drop_app_length' _ _ 32) by lia.
    now rewrite rev_involutive.
Qed.

Lemma bytes_eqb_eq (a b : bytes) : Toy.bytes_eqb a b = true -> a = b.
Proof.
  revert b. induction a as [|x a IH]; intros [|y b]; simpl; try discriminate.
  - reflexivity.
  - intros H. apply andb_prop in H as [Hx Hr].
    apply Byte.byte_dec_bl in Hx. now rewrite Hx, (IH b Hr).
Qed.

Lemma toy_binding : SignatureBinding Toy.library.
Proof.
  split; cbn [sha256 getPublic sign toDER verify Toy.library privkey point signature].
  - intros k h s p h' [= <-]. unfold Toy.check, Toy.der. eauto.
  - intros k h s h' [= <-]. unfold Toy.check, Toy.der. cbn [fst snd].
    intros [= H]. apply bytes_eqb_eq in H. now apply app_inv_head in H.
Qed.

(** ** The module at concrete inputs *)

Import Toy.

Ltac toy_key_pair :=
  split;
  [ split; vm_compute; reflexivity
  | eexists; exists true; eexists; repeat split; vm_compute; reflexivity ].

(** C1 on a request with the numbers 0.1, -2 and 1.5, from [skA] to
    [pkB]. *)
Lemma blackToRed_redToBlack_witness :
  (forall text : string,
      (JSON_stringify fraction_message fraction_world).1 = inr (Some text) ->
      exists (b : value) (w1 : world) (evs : list event),
        redToBlack (VStr skA) (VStr pkB) fraction_message fraction_world = (inr b, w1)
        /\ blackToRed (VStr skB) b w1 = JSON_parse text (after w1 evs))
  /\ (forall j : json,
      represents (heap fraction_world) fraction_message j ->
      exists (b : value) (w1 : world) (m' : value) (w2 : world),
        redToBlack (VStr skA) (VStr pkB) fraction_message fraction_world = (inr b, w1)
        /\ blackToRed (VStr skB) b w1 = (inr m', w2)
        /\ represents (heap w2) m' j).
Proof.
  apply (blackToRed_redToBlack (Laws := toy_laws) skA pkA skB pkB fraction_message
           fraction_world).
  - toy_key_pair.
  - toy_key_pair.
  - reflexivity.
Defined.

(** The sample request is a document, and the text of its numbers. *)
Example fraction_message_document :
  represents (heap fraction_world) fraction_message fraction_doc
  /\ (JSON_stringify fraction_message fraction_world).1
     = inr (Some (JSON.print fraction_doc))
  /\ JSON.print (JArr [JDouble one_tenth; JNum (-2); JDouble one_and_a_half])
     = "[0.1,-2,1.5]".
Proof. repeat split; vm_compute; reflexivity. Qed.

(** Numbers of JSON texts and the texts of numbers: literals with a
    fraction or an exponent are read to the nearest double, and a double is
    written with the fewest digits that read back to it. *)
Example number_texts :
  JSON.parse_text "1.5" = Some (JDouble one_and_a_half)
  /\ JSON.parse_text "0.1" = Some (JDouble one_tenth)
  /\ JSON.parse_text "0.1000000000000000055511151231257827" = Some (JDouble one_tenth)
  /\ JSON.parse_text "15e-1" = Some (JDouble one_and_a_half)
  /\ JSON.parse_text "1e2" = Some (JNum 100)
  /\ JSON.parse_text "1.0" = Some (JNum 1)
  /\ JSON.parse_text "-0" = Some (JDouble (S754_zero true))
  /\ JSON.parse_text "1e400" = Some (JDouble (S754_infinity false))
  /\ JSON.parse_text "1e-400" = Some (JNum 0)
  /\ JSON.parse_text ".5" = None
  /\ JSON.parse_text "1." = None
  /\ JSON.parse_text "1e" = None
  /\ JSON.parse_text "01" = None
  /\ JSON.print (JDouble (Number.of_decimal false 1 21)) = "1e+21"
  /\ JSON.print (JDouble (Number.of_decimal true 1 (-7))) = "-1e-7"
  /\ JSON.print (JDouble (Number.of_decimal false 123456 (-3))) = "123.456"
  /\ JSON.print (JDouble (Number.of_decimal false 1 (-6))) = "0.000001"
  /\ JSON.print (JDouble (S754_finite false 1 (-1074))) = "5e-324"
  /\ JSON.print (JDouble (S754_finite false 9007199254740991 971))
     = "1.7976931348623157e+308"
  /\ JSON.print (JDouble S754_nan) = "null"
  /\ JSON.print (JDouble (S754_infinity true)) = "null"
  /\ JSON.print (JDouble (S754_zero true)) = "0"
  /\ Number.fractional one_tenth = true
  /\ Number.fractional (S754_finite false 1 (-1074)) = true
  /\ Number.fractional (S754_finite false 9007199254740991 971) = false
  /\ Number.fractional S754_nan = false
  /\ Number.fractional (S754_zero true) = false.
Proof.
  repeat match goal with |- _ /\ _ => split end; vm_compute; reflexivity.
Qed.

(** C1, counterexample: the request
    [{jsonrpc: "2.0", method: "scale", params: [undefined], id: NaN}] is
    accepted by [isJSONRPC] and [JSON.stringify] gives a text for it; what
    [blackToRed(skB, redToBlack(skA, pkB, .))] returns has [null] for the
    parameter and for the [id], and [isJSONRPC] rejects it. *)
Lemma round_trip_changes_message :
  isJSONRPC (heap lossy_world) lossy_message = true
  /\ (JSON_stringify lossy_message lossy_world).1
     = inr (Some (JSON.print lossy_doc))
  /\ read_prop (heap lossy_world) lossy_message "id" = VDouble S754_nan
  /\ (bind (redToBlack (VStr skA) (VStr pkB) lossy_message) (blackToRed (VStr skB))
        lossy_world).1 = inr (VRef 14)
  /\ represents
       (heap (bind (redToBlack (VStr skA) (VStr pkB) lossy_message)
                (blackToRed (VStr skB)) lossy_world).2)
       (VRef 14) lossy_doc
  /\ read_prop
       (heap (bind (redToBlack (VStr skA) (VStr pkB) lossy_message)
                (blackToRed (VStr skB)) lossy_world).2)
       (VRef 14) "id" = VNull
  /\ isJSONRPC
       (heap (bind (redToBlack (VStr skA) (VStr pkB) lossy_message)
                (blackToRed (VStr skB)) lossy_world).2)
       (VRef 14) = false.
Proof. repeat split; vm_compute; reflexivity. Qed.

(** C3 on the same request. *)
Lemma sighex_signs_ciphertext_hash_witness :
  (forall (sk pk b : value) (w' : world),
      redToBlack sk pk message world1 = (inr b, w') ->
      exists (j : json) (cipher : bytes) (used : nat) (k : privkey) (s : signature),
        reify (heap_fuel (heap world1)) (heap world1) message = Some (Some j)
        /\ ecies_encrypt (fun i => tape world1 (cursor world1 + i)) pk
             (Buffer_from_utf8 (JSON.print j)) = Some (cipher, used)
        /\ read_prop (heap w') b "msghex" = VStr (Hex.encode cipher)
        /\ keyFromPrivate sk = Some k
        /\ sign k (sha256 cipher) = Some s
        /\ length (sha256 cipher) = 32
        /\ read_prop (heap w') b "sighex" = VStr (Hex.encode (toDER s)))
  /\ (forall (skA pkB skB : string) (j : json),
      valid_secret_hex skA -> valid_key_pair skB pkB ->
      represents (heap world1) message j ->
      exists (b : value) (w' : world),
        redToBlack (VStr skA) (VStr pkB) message world1 = (inr b, w')).
Proof.
  apply (sighex_signs_ciphertext_hash (Laws := toy_laws) world1 message).
  reflexivity.
Defined.



(** The two examples of the specification. *)
Example makeRedHello_abc :
  (makeRedHello (VStr "abc") world0).1 = inr (VRef 11)
  /\ represents (heap (makeRedHello (VStr "abc") world0).2) (VRef 11) (hello_doc "abc").
Proof. split; vm_compute; reflexivity. Qed.

Example makeErrorObj_404 :
  (makeErrorObj (VNum 404) (VStr "not found") (VNum 7) world0).1 = inr (VRef 11)
  /\ represents (heap (makeErrorObj (VNum 404) (VStr "not found") (VNum 7) world0).2)
       (VRef 11) (error_doc 404 "not found" 7).
Proof. split; vm_compute; reflexivity. Qed.

(** C4 in the world of the freshly loaded module, whose entropy is
    [01 01 ...]. *)
Lemma makeKey_uncompressed_witness :
  exists (k : privkey) (enc : bytes) (r : loc) (w' : world),
    makeKey world0 = (inr (VRef r), w')
    /\ keyFromPrivate (VStr (Hex.encode (map (tape world0) (seq (cursor world0) 32)))) = Some k
    /\ encodePoint (getPublic k) false = Some enc
    /\ length enc = 65
    /\ heap w' !! r
       = Some (CObj [("prv", VStr (Hex.encode (map (tape world0) (seq (cursor world0) 32))));
                     ("pub", VStr (Hex.encode enc))])
    /\ cursor w' = cursor world0 + 32
    /\ valid_key_pair (Hex.encode (map (tape world0) (seq (cursor world0) 32)))
         (Hex.encode enc).
Proof.
  apply (makeKey_uncompressed (Laws := toy_laws) world0). vm_compute. reflexivity.
Defined.

(** C4, counterexample: [makeKey] returns the object at location 10; its
    private key is 32 bytes [01], and its [pub] is the 130 hex digits of the
    uncompressed encoding of the public key, not the 66 hex digits of the
    compressed encoding. *)
Lemma makeKey_pub_not_compressed :
  (makeKey world0).1 = inr (VRef 10)
  /\ read_prop (heap (makeKey world0).2) (VRef 10) "prv" = VStr (Hex.encode (repeat x01 32))
  /\ keyFromPrivate (VStr (Hex.encode (repeat x01 32))) = Some (repeat x01 32)
  /\ encodePoint (getPublic (repeat x01 32)) true = Some (x02 :: repeat x01 32)
  /\ encodePoint (getPublic (repeat x01 32)) false = Some (x04 :: repeat x01 64)
  /\ read_prop (heap (makeKey world0).2) (VRef 10) "pub"
     = VStr (Hex.encode (x04 :: repeat x01 64))
  /\ read_prop (heap (makeKey world0).2) (VRef 10) "pub"
     <> VStr (Hex.encode (x02 :: repeat x01 32)).
Proof.
  repeat split; try (vm_compute; reflexivity). vm_compute. discriminate.
Qed.

(** C5 on the envelope sent in [Toy.sent]. *)
Lemma hex_fields_not_validated_witness :
  blackToRed (VStr skB) (VRef 10)
    (receive (VStr (field "msghex")) (VStr (field "sighex")) (VStr (field "spkhex")) world0)
  = verified_decrypt (VStr skB) (Hex.decode (field "msghex")) (Hex.decode (field "sighex"))
      (read_prop
         (heap (receive (VStr (field "msghex")) (VStr (field "sighex"))
                  (VStr (field "spkhex")) world0))
         (VRef 10) "spkhex")
      (receive (VStr (field "msghex")) (VStr (field "sighex")) (VStr (field "spkhex")) world0)
  /\ (exists evs,
        trace (blackToRed (VStr skB) (VRef 10)
                 (receive (VStr (field "msghex")) (VStr (field "sighex"))
                    (VStr (field "spkhex")) world0)).2
        = trace (receive (VStr (field "msghex")) (VStr (field "sighex"))
                   (VStr (field "spkhex")) world0)
          ++ EvHash (Hex.decode (field "msghex")) :: evs)
  /\ (forall (bs : bytes) (tail : string),
        hex_stop tail -> field "msghex" = (Hex.encode bs ++ tail)%string ->
        Hex.decode (field "msghex") = bs)
  /\ (field "msghex" = EmptyString -> Hex.decode (field "msghex") = []).
Proof.
  apply (hex_fields_not_validated (VStr skB) (VRef 10)
           (receive (VStr (field "msghex")) (VStr (field "sighex")) (VStr (field "spkhex"))
              world0)
           (field "msghex") (field "sighex")); vm_compute; reflexivity.
Defined.

(** C5, counterexample: an envelope whose [msghex] is not valid hex (the
    ciphertext followed by [zz]) is decoded to the message that was sent,
    and an envelope with empty [msghex] and [sighex] gets as far as the
    hash and the signature check. *)
Lemma blackToRed_accepts_invalid_hex :
  Hex.valid (field "msghex" ++ "zz") = false
  /\ (blackToRed (VStr skB) (VRef 10)
        (receive (VStr (field "msghex" ++ "zz")) (VStr (field "sighex"))
           (VStr (field "spkhex")) world0)).1 = inr (VRef 12)
  /\ represents
       (heap (blackToRed (VStr skB) (VRef 10)
                (receive (VStr (field "msghex" ++ "zz")) (VStr (field "sighex"))
                   (VStr (field "spkhex")) world0)).2)
       (VRef 12) request
  /\ trace (blackToRed (VStr skB) (VRef 10)
              (receive (VStr EmptyString) (VStr EmptyString)
                 (VStr (field "spkhex")) world0)).2
     = [EvHash []; EvKeyFromPublic (VStr (field "spkhex"));
        EvVerify (repeat x0a 32) (sha256 []) []].
Proof. repeat split; vm_compute; reflexivity. Qed.



(** C6 on changed bytes: with character 200 of the [msghex] that was sent,
    the hex digit [6], replaced by [0], the decoded bytes and their hash are
    others, the signature check fails and nothing is decrypted; with the
    hex digit [a] at position 3 of the [sighex] replaced by [f] the
    signature is rejected, and with its first character replaced it cannot be
    read. *)
Example tampered_fields_are_rejected :
  String.get 200 (field "msghex") = Some "6"%char
  /\ sha256 (Hex.decode (set_char 200 "0" (field "msghex")))
     <> sha256 (Hex.decode (field "msghex"))
  /\ (blackToRed (VStr skB) (VRef 10)
        (receive (VStr (set_char 200 "0" (field "msghex"))) (VStr (field "sighex"))
           (VStr (field "spkhex")) world0)).1 = inl SenderVerificationFailure
  /\ trace (blackToRed (VStr skB) (VRef 10)
              (receive (VStr (set_char 200 "0" (field "msghex"))) (VStr (field "sighex"))
                 (VStr (field "spkhex")) world0)).2
     = [EvHash (Hex.decode (set_char 200 "0" (field "msghex")));
        EvKeyFromPublic (VStr (field "spkhex"));
        EvVerify (repeat x0a 32)
                 (sha256 (Hex.decode (set_char 200 "0" (field "msghex"))))
                 (Hex.decode (field "sighex"))]
  /\ String.get 3 (field "sighex") = Some "a"%char
  /\ (blackToRed (VStr skB) (VRef 10)
        (receive (VStr (field "msghex")) (VStr (set_char 3 "f" (field "sighex")))
           (VStr (field "spkhex")) world0)).1 = inl SenderVerificationFailure
  /\ (blackToRed (VStr skB) (VRef 10)
        (receive (VStr (field "msghex")) (VStr (set_char 0 "f" (field "sighex")))
           (VStr (field "spkhex")) world0)).1 = inl SignatureError.
Proof.
  repeat split; try (vm_compute; reflexivity). vm_compute. discriminate.
Qed.

(** C2, counterexample: with a [sighex] that is not a signature, the text
    [00] in place of the one that was sent, the verification does not return
    [false]: the library cannot read the signature, and the run ends with
    the library's error, not with ['Sender verification failure'].  Nothing
    is decrypted. *)
Lemma blackToRed_unreadable_signature :
  verify (repeat x0a 32) (sha256 (Hex.decode (field "msghex"))) (Hex.decode "00") = None
  /\ (blackToRed (VStr skB) (VRef 10)
        (receive (VStr (field "msghex")) (VStr "00") (VStr (field "spkhex")) world0)).1
     = inl SignatureError
  /\ (blackToRed (VStr skB) (VRef 10)
        (receive (VStr (field "msghex")) (VStr "00") (VStr (field "spkhex")) world0)).1
     <> inl SenderVerificationFailure
  /\ trace (blackToRed (VStr skB) (VRef 10)
              (receive (VStr (field "msghex")) (VStr "00") (VStr (field "spkhex"))
                 world0)).2
     = [EvHash (Hex.decode (field "msghex")); EvKeyFromPublic (VStr (field "spkhex"));
        EvVerify (repeat x0a 32) (sha256 (Hex.decode (field "msghex"))) (Hex.decode "00")].
Proof.
  repeat split; try (vm_compute; reflexivity). vm_compute. discriminate.
Qed.

(** The self-test of the module runs to its end: two keys, a hello, a
    request from the client to the service and a reply back, each decoded
    after one accepted verification. *)
Example smokeTest_runs :
  (smokeTest (VNum 4242) world2).1 = inr tt
  /\ length (List.filter (fun e => match e with EvDecrypt _ _ => true | _ => false end)
               (trace (smokeTest (VNum 4242) world2).2)) = 2
  /\ cursor (smokeTest (VNum 4242) world2).2 = 128.
Proof. repeat split; vm_compute; reflexivity. Qed.

(** ** What the module never touches *)

Section Fresh.
Context {L : Library}.

Lemma assoc_set_refs (P : value -> Prop) (k : string) (v : value)
      (ps : list (string * value)) :
  P v -> Forall (fun kv => P (snd kv)) ps ->
  Forall (fun kv => P (snd kv)) (assoc_set k v ps).
Proof.
  intros Hv. induction 1 as [|[k' v'] r Hx Hr IH]; simpl.
  - repeat constructor. exact Hv.
  - destruct (String.eqb k k'); constructor; auto.
Qed.

Lemma build_props_refs (P : value -> Prop) (kvs : list (string * value)) :
  Forall (fun kv => P (snd kv)) kvs ->
  Forall (fun kv => P (snd kv)) (build_props kvs).
Proof.
  unfold build_props.
  assert (Hgo : forall acc, Forall (fun kv => P (snd kv)) acc ->
                  Forall (fun kv => P (snd kv)) kvs ->
                  Forall (fun kv => P (snd kv))
                    (fold_left (fun a kv => assoc_set (fst kv) (snd kv) a) kvs acc)).
  { induction kvs as [|[k v] r IH]; intros acc Hacc Hk; simpl; [assumption|].
    apply Forall_cons in Hk as [Hv Hr]. apply IH; [|assumption].
    now apply assoc_set_refs. }
  intros H. apply Hgo; [constructor|assumption].
Qed.

Lemma fresh_value_weaken (n m : nat) (v : value) :
  n <= m -> fresh_value m v -> fresh_value n v.
Proof.
  intros Hnm H. unfold fresh_value in *.
  eapply Forall_impl; [exact H|]. intros l Hl. simpl in Hl. lia.
Qed.

Lemma props_refs_fresh (n : nat) (ps : list (string * value)) :
  Forall (fun kv => fresh_value n (snd kv)) ps ->
  Forall (fun l => n <= l) (flat_map (fun kv => value_refs (snd kv)) ps).
Proof.
  induction 1 as [|kv r Hx Hr IH]; simpl; [constructor|].
  apply Forall_app. split; assumption.
Qed.

Lemma elems_refs_fresh (n : nat) (es : list value) :
  Forall (fresh_value n) es -> Forall (fun l => n <= l) (flat_map value_refs es).
Proof.
  induction 1 as [|v r Hx Hr IH]; simpl; [constructor|].
  apply Forall_app. split; assumption.
Qed.

Lemma independent_weaken (n m : nat) (new : list cell) :
  n <= m -> independent m new -> independent n new.
Proof.
  intros Hnm H. unfold independent in *.
  eapply Forall_impl; [exact H|]. intros c Hc. simpl in Hc.
  eapply Forall_impl; [exact Hc|]. intros l Hl. simpl in Hl. lia.
Qed.

Lemma alloc_elems_fresh (l : list json) :
  Forall alloc_fresh l ->
  forall (h : list cell) (vs : list value) (h1 : list cell),
    alloc_elems alloc l h = (vs, h1) ->
    exists new, h1 = h ++ new /\ independent (length h) new
                /\ Forall (fresh_value (length h)) vs.
Proof.
  induction 1 as [|x r Hx Hr IH]; intros h vs h1 Ha; simpl in Ha.
  - injection Ha as <- <-. exists []. rewrite app_nil_r. repeat constructor.
  - destruct (alloc x h) as [v ha] eqn:Ex.
    destruct (alloc_elems alloc r ha) as [vs' hb] eqn:Er.
    injection Ha as <- <-.
    destruct (Hx h v ha Ex) as (n1 & -> & Hi1 & Hv1 & _).
    destruct (IH _ _ _ Er) as (n2 & -> & Hi2 & Hv2).
    rewrite length_app in Hi2, Hv2.
    exists (n1 ++ n2). rewrite app_assoc. split; [reflexivity|]. split.
    + apply Forall_app. split; [assumption|].
      apply (independent_weaken _ (length h + length n1)); [lia|assumption].
    + constructor; [assumption|].
      eapply Forall_impl; [exact Hv2|]. intros y. apply fresh_value_weaken. lia.
Qed.

Lemma alloc_props_fresh (l : list (string * json)) :
  Forall (fun kv => alloc_fresh (snd kv)) l ->
  forall (h : list cell) (kvs : list (string * value)) (h1 : list cell),
    alloc_props alloc l h = (kvs, h1) ->
    exists new, h1 = h ++ new /\ independent (length h) new
                /\ Forall (fun kv => fresh_value (length h) (snd kv)) kvs.
Proof.
  induction 1 as [|[k x] r Hx Hr IH]; intros h kvs h1 Ha; simpl in Ha.
  - injection Ha as <- <-. exists []. rewrite app_nil_r. repeat constructor.
  - destruct (alloc x h) as [v ha] eqn:Ex.
    destruct (alloc_props alloc r ha) as [kvs' hb] eqn:Er.
    injection Ha as <- <-.
    destruct (Hx h v ha Ex) as (n1 & -> & Hi1 & Hv1 & _).
    destruct (IH _ _ _ Er) as (n2 & -> & Hi2 & Hv2).
    rewrite length_app in Hi2, Hv2.
    exists (n1 ++ n2). rewrite app_assoc. split; [reflexivity|]. split.
    + apply Forall_app. split; [assumption|].
      apply (independent_weaken _ (length h + length n1)); [lia|assumption].
    + constructor; [assumption|].
      eapply Forall_impl; [exact Hv2|]. intros y. apply fresh_value_weaken. lia.
Qed.

(** [JSON.parse] allocates after the existing cells, the new cells refer to
    new cells only, and the value it returns is a primitive, with nothing
    allocated, or one of the new cells. *)
Lemma alloc_is_fresh (j : json) : alloc_fresh j.
Proof.
  induction j as [|b|z|d|s|l IH|l IH] using json_ind; intros h v h' Ha; simpl in Ha;
    try (injection Ha as <- <-; exists []; rewrite app_nil_r;
         repeat split; constructor).
  - destruct (alloc_elems alloc l h) as [vs h1] eqn:El. injection Ha as <- <-.
    destruct (alloc_elems_fresh l IH _ _ _ El) as (n1 & -> & Hi & Hv).
    exists (n1 ++ [CArr vs []]). rewrite app_assoc. split; [reflexivity|].
    split; [|split].
    + apply Forall_app. split; [assumption|]. repeat constructor.
      cbn [cell_refs]. rewrite app_nil_r. now apply elems_refs_fresh.
    + repeat constructor. rewrite length_app. lia.
    + rewrite !length_app. cbn [length]. lia.
  - destruct (alloc_props alloc l h) as [kvs h1] eqn:El. injection Ha as <- <-.
    destruct (alloc_props_fresh l IH _ _ _ El) as (n1 & -> & Hi & Hv).
    exists (n1 ++ [CObj (build_props kvs)]). rewrite app_assoc. split; [reflexivity|].
    split; [|split].
    + apply Forall_app. split; [assumption|]. repeat constructor.
      cbn [cell_refs]. apply props_refs_fresh. now apply build_props_refs.
    + repeat constructor. rewrite length_app. lia.
    + rewrite !length_app. cbn [length]. lia.
Qed.
End Fresh.

Section Keeps.
Context {L : Library}.

Lemma assoc_get_set_other (k k' : string) (x : value) (ps : list (string * value)) :
  k <> k' -> assoc_get k' (assoc_set k x ps) = assoc_get k' ps.
Proof.
  intros Hne. induction ps as [|[k0 v0] r IH]; simpl.
  - destruct (String.eqb_spec k' k); [congruence|reflexivity].
  - destruct (String.eqb_spec k k0) as [->|Hk]; simpl.
    + destruct (String.eqb_spec k' k0); [congruence|reflexivity].
    + destruct (String.eqb_spec k' k0); [reflexivity|assumption].
Qed.

(** An assignment to one property changes no other property, of any
    object. *)
Lemma read_prop_write_other (h : list cell) (t obj : value) (k k' : string) (x : value) :
  k <> k' -> read_prop (write_prop h t k x) obj k' = read_prop h obj k'.
Proof.
  intros Hne. unfold read_prop, write_prop.
  destruct obj as [| | | | |l|]; try reflexivity.
  destruct t as [| | | | |e|]; try reflexivity.
  destruct (h !! e) as [c|] eqn:Ee; [|reflexivity].
  destruct (Nat.eq_dec e l) as [->|Hel].
  - rewrite list_lookup_insert_eq by (eapply lookup_lt_Some; exact Ee).
    rewrite Ee. destruct c; cbn [cell_set cell_props]; now rewrite assoc_get_set_other.
  - now rewrite list_lookup_insert_ne.
Qed.

(** An assignment to a property of a value that is new to [h] leaves the
    cells of [h] as they are. *)
Lemma write_prop_keeps (h new : list cell) (t : value) (k : string) (x : value) :
  fresh_value (length h) t ->
  exists new', write_prop (h ++ new) t k x = h ++ new'.
Proof.
  intros Hf. unfold write_prop. destruct t as [| | | | |l|]; try (now exists new).
  destruct ((h ++ new) !! l) as [c|]; [|now exists new].
  unfold fresh_value in Hf. cbn [value_refs] in Hf.
  apply Forall_cons in Hf as [Hl _]. cbn beta in Hl.
  rewrite insert_app_r_alt by exact Hl. eauto.
Qed.

Lemma read_prop_fresh (h new : list cell) (obj : value) (k : string) :
  independent (length h) new -> fresh_value (length h) obj ->
  fresh_value (length h) (read_prop (h ++ new) obj k).
Proof.
  intros Hi Hf. unfold read_prop. destruct obj as [| | | | |l|]; try constructor.
  unfold fresh_value in Hf. cbn [value_refs] in Hf.
  apply Forall_cons in Hf as [Hl _]. cbn beta in Hl.
  rewrite lookup_app_r by exact Hl.
  destruct (new !! (l - length h)) as [c|] eqn:Ec; [|constructor].
  unfold independent in Hi. rewrite Forall_lookup in Hi. specialize (Hi _ _ Ec).
  cbn beta in Hi.
  assert (Hps : Forall (fun l0 => length h <= l0)
                  (flat_map (fun kv => value_refs (snd kv)) (cell_props c))).
  { destruct c as [ps|es ps]; cbn [cell_refs cell_props] in *; [assumption|].
    now apply Forall_app in Hi as [_ Hi]. }
  clear Hi. induction (cell_props c) as [|[k0 v0] r IH]; simpl; [constructor|].
  simpl in Hps. apply Forall_app in Hps as [Hv Hr].
  destruct (String.eqb k k0); [exact Hv|now apply IH].
Qed.

(** [JSON.parse] adds cells after the existing ones and returns a new
    value; when it throws, or returns a primitive, it adds nothing. *)
Lemma JSON_parse_grows (text : string) (w : world) :
  exists new,
    (JSON_parse text w).2 = with_heap (heap w ++ new) w
    /\ independent (length (heap w)) new
    /\ match (JSON_parse text w).1 with
       | inr v => fresh_value (length (heap w)) v /\ (non_null v = false -> new = [])
       | inl _ => new = []
       end.
Proof.
  unfold JSON_parse. destruct (JSON.parse_text text) as [j|].
  - destruct (alloc j (heap w)) as [v h'] eqn:Ea.
    destruct (alloc_is_fresh j _ _ _ Ea) as (new & -> & Hi & Hv & Hn).
    exists new. cbn [fst snd]. repeat split; try assumption.
    destruct v; try discriminate; intros _; exact Hn.
  - exists []. cbn [fst snd]. unfold with_heap. rewrite app_nil_r.
    destruct w; repeat split; constructor.
Qed.
End Keeps.

Section Untouched.
Context {L : Library}.

Lemma with_heap_same (w : world) : with_heap (heap w ++ []) w = w.
Proof. unfold with_heap. rewrite app_nil_r. now destruct w. Qed.

(** X1: whatever the state of the heap and of the exported templates, a
    call of [makeRedHello] or [makeErrorObj] leaves every existing cell as it
    was: the world after the call is the world before it with cells added
    at the end, also when the call throws.  The factories read no entropy and
    call no library. *)
Theorem factories_never_touch (w : world) :
  (forall s : value,
      exists new, (makeRedHello s w).2 = with_heap (heap w ++ new) w)
  /\ (forall errcode errmessage reqid : value,
      exists new, (makeErrorObj errcode errmessage reqid w).2 = with_heap (heap w ++ new) w).
Proof.
  split.
  - intros s. unfold makeRedHello, bind, get_prop. cbn [non_null exports].
    unfold JSON_stringify at 1.
    destruct (reify (heap_fuel (heap w)) (heap w) (read_prop (heap w) exports "REDHELLO"))
      as [oj|]; [|exists []; symmetry; apply with_heap_same].
    destruct (JSON_parse_grows (text_of (option_map JSON.print oj)) w)
      as (new & Hw & Hi & Hr).
    destruct (JSON_parse (text_of (option_map JSON.print oj)) w) as [[e|result] w1];
      cbn [fst snd] in *; subst w1; [now exists new|].
    unfold new_cell, set_prop, ret, with_heap. cbn [heap tape cursor trace].
    destruct (non_null result); [|now exists (new ++ [CArr [s] []]); rewrite app_assoc].
    rewrite <- app_assoc.
    destruct (write_prop_keeps (heap w) (new ++ [CArr [s] []]) result "params"
                (VRef (length (heap w ++ new))) (proj1 Hr)) as (new' & ->).
    now exists new'.
  - intros errcode errmessage reqid. unfold makeErrorObj, bind, get_prop at 1.
    cbn [non_null exports]. unfold JSON_stringify at 1.
    destruct (reify (heap_fuel (heap w)) (heap w)
                (read_prop (heap w) exports "ERRORRESPONSE"))
      as [oj|]; [|exists []; symmetry; apply with_heap_same].
    destruct (JSON_parse_grows (text_of (option_map JSON.print oj)) w)
      as (new & Hw & Hi & Hr).
    destruct (JSON_parse (text_of (option_map JSON.print oj)) w) as [[e|result] w1];
      cbn [fst snd] in *; subst w1; [now exists new|].
    destruct Hr as [Hres _].
    unfold get_prop, set_prop, ret, with_heap. cbn [heap tape cursor trace].
    destruct (non_null result) eqn:Hnn; [|now exists new].
    pose proof (read_prop_fresh (heap w) new result "error" Hi Hres) as Herr.
    destruct (non_null (read_prop (heap w ++ new) result "error")) eqn:Hne;
      [|now exists new].
    cbn [heap tape cursor trace]. rewrite ?Hnn. cbn [heap tape cursor trace].
    destruct (write_prop_keeps (heap w) new (read_prop (heap w ++ new) result "error")
                "code" errcode Herr) as (new1 & E1).
    rewrite E1.
    assert (Hsame : read_prop (heap w ++ new1) result "error"
                    = read_prop (heap w ++ new) result "error").
    { rewrite <- E1. now apply read_prop_write_other. }
    rewrite Hsame, Hne. cbn [heap tape cursor trace].
    destruct (write_prop_keeps (heap w) new1 (read_prop (heap w ++ new) result "error")
                "message" errmessage Herr) as (new2 & E2).
    rewrite E2. rewrite ?Hnn. cbn [heap tape cursor trace].
    destruct (write_prop_keeps (heap w) new2 result "id" reqid Hres) as (new3 & E3).
    rewrite E3. now exists new3.
Qed.
End Untouched.

Section EncoderKeeps.
Context {L : Library}.

(** The last lines of [redToBlack]: a copy of the template is filled. *)
Lemma fill_copy_keeps (template x y z : value) (w : world) :
  exists new,
    ((let* text := JSON_stringify template in
      let* result := JSON_parse (text_of text) in
      set_prop result "msghex" x;;
      set_prop result "sighex" y;;
      set_prop result "spkhex" z;;
      ret result) w).2 = with_heap (heap w ++ new) w
    /\ match ((let* text := JSON_stringify template in
               let* result := JSON_parse (text_of text) in
               set_prop result "msghex" x;;
               set_prop result "sighex" y;;
               set_prop result "spkhex" z;;
               ret result) w).1 with
       | inl _ => new = []
       | inr b => fresh_value (length (heap w)) b
       end.
Proof.
  unfold bind. unfold JSON_stringify at 1 2.
  destruct (reify (heap_fuel (heap w)) (heap w) template) as [oj|];
    [|exists []; split; [symmetry; apply with_heap_same|reflexivity]].
  destruct (JSON_parse_grows (text_of (option_map JSON.print oj)) w)
    as (new & Hw & Hi & Hr).
  destruct (JSON_parse (text_of (option_map JSON.print oj)) w) as [[e|result] w1];
    cbn [fst snd] in *; subst w1; [now exists new|].
  destruct Hr as [Hres Hnull].
  unfold set_prop, ret, with_heap. cbn [heap tape cursor trace].
  destruct (non_null result) eqn:Hnn.
  - cbn [heap tape cursor trace fst snd].
    destruct (write_prop_keeps (heap w) new result "msghex" x Hres) as (new1 & ->).
    destruct (write_prop_keeps (heap w) new1 result "sighex" y Hres) as (new2 & ->).
    destruct (write_prop_keeps (heap w) new2 result "spkhex" z Hres) as (new3 & ->).
    exists new3. split; [reflexivity|assumption].
  - cbn [fst snd]. rewrite (Hnull eq_refl). exists []. split; reflexivity.
Qed.

(** X2: whatever its arguments and the state of the heap, [redToBlack]
    leaves every existing cell, the message and the templates among them, as
    it was; the returned envelope is a cell that did not exist before, and
    when the call throws nothing has been allocated. *)
Theorem redToBlack_never_touches (sk pk m : value) (w : world) :
  exists new,
    heap (redToBlack sk pk m w).2 = heap w ++ new
    /\ tape (redToBlack sk pk m w).2 = tape w
    /\ match (redToBlack sk pk m w).1 with
       | inl _ => new = []
       | inr b => fresh_value (length (heap w)) b
       end.
Proof.
  change (keeps w (redToBlack sk pk m w)).
  assert (Hstop : forall (e : exn) (w' : world),
             heap w' = heap w -> tape w' = tape w -> keeps w (inl e, w')).
  { intros e w' Hh Ht. exists []. cbn [fst snd]. now rewrite app_nil_r. }
  unfold redToBlack.
  unfold bind at 1. unfold JSON_stringify at 1.
  destruct (reify (heap_fuel (heap w)) (heap w) m) as [oj|]; [|now apply Hstop].
  unfold bind at 1. unfold Buffer_from.
  destruct (option_map JSON.print oj) as [redstr|]; [|now apply Hstop].
  cbn [ret]. unfold bind at 1. unfold ecies_encrypt_call, bind, log.
  cbn [heap tape cursor trace].
  destruct (ecies_encrypt _ pk _) as [[cipher used]|]; [|now apply Hstop].
  unfold createHash_sha256_digest, bind, log, ret. cbn [heap tape cursor trace].
  unfold ec_keyFromPrivate, bind, log, lift.
  destruct (keyFromPrivate sk) as [k|]; [|now apply Hstop].
  cbn [ret heap tape cursor trace]. unfold key_sign, bind, log, lift.
  destruct (sign k (sha256 cipher)) as [s|]; [|now apply Hstop].
  cbn [ret heap tape cursor trace]. unfold point_encode_hex.
  destruct (encodePoint (getPublic k) true) as [enc|]; [|now apply Hstop].
  cbn [ret]. unfold get_prop at 1. cbn [non_null exports heap].
  match goal with
  | |- context [World ?h ?t ?c ?tr] => set (w4 := World h t c tr)
  end.
  destruct (fill_copy_keeps (read_prop (heap w) exports "BLACKMSG")
              (VStr (Hex.encode cipher)) (VStr (Hex.encode (toDER s)))
              (VStr (Hex.encode enc)) w4) as (new & Hw & Hr).
  unfold keeps. exists new. unfold bind, ret in *. rewrite Hw. repeat split. exact Hr.
Qed.
End EncoderKeeps.

(** ** The decoder leaves the heap and the entropy alone *)

Section DecoderKeeps.
Context {L : Library}.

(** X3: whatever its arguments, [blackToRed] changes no existing cell,
    reads no entropy, and allocates only the value it returns: when it
    throws, at whichever step, the heap is the one it started with. *)
Theorem blackToRed_never_touches (sk b : value) (w : world) :
  exists new,
    heap (blackToRed sk b w).2 = heap w ++ new
    /\ tape (blackToRed sk b w).2 = tape w
    /\ cursor (blackToRed sk b w).2 = cursor w
    /\ independent (length (heap w)) new
    /\ match (blackToRed sk b w).1 with
       | inl _ => new = []
       | inr m => fresh_value (length (heap w)) m
       end.
Proof.
  assert (Hstop : forall (e : exn) (w' : world),
             heap w' = heap w -> tape w' = tape w -> cursor w' = cursor w ->
             exists new,
               heap (inl e : exn + value, w').2 = heap w ++ new
               /\ tape (inl e : exn + value, w').2 = tape w
               /\ cursor (inl e : exn + value, w').2 = cursor w
               /\ independent (length (heap w)) new
               /\ match (inl e : exn + value, w').1 with
                  | inl _ => new = []
                  | inr m => fresh_value (length (heap w)) m
                  end).
  { intros e w' Hh Ht Hc. exists []. cbn [fst snd]. rewrite app_nil_r.
    repeat split; try assumption. constructor. }
  rewrite blackToRed_normal.
  destruct (non_null b); [|now apply Hstop].
  destruct (Buffer_from_hex (read_prop (heap w) b "msghex") w).1 as [e|msg];
    [now apply Hstop|].
  destruct (Buffer_from_hex (read_prop (heap w) b "sighex") w).1 as [e|sig];
    [now apply Hstop|].
  rewrite verified_decrypt_cases.
  destruct (keyFromPublic (read_prop (heap w) b "spkhex")) as [pk|];
    [|now apply Hstop].
  destruct (verify pk (sha256 msg) sig) as [[|]|]; try (now apply Hstop).
  destruct (ecies_decrypt sk msg) as [red|]; [|now apply Hstop].
  match goal with |- context [JSON_parse ?t ?w0] =>
    destruct (JSON_parse_grows t w0) as (new & Hw & Hi & Hr);
    destruct (JSON_parse t w0) as [[e|m] w1]
  end; cbn [fst snd after heap] in *; subst w1; cbn [with_heap heap tape cursor];
    exists new; repeat split; try assumption. apply Hr.
Qed.
End DecoderKeeps.

(** ** A message that cannot be serialised *)

Section Unserialisable.
Context {L : Library}.

(** X4: [redToBlack] calls the encryption, on the UTF-8 bytes of the text
    [JSON.stringify] gives for the message, exactly when the message has such
    a text; a message that is [undefined], or cyclic, ends the call with a
    TypeError before any library is called and with the world as it was. *)
Theorem redToBlack_unserialisable (sk pk m : value) (w : world) :
  match reify (heap_fuel (heap w)) (heap w) m with
  | Some (Some j) =>
      exists evs,
        trace (redToBlack sk pk m w).2
        = trace w ++ EvEncrypt pk (Buffer_from_utf8 (JSON.print j)) :: evs
  | _ => redToBlack sk pk m w = (inl TypeError, w)
  end
  /\ redToBlack sk pk VUndefined w = (inl TypeError, w).
Proof.
  split; [|reflexivity].
  destruct (reify (heap_fuel (heap w)) (heap w) m) as [[j|]|] eqn:Ej;
    unfold redToBlack; unfold bind at 1; unfold JSON_stringify at 1; rewrite Ej;
    try reflexivity.
  cbn [option_map]. unfold bind at 1. cbn [Buffer_from ret].
  unfold bind at 1. unfold ecies_encrypt_call, bind, log. cbn [heap tape cursor trace].
  destruct (ecies_encrypt _ pk _) as [[cipher used]|];
    [|exists []; reflexivity].
  unfold createHash_sha256_digest, bind, log, ret. cbn [heap tape cursor trace].
  unfold ec_keyFromPrivate, bind, log, lift.
  destruct (keyFromPrivate sk) as [k|];
    [|cbn [throw snd trace]; rewrite <- !app_assoc; eexists; reflexivity].
  cbn [ret heap tape cursor trace]. unfold key_sign, bind, log, lift.
  destruct (sign k (sha256 cipher)) as [s|];
    [|cbn [throw snd trace]; rewrite <- !app_assoc; eexists; reflexivity].
  cbn [ret heap tape cursor trace]. unfold point_encode_hex.
  destruct (encodePoint (getPublic k) true) as [enc|];
    [|cbn [throw snd trace]; rewrite <- !app_assoc; eexists; reflexivity].
  cbn [ret]. unfold get_prop at 1. cbn [non_null exports heap].
  match goal with
  | |- context [World ?h ?t ?c ?tr] => set (w4 := World h t c tr)
  end.
  destruct (fill_copy_keeps (read_prop (heap w) exports "BLACKMSG")
              (VStr (Hex.encode cipher)) (VStr (Hex.encode (toDER s)))
              (VStr (Hex.encode enc)) w4) as (new & Hw & _).
  unfold bind, ret in *. rewrite Hw. subst w4. cbn [with_heap trace snd].
  rewrite <- !app_assoc. eexists; reflexivity.
Qed.
End Unserialisable.

(** ** The round trip in general, and between two processes *)

Section Wire.
Context {L : Library} {Laws : LibraryLaws L}.

(** The document of an envelope whose fields are texts. *)
Lemma envelope_represented (h : list cell) (x y z : string) :
  represents (h ++ [envelope (VStr x) (VStr y) (VStr z)]) (VRef (length h))
             (envelope_doc x y z).
Proof.
  unfold represents, heap_fuel. rewrite length_app. cbn [length].
  rewrite Nat.add_comm. cbn [Nat.add shape].
  rewrite lookup_tail0. reflexivity.
Qed.

Lemma alloc_envelope (h : list cell) (x y z : string) :
  alloc (envelope_doc x y z) h
  = (VRef (length h), (h ++ [envelope (VStr x) (VStr y) (VStr z)])%list).
Proof. reflexivity. Qed.

(** The decoder on an envelope whose fields are the hex texts of a
    ciphertext, of a signature of its hash, and of the signer's key. *)
Lemma decoder_reads (sk b : value) (w : world) (cipher : bytes) (k : privkey)
      (s : signature) (enc : bytes) (j : json) :
  non_null b = true ->
  read_prop (heap w) b "msghex" = VStr (Hex.encode cipher) ->
  read_prop (heap w) b "sighex" = VStr (Hex.encode (toDER s)) ->
  read_prop (heap w) b "spkhex" = VStr (Hex.encode enc) ->
  encodePoint (getPublic k) true = Some enc ->
  sign k (sha256 cipher) = Some s ->
  ecies_decrypt sk cipher = Some (Buffer_from_utf8 (JSON.print j)) ->
  JSON.well_formed j = true ->
  exists (m' : value) (w' : world),
    blackToRed sk b w = (inr m', w') /\ represents (heap w') m' j
    /\ exists new, heap w' = (heap w ++ new)%list.
Proof.
  intros Hb Hx Hy Hz Hp Hs Hd Hwf.
  rewrite (blackToRed_fields _ _ _ _ _ Hb Hx Hy), Hz, !hex_decode_encode.
  rewrite verified_decrypt_cases.
  rewrite (keyFromPublic_encode _ _ _ Hp), (verify_sign _ _ _ Hs), Hd.
  match goal with |- context [JSON_parse _ ?w0] =>
    destruct (JSON_parse_print j w0 Hwf) as (m' & new & Hparse & Hrep)
  end.
  do 2 eexists. split; [exact Hparse|]. split; [exact Hrep|]. now exists new.
Qed.

(** X5: the round trip is that of [JSON.parse(JSON.stringify(m))].  For
    valid key pairs and any message that [JSON.stringify] gives a text for,
    properties that are [undefined] and holes of arrays included,
    [blackToRed(skB, redToBlack(skA, pkB, m))] returns a value that is the
    document of that text: [undefined] properties are gone and [undefined]
    elements are [null]. *)
Theorem round_trip_is_deep_copy (skA pkA skB pkB : string) (m : value) (j : json)
        (w : world) :
  valid_key_pair skA pkA -> valid_key_pair skB pkB ->
  templates_intact (heap w) ->
  reify (heap_fuel (heap w)) (heap w) m = Some (Some j) ->
  JSON.well_formed j = true ->
  exists (b : value) (w1 : world) (m' : value) (w2 : world),
    redToBlack (VStr skA) (VStr pkB) m w = (inr b, w1)
    /\ blackToRed (VStr skB) b w1 = (inr m', w2)
    /\ represents (heap w2) m' j.
Proof.
  intros [HA _] HB Ht Hm Hwf.
  destruct (encoder_succeeds_text skA pkB skB m j w HA HB Ht Hm)
    as (cipher & used & k & s & enc & Hd & Hs & Hp & Hrun).
  set (w1 := World _ _ _ _) in Hrun.
  destruct (envelope_fields (heap w) (VStr (Hex.encode cipher))
              (VStr (Hex.encode (toDER s))) (VStr (Hex.encode enc)))
    as (Hx & Hy & Hz).
  destruct (decoder_reads (VStr skB) (VRef (length (heap w))) w1 cipher k s enc j
              eq_refl Hx Hy Hz Hp Hs Hd Hwf) as (m' & w2 & Hdec & Hrep & _).
  now exists (VRef (length (heap w))), w1, m', w2.
Qed.

(** X6: the envelope survives the wire.  The text [JSON.stringify] gives
    for the envelope returned by [redToBlack(skA, pkB, m)], parsed in any
    other world (another process, which need not hold the templates), is an
    object that [isBlackMsg] accepts and from which [blackToRed(skB, .)]
    returns the document of the message. *)
Theorem envelope_over_the_wire (skA pkA skB pkB : string) (m : value) (j : json)
        (w : world) :
  valid_key_pair skA pkA -> valid_key_pair skB pkB ->
  templates_intact (heap w) -> represents (heap w) m j ->
  exists (b : value) (w1 : world) (text : string),
    redToBlack (VStr skA) (VStr pkB) m w = (inr b, w1)
    /\ JSON_stringify b w1 = (inr (Some text), w1)
    /\ forall wr : world,
        exists (b' : value) (wr1 : world) (m' : value) (wr2 : world),
          JSON_parse text wr = (inr b', wr1)
          /\ isBlackMsg (heap wr1) b' = true
          /\ blackToRed (VStr skB) b' wr1 = (inr m', wr2)
          /\ represents (heap wr2) m' j.
Proof.
  intros [HA _] HB Ht Hm.
  destruct (encoder_succeeds_text skA pkB skB m j w HA HB Ht (shape_reify _ _ _ _ Hm))
    as (cipher & used & k & s & enc & Hd & Hs & Hp & Hrun).
  assert (Hwf : JSON.well_formed j = true) by (eapply shape_well_formed; exact Hm).
  set (w1 := World _ _ _ _) in Hrun.
  exists (VRef (length (heap w))), w1,
    (JSON.print (envelope_doc (Hex.encode cipher) (Hex.encode (toDER s))
                              (Hex.encode enc))).
  split; [exact Hrun|]. split.
  - unfold JSON_stringify. subst w1. cbn [heap].
    now rewrite (shape_reify _ _ _ _ (envelope_represented (heap w) _ _ _)).
  - intros wr. unfold JSON_parse. rewrite parse_text_print by reflexivity.
    rewrite alloc_envelope.
    destruct (envelope_fields (heap wr) (VStr (Hex.encode cipher))
                (VStr (Hex.encode (toDER s))) (VStr (Hex.encode enc)))
      as (Hx & Hy & Hz).
    destruct (decoder_reads (VStr skB) (VRef (length (heap wr)))
                (with_heap (heap wr ++ [envelope (VStr (Hex.encode cipher))
                                                 (VStr (Hex.encode (toDER s)))
                                                 (VStr (Hex.encode enc))]) wr)
                cipher k s enc j eq_refl Hx Hy Hz Hp Hs Hd Hwf)
      as (m' & wr2 & Hdec & Hrep & _).
    do 4 eexists. split; [reflexivity|]. split; [|split; [exact Hdec|exact Hrep]].
    unfold isBlackMsg. cbn [with_heap heap]. now rewrite Hx, Hy, Hz.
Qed.
End Wire.

(** ** What the module makes, under its own validators *)

Section Validated.
Context {L : Library}.

(** X7: the objects the module makes, under its two validators.  A hello
    made by [makeRedHello] is accepted by [isJSONRPC], whatever the session
    key is; an error object made by [makeErrorObj] is accepted exactly when
    the [id] it was given is neither [null] nor [undefined]; neither is taken
    for an envelope by [isBlackMsg]; and no envelope returned by [redToBlack]
    is accepted by [isJSONRPC]. *)
Theorem factories_under_validators (w : world) :
  templates_intact (heap w) ->
  (forall s : value,
      exists (r : value) (w' : world),
        makeRedHello s w = (inr r, w')
        /\ isJSONRPC (heap w') r = true
        /\ isBlackMsg (heap w') r = false)
  /\ (forall errcode errmessage reqid : value,
      exists (r : value) (w' : world),
        makeErrorObj errcode errmessage reqid w = (inr r, w')
        /\ isJSONRPC (heap w') r = non_null reqid
        /\ isBlackMsg (heap w') r = false)
  /\ (forall (sk pk m b : value) (w' : world),
      redToBlack sk pk m w = (inr b, w') ->
      isJSONRPC (heap w') b = false /\ isBlackMsg (heap w') b = true).
Proof.
  intros Ht. split; [|split].
  - intros s. do 2 eexists. split; [now apply makeRedHello_run|].
    unfold isJSONRPC, isBlackMsg, with_heap, read_prop. cbn [heap non_null].
    rewrite lookup_tail1. split; reflexivity.
  - intros errcode errmessage reqid. do 2 eexists.
    split; [now apply makeErrorObj_run|].
    unfold isJSONRPC, isBlackMsg, with_heap, read_prop. cbn [heap non_null].
    rewrite lookup_tail1. cbn. split; [|reflexivity].
    now destruct (non_null reqid).
  - intros sk pk m b w' Hrun.
    destruct (redToBlack_inv sk pk m w b w' Ht Hrun)
      as (j & cipher & used & k & s & enc & Hj & He & Hk & Hs & Hp).
    rewrite (redToBlack_run sk pk m w j cipher used k s enc Ht Hj He Hk Hs Hp) in Hrun.
    injection Hrun as <- <-.
    unfold isJSONRPC, isBlackMsg, read_prop. cbn [heap non_null].
    rewrite lookup_tail0. split; reflexivity.
Qed.

(** X8: the one exception the module throws itself.  [blackToRed] ends
    with ['Sender verification failure'] exactly when the envelope is an
    object whose [msghex] and [sighex] could be decoded, the library read a
    public key from [spkhex], and the verification of the signature against
    the SHA-256 of the decoded [msghex] returned [false]; every other
    failure, a signature the library cannot parse included, is another
    exception. *)
Theorem sender_failure_iff (sk b : value) (w : world) :
  (blackToRed sk b w).1 = inl SenderVerificationFailure
  <-> non_null b = true
      /\ exists (msg sig : bytes) (pk : point),
          (Buffer_from_hex (read_prop (heap w) b "msghex") w).1 = inr msg
          /\ (Buffer_from_hex (read_prop (heap w) b "sighex") w).1 = inr sig
          /\ keyFromPublic (read_prop (heap w) b "spkhex") = Some pk
          /\ verify pk (sha256 msg) sig = Some false.
Proof.
  assert (Hh : forall v, (Buffer_from_hex v w).1 <> inl SenderVerificationFailure).
  { intros v. unfold Buffer_from_hex, lift, ret, throw.
    destruct v; try discriminate.
    destruct (Buffer_from_object (heap w) l); discriminate. }
  rewrite blackToRed_normal. split.
  - destruct (non_null b); [|discriminate].
    pose proof (Hh (read_prop (heap w) b "msghex")) as H1.
    destruct (Buffer_from_hex (read_prop (heap w) b "msghex") w).1 as [e|msg];
      [intros E; cbn [fst] in E; congruence|].
    pose proof (Hh (read_prop (heap w) b "sighex")) as H2.
    destruct (Buffer_from_hex (read_prop (heap w) b "sighex") w).1 as [e|sig];
      [intros E; cbn [fst] in E; congruence|].
    rewrite verified_decrypt_cases.
    destruct (keyFromPublic (read_prop (heap w) b "spkhex")) as [pk|];
      [|discriminate].
    destruct (verify pk (sha256 msg) sig) as [[|]|] eqn:Hv; try discriminate.
    + destruct (ecies_decrypt sk msg) as [red|]; [|discriminate].
      unfold JSON_parse. destruct (JSON.parse_text _); [|discriminate].
      destruct (alloc _ _). discriminate.
    + intros _. split; [reflexivity|]. now exists msg, sig, pk.
  - intros (-> & msg & sig & pk & -> & -> & Hk & Hv).
    now rewrite verified_decrypt_cases, Hk, Hv.
Qed.

(** X9: an envelope that is [null] or [undefined], or whose [msghex] or
    [sighex] is, which are three of the four ways [isBlackMsg] says no, makes
    [blackToRed] end with a TypeError before anything is hashed, verified or
    decrypted: the world is as it was. *)
Theorem blackToRed_rejects_incomplete (sk b : value) (w : world) :
  non_null b && non_null (read_prop (heap w) b "msghex")
    && non_null (read_prop (heap w) b "sighex") = false ->
  isBlackMsg (heap w) b = false
  /\ blackToRed sk b w = (inl TypeError, w).
Proof.
  intros H. split; [unfold isBlackMsg; now rewrite H|].
  rewrite blackToRed_normal.
  destruct (non_null b); [|reflexivity]. cbn [andb] in H.
  destruct (read_prop (heap w) b "msghex") as [| | | |x|l|] eqn:Ex; try reflexivity;
    cbn [non_null andb] in H.
  - destruct (read_prop (heap w) b "sighex"); try discriminate; reflexivity.
  - unfold Buffer_from_hex at 1. unfold lift.
    destruct (Buffer_from_object (heap w) l); [|reflexivity].
    destruct (read_prop (heap w) b "sighex"); try discriminate; reflexivity.
Qed.
End Validated.

(** ** Keys: what is drawn, and the two texts of a public key *)

Section Keys.
Context {L : Library}.

Lemma hex_encode_length (b : bytes) : String.length (Hex.encode b) = 2 * length b.
Proof. induction b as [|x r IH]; [reflexivity|]. cbn [Hex.encode String.length length]. lia. Qed.

(** Whenever the key generator returns, the library accepted the drawn
    bytes and encoded the public point. *)
Lemma makeKey_inv (w : world) (r : value) (w' : world) :
  makeKey w = (inr r, w') ->
  exists (k : privkey) (enc : bytes),
    keyFromPrivate (VStr (Hex.encode (map (tape w) (seq (cursor w) 32)))) = Some k
    /\ encodePoint (getPublic k) false = Some enc.
Proof.
  unfold makeKey, randomBytes, ec_keyFromPrivate, log, lift, point_encode_hex, bind.
  cbn [heap tape cursor trace].
  destruct (keyFromPrivate _) as [k|] eqn:Hk; [|discriminate].
  cbn [ret]. destruct (encodePoint (getPublic k) false) as [enc|] eqn:Hp; [|discriminate].
  intros _. now exists k, enc.
Qed.

(** X10: [makeKey] draws 32 bytes of entropy, once.  Whether it returns or
    throws, exactly 32 bytes have been read and no existing cell has changed;
    bytes the library does not accept as a private key end the call with the
    library's exception, never with a second draw.  When it returns, the
    result is one new object [{prv, pub}] whose [prv] is the hex text, 64
    lower-case digits, of the bytes drawn. *)
Theorem makeKey_draws_once (w : world) :
  cursor (makeKey w).2 = cursor w + 32
  /\ tape (makeKey w).2 = tape w
  /\ (exists evs, trace (makeKey w).2 = trace w ++ EvRandom 32 :: evs
                  /\ forall n, EvRandom n ∉ evs)
  /\ match (makeKey w).1 with
     | inl _ => heap (makeKey w).2 = heap w
     | inr r =>
         exists pub : value,
           r = VRef (length (heap w))
           /\ heap (makeKey w).2
              = heap w ++ [CObj [("prv", VStr (Hex.encode (map (tape w) (seq (cursor w) 32))));
                                 ("pub", pub)]]
           /\ String.length (Hex.encode (map (tape w) (seq (cursor w) 32))) = 64
           /\ Hex.valid (Hex.encode (map (tape w) (seq (cursor w) 32))) = true
     end.
Proof.
  assert (Hone : forall (n : nat) (v : value), EvRandom n ∉ [EvKeyFromPrivate v]).
  { intros n v Hin. apply list_elem_of_singleton in Hin. discriminate. }
  unfold makeKey, randomBytes, ec_keyFromPrivate, log, lift, point_encode_hex,
    new_cell, with_heap, bind.
  cbn [heap tape cursor trace].
  destruct (keyFromPrivate _) as [k|]; cbn [ret throw fst snd heap tape cursor trace].
  - destruct (encodePoint (getPublic k) false) as [enc|];
      cbn [ret throw fst snd heap tape cursor trace].
    + repeat split.
      * rewrite <- app_assoc. eexists. split; [reflexivity|intros n; apply Hone].
      * eexists. repeat split. apply hex_encode_valid.
    + repeat split. rewrite <- app_assoc. eexists. split; [reflexivity|intros n; apply Hone].
  - repeat split. rewrite <- app_assoc. eexists. split; [reflexivity|intros n; apply Hone].
Qed.
End Keys.

Section PublicKeyTexts.
Context {L : Library} {Laws : LibraryLaws L}.

(** X11: in every envelope that [redToBlack] returns, [spkhex] is the hex
    text, 66 digits, of the compressed encoding of the public key of the
    sender's private key; the library reads that public key back from it, and
    under that key it accepts the signature in [sighex] for the SHA-256 of the
    bytes in [msghex]: what the sender made passes the check [blackToRed]
    makes. *)
Theorem spkhex_verifies_sighex (sk pk m b : value) (w w' : world) :
  templates_intact (heap w) ->
  redToBlack sk pk m w = (inr b, w') ->
  exists (k : privkey) (x y z : string),
    keyFromPrivate sk = Some k
    /\ read_prop (heap w') b "msghex" = VStr x
    /\ read_prop (heap w') b "sighex" = VStr y
    /\ read_prop (heap w') b "spkhex" = VStr z
    /\ String.length z = 66
    /\ keyFromPublic (VStr z) = Some (getPublic k)
    /\ verify (getPublic k) (sha256 (Hex.decode x)) (Hex.decode y) = Some true.
Proof.
  intros Ht Hrun.
  destruct (redToBlack_inv sk pk m w b w' Ht Hrun)
    as (j & cipher & used & k & s & enc & Hj & He & Hk & Hs & Hp).
  rewrite (redToBlack_run sk pk m w j cipher used k s enc Ht Hj He Hk Hs Hp) in Hrun.
  injection Hrun as <- <-. cbn [heap].
  destruct (envelope_fields (heap w) (VStr (Hex.encode cipher))
              (VStr (Hex.encode (toDER s))) (VStr (Hex.encode enc)))
    as (Hx & Hy & Hz).
  exists k, (Hex.encode cipher), (Hex.encode (toDER s)), (Hex.encode enc).
  repeat (split; [assumption|]). split; [|split].
  - now rewrite hex_encode_length, (encodePoint_length _ _ _ Hp).
  - apply (keyFromPublic_encode _ _ _ Hp).
  - rewrite !hex_decode_encode. apply (verify_sign _ _ _ Hs).
Qed.

(** X12: the two texts of one public key.  For a key made by [makeKey],
    the [pub] it returns (130 hex digits) and the [spkhex] that [redToBlack]
    writes when signing with its [prv] (66 hex digits) are different strings,
    and the library reads the same public key from both: a recipient can
    verify with either, and cannot recognise the sender by comparing the
    texts. *)
Theorem pub_and_spkhex_differ (w : world) (key : value) (w1 : world)
        (pk m b : value) (w2 : world) :
  templates_intact (heap w) ->
  makeKey w = (inr key, w1) ->
  redToBlack (read_prop (heap w1) key "prv") pk m w1 = (inr b, w2) ->
  exists (pub z : string) (p : point),
    read_prop (heap w2) key "pub" = VStr pub
    /\ read_prop (heap w2) b "spkhex" = VStr z
    /\ String.length pub = 130 /\ String.length z = 66
    /\ pub <> z
    /\ keyFromPublic (VStr pub) = Some p
    /\ keyFromPublic (VStr z) = Some p.
Proof.
  intros Ht Hkey Hrun.
  destruct (makeKey_inv w key w1 Hkey) as (k0 & enc0 & Hk0 & Hp0).
  rewrite (makeKey_run w k0 enc0 Hk0 Hp0) in Hkey.
  remember (Hex.encode (map (tape w) (seq (cursor w) 32))) as prv eqn:Eprv.
  injection Hkey as <- <-. cbn [heap] in Hrun.
  assert (Hprv : forall rest,
             read_prop (heap w ++ CObj [("prv", VStr prv);
                                        ("pub", VStr (Hex.encode enc0))] :: rest)
                       (VRef (length (heap w))) "prv"
             = VStr prv
             /\ read_prop (heap w ++ CObj [("prv", VStr prv);
                                           ("pub", VStr (Hex.encode enc0))] :: rest)
                          (VRef (length (heap w))) "pub"
                = VStr (Hex.encode enc0)).
  { intros rest. unfold read_prop. rewrite lookup_tail0. split; reflexivity. }
  rewrite (proj1 (Hprv [])) in Hrun.
  set (w1 := World _ _ _ _) in Hrun.
  assert (Ht1 : templates_intact (heap w1)) by now apply templates_extend.
  destruct (redToBlack_inv _ pk m w1 b w2 Ht1 Hrun)
    as (j & cipher & used & k & s & enc & Hj & He & Hk & Hs & Hp).
  rewrite (redToBlack_run _ pk m w1 j cipher used k s enc Ht1 Hj He Hk Hs Hp) in Hrun.
  injection Hrun as <- <-.
  assert (k = k0) as -> by congruence.
  exists (Hex.encode enc0), (Hex.encode enc), (getPublic k0).
  assert (L130 : String.length (Hex.encode enc0) = 130)
    by now rewrite hex_encode_length, (encodePoint_length _ _ _ Hp0).
  assert (L66 : String.length (Hex.encode enc) = 66)
    by now rewrite hex_encode_length, (encodePoint_length _ _ _ Hp).
  subst w1. cbn [heap]. rewrite <- app_assoc. cbn [app].
  split; [apply Hprv|]. split.
  - change (heap w ++ [?c; ?e])%list with (heap w ++ [c] ++ [e])%list.
    rewrite app_assoc.
    match goal with |- read_prop (?h ++ _) _ _ = _ =>
      replace (S (length (heap w))) with (length h)
        by (rewrite length_app; cbn [length]; lia)
    end.
    apply envelope_fields.
  - repeat split; try assumption.
    + intros E. rewrite E in L130. lia.
    + apply (keyFromPublic_encode _ _ _ Hp0).
    + apply (keyFromPublic_encode _ _ _ Hp).
Qed.
End PublicKeyTexts.

(** ** The self-test *)

Section SmokeTest.
Context {L : Library} {Laws : LibraryLaws L}.

Ltac cell_step :=
  unfold read_prop, write_prop;
  rewrite ?lookup_tail2, ?lookup_tail1, ?lookup_tail0, ?insert_tail1, ?insert_tail0;
  cbn [cell_props assoc_get assoc_set cell_set default from_option id non_null
       String.eqb Ascii.eqb Bool.eqb heap tape cursor trace].

Lemma bind_run {A B} (m : M A) (k : A -> M B) (w : world) (x : A) (w1 : world) :
  m w = (inr x, w1) -> bind m k w = k x w1.
Proof. intros H. unfold bind. now rewrite H. Qed.

Lemma get_prop_run (obj : value) (name : string) (w : world) :
  non_null obj = true ->
  get_prop obj name w = (inr (read_prop (heap w) obj name), w).
Proof. intros H. unfold get_prop. now rewrite H. Qed.

Lemma console_log_ok (v : value) (j : json) (w : world) :
  represents (heap w) v j -> console_log_json v w = (inr tt, w).
Proof.
  intros H. unfold console_log_json, bind, JSON_stringify.
  now rewrite (shape_reify _ _ _ _ H).
Qed.

Lemma read_prop_app (h new : list cell) (l : loc) (k : string) :
  l < length h -> read_prop (h ++ new) (VRef l) k = read_prop h (VRef l) k.
Proof. intros Hl. unfold read_prop. now rewrite lookup_app_l. Qed.

Lemma templates_request_response (h : list cell) :
  templates_intact h ->
  read_prop h exports "REQUEST" = VRef 4
  /\ read_prop h exports "RESPONSE" = VRef 6
  /\ represents h (VRef 4) REQUEST_doc
  /\ represents h (VRef 6) RESPONSE_doc.
Proof.
  intros H. rewrite (templates_split h H).
  generalize (drop (length initial_heap) h). intros rest.
  repeat split.
Qed.

Lemma alloc_REQUEST (h : list cell) :
  alloc REQUEST_doc h
  = (VRef (S (length h)),
     (h ++ [CArr [] [];
            CObj [("jsonrpc", VStr "2.0"); ("method", VStr EmptyString);
                  ("params", VRef (length h)); ("id", VNum 0)]])%list).
Proof.
  cbn. rewrite length_app, <- app_assoc. cbn. now rewrite Nat.add_1_r.
Qed.

Lemma alloc_RESPONSE (h : list cell) :
  alloc RESPONSE_doc h
  = (VRef (S (length h)),
     (h ++ [CObj [];
            CObj [("jsonrpc", VStr "2.0"); ("result", VRef (length h));
                  ("id", VNum 0)]])%list).
Proof.
  cbn. rewrite length_app, <- app_assoc. cbn. now rewrite Nat.add_1_r.
Qed.

(** The request of the self-test, built from a copy of [REQUEST]. *)
Lemma request_block {B} (k : value -> M B) (pid : value) (w : world) :
  templates_intact (heap w) ->
  (let* template := get_prop exports "REQUEST" in
   let* text := JSON_stringify template in
   let* redReqObj := JSON_parse (text_of text) in
   set_prop redReqObj "method" (VStr "doSomething");;
   let* params := new_cell (CArr [VStr "testing"; VNum 123] []) in
   set_prop redReqObj "params" params;;
   set_prop redReqObj "id" pid;;
   k redReqObj) w
  = k (VRef (S (length (heap w))))
      (with_heap
         (heap w ++
          [CArr [] [];
           CObj [("jsonrpc", VStr "2.0"); ("method", VStr "doSomething");
                 ("params", VRef (S (S (length (heap w))))); ("id", pid)];
           CArr [VStr "testing"; VNum 123] []]) w).
Proof.
  intros Ht. destruct (templates_request_response _ Ht) as (Hq & _ & Hd & _).
  unfold bind, get_prop, JSON_stringify, JSON_parse, new_cell, set_prop, ret.
  cbn [non_null exports]. rewrite Hq.
  rewrite (shape_reify _ _ _ _ Hd). cbn [option_map text_of default from_option id].
  rewrite parse_text_print by reflexivity. rewrite alloc_REQUEST.
  unfold with_heap. cbn [non_null heap tape cursor trace].
  cell_step. rewrite length_app. cbn [length]. rewrite Nat.add_comm. cbn [Nat.add].
  rewrite <- app_assoc. cbn [app]. repeat cell_step. reflexivity.
Qed.

Lemma request_represented (h : list cell) (pid : Z) :
  represents
    (h ++ [CArr [] [];
           CObj [("jsonrpc", VStr "2.0"); ("method", VStr "doSomething");
                 ("params", VRef (S (S (length h)))); ("id", VNum pid)];
           CArr [VStr "testing"; VNum 123] []])
    (VRef (S (length h))) (request_doc pid).
Proof.
  unfold represents, heap_fuel. rewrite length_app. cbn [length].
  rewrite Nat.add_comm. cbn [Nat.add shape].
  rewrite lookup_tail1. cbn [map fst JSON.distinct existsb String.eqb Ascii.eqb Bool.eqb
                             negb andb orb shape_props shape].
  rewrite lookup_tail2. reflexivity.
Qed.

Lemma response_represented (h : list cell) (pid : Z) :
  represents
    (h ++ [CObj [];
           CObj [("jsonrpc", VStr "2.0"); ("result", VRef (S (S (length h))));
                 ("id", VNum pid)];
           CObj [("answer", VNum 42)]])
    (VRef (S (length h))) (response_doc pid).
Proof.
  unfold represents, heap_fuel. rewrite length_app. cbn [length].
  rewrite Nat.add_comm. cbn [Nat.add shape].
  rewrite lookup_tail1. cbn [map fst JSON.distinct existsb String.eqb Ascii.eqb Bool.eqb
                             negb andb orb shape_props shape].
  rewrite lookup_tail2. reflexivity.
Qed.

Lemma shape_num (n : nat) (h : list cell) (x : value) (z : Z) :
  shape n h x = Some (JNum z) -> x = VNum z.
Proof.
  destruct n as [|n]; [discriminate|]. cbn [shape].
  destruct x as [| | | | |l|d]; try discriminate; [congruence| |].
  2:{ destruct (Number.fractional d); discriminate. }
  destruct (h !! l) as [[ps|es [|p ps]]|]; try discriminate.
  - destruct (JSON.distinct (map fst ps)); [|discriminate].
    destruct (shape_props (shape n h) ps); discriminate.
  - destruct (shape_elems (shape n h) es); discriminate.
Qed.

(** A value that is the request of the self-test is an object of the heap
    whose [id] reads as the request id. *)
Lemma request_id_read (h : list cell) (v : value) (pid : Z) :
  represents h v (request_doc pid) ->
  exists l, v = VRef l /\ l < length h /\ read_prop h v "id" = VNum pid.
Proof.
  unfold represents, heap_fuel, request_doc. cbn [shape].
  destruct v as [| | | | |l|d]; try discriminate.
  2:{ destruct (Number.fractional d); discriminate. }
  destruct (h !! l) as [[ps|es [|p ps]]|] eqn:El; try discriminate.
  - destruct (JSON.distinct (map fst ps)); [|discriminate].
    destruct ps as [|[k1 x1] [|[k2 x2] [|[k3 x3] [|[k4 x4] [|[k5 x5] ps]]]]];
      cbn [shape_props]; intros H.
    all: repeat match type of H with
         | context [match shape ?n ?hh ?x with _ => _ end] =>
             destruct (shape n hh x) eqn:?; try discriminate
         | context [match shape_props ?f ?x with _ => _ end] =>
             destruct (shape_props f x) eqn:?; try discriminate
         end; try discriminate.
    injection H as -> _ -> _ -> _ -> ->.
    exists l. split; [reflexivity|]. split; [eapply lookup_lt_Some; exact El|].
    unfold read_prop. rewrite El. cbn.
    match goal with Hs : shape _ _ x4 = Some (JNum pid) |- _ =>
      apply shape_num in Hs; now subst x4 end.
  - destruct (shape_elems (shape (length h) h) es); discriminate.
Qed.

(** The response of the self-test, built from a copy of [RESPONSE] and the
    [id] of the decoded request. *)
Lemma response_block {B} (k : value -> M B) (l : loc) (idv : value) (w : world) :
  templates_intact (heap w) ->
  l < length (heap w) -> read_prop (heap w) (VRef l) "id" = idv ->
  (let* template := get_prop exports "RESPONSE" in
   let* text := JSON_stringify template in
   let* redresponse := JSON_parse (text_of text) in
   let* result := new_cell (CObj [("answer", VNum 42)]) in
   set_prop redresponse "result" result;;
   let* redid := get_prop (VRef l) "id" in
   set_prop redresponse "id" redid;;
   k redresponse) w
  = k (VRef (S (length (heap w))))
      (with_heap
         (heap w ++
          [CObj [];
           CObj [("jsonrpc", VStr "2.0"); ("result", VRef (S (S (length (heap w)))));
                 ("id", idv)];
           CObj [("answer", VNum 42)]]) w).
Proof.
  intros Ht Hl Hid. destruct (templates_request_response _ Ht) as (_ & Hq & _ & Hd).
  unfold bind. unfold get_prop at 1. unfold JSON_stringify, JSON_parse, new_cell, ret.
  cbn [non_null exports]. rewrite Hq.
  rewrite (shape_reify _ _ _ _ Hd). cbn [option_map text_of default from_option id].
  rewrite parse_text_print by reflexivity. rewrite alloc_RESPONSE.
  unfold with_heap. cbn [non_null heap tape cursor trace].
  rewrite length_app. cbn [length]. rewrite Nat.add_comm. cbn [Nat.add].
  rewrite <- app_assoc. cbn [app].
  unfold set_prop at 1. cbn [non_null heap tape cursor trace with_heap].
  unfold write_prop at 1. rewrite lookup_tail1, insert_tail1.
  cbn [cell_set assoc_set String.eqb Ascii.eqb Bool.eqb].
  unfold get_prop, with_heap. cbn [non_null heap tape cursor trace].
  rewrite read_prop_app by exact Hl. rewrite Hid.
  unfold set_prop, with_heap. cbn [non_null heap tape cursor trace].
  unfold write_prop. rewrite lookup_tail1, insert_tail1.
  cbn [cell_set assoc_set String.eqb Ascii.eqb Bool.eqb]. reflexivity.
Qed.

(** The key generator on bytes that are a private key of the curve. *)
Lemma makeKey_succeeds (w : world) :
  valid_secret (map (tape w) (seq (cursor w) 32)) = true ->
  exists prv pub : string,
    valid_key_pair prv pub
    /\ makeKey w
       = (inr (VRef (length (heap w))),
          World (heap w ++ [CObj [("prv", VStr prv); ("pub", VStr pub)]])
                (tape w) (cursor w + 32)
                (trace w ++ [EvRandom 32; EvKeyFromPrivate (VStr prv)])).
Proof.
  intros Hv. remember (map (tape w) (seq (cursor w) 32)) as random eqn:Er.
  assert (Hs : valid_secret_hex (Hex.encode random)).
  { split; [apply hex_encode_valid|now rewrite hex_decode_encode]. }
  destruct (keyFromPrivate_valid _ Hs) as (k & Hk & Henc).
  destruct (Henc false) as (enc & Hp).
  exists (Hex.encode random), (Hex.encode enc). split.
  - split; [assumption|]. now exists k, false, enc.
  - subst random. now apply (makeKey_run w k enc).
Qed.

(** One leg of the self-test: encode, log the envelope, decode. *)
Lemma leg (skA pkB skB : string) (m : value) (j : json) (w : world) :
  valid_secret_hex skA -> valid_key_pair skB pkB ->
  templates_intact (heap w) -> represents (heap w) m j ->
  exists (b : value) (w1 : world) (m' : value) (w2 : world),
    redToBlack (VStr skA) (VStr pkB) m w = (inr b, w1)
    /\ console_log_json b w1 = (inr tt, w1)
    /\ blackToRed (VStr skB) b w1 = (inr m', w2)
    /\ represents (heap w2) m' j
    /\ (exists new, heap w1 = (heap w ++ new)%list)
    /\ (exists new, heap w2 = (heap w1 ++ new)%list).
Proof.
  intros HA HB Ht Hm.
  destruct (encoder_succeeds_text skA pkB skB m j w HA HB Ht (shape_reify _ _ _ _ Hm))
    as (cipher & used & k & s & enc & Hd & Hs & Hp & Hrun).
  assert (Hwf : JSON.well_formed j = true) by (eapply shape_well_formed; exact Hm).
  set (w1 := World _ _ _ _) in Hrun.
  destruct (envelope_fields (heap w) (VStr (Hex.encode cipher))
              (VStr (Hex.encode (toDER s))) (VStr (Hex.encode enc)))
    as (Hx & Hy & Hz).
  destruct (decoder_reads (VStr skB) (VRef (length (heap w))) w1 cipher k s enc j
              eq_refl Hx Hy Hz Hp Hs Hd Hwf) as (m' & w2 & Hdec & Hrep & Hext).
  exists (VRef (length (heap w))), w1, m', w2.
  split; [exact Hrun|]. split.
  - apply (console_log_ok _ (envelope_doc (Hex.encode cipher) (Hex.encode (toDER s))
                                         (Hex.encode enc)) w1).
    apply (envelope_represented (heap w)).
  - split; [exact Hdec|]. split; [exact Hrep|]. split; [|exact Hext].
    eexists. reflexivity.
Qed.

Lemma heap_ext_trans (h e e' : list cell) (wa wb : world) :
  heap wa = (h ++ e)%list -> heap wb = (heap wa ++ e')%list ->
  heap wb = (h ++ (e ++ e'))%list.
Proof. intros Ha Hb. now rewrite Hb, Ha, app_assoc. Qed.

(** X13: the self-test passes.  With the templates as the module created
    them and a library that keeps its laws, whenever the two draws of 32
    bytes are private keys of the curve, [smokeTest] runs to its end without
    an exception: both keys are made, the hello, the request and the response
    are built and serialised, each envelope is accepted and decrypted by the
    other party, and the request id read from the decoded request is the one
    put in the response.  The templates are intact afterwards and no cell
    that existed before has changed. *)
Theorem smokeTest_passes (pid : Z) (w : world) :
  templates_intact (heap w) ->
  valid_secret (map (tape w) (seq (cursor w) 32)) = true ->
  valid_secret (map (tape w) (seq (cursor w + 32) 32)) = true ->
  exists w' : world,
    smokeTest (VNum pid) w = (inr tt, w')
    /\ templates_intact (heap w')
    /\ exists new, heap w' = (heap w ++ new)%list.
Proof.
  intros Ht H1 H2.
  destruct (makeKey_succeeds w H1) as (prv1 & pub1 & KP1 & R1).
  set (w1 := World _ _ _ _) in R1.
  destruct (makeKey_succeeds w1 H2) as (prv2 & pub2 & KP2 & R2).
  set (w2 := World _ _ _ _) in R2.
  set (c := VRef (length (heap w))) in *.
  set (s := VRef (length (heap w1))) in *.
  assert (Hkeys : forall ext,
             read_prop (heap w2 ++ ext) c "prv" = VStr prv1
             /\ read_prop (heap w2 ++ ext) c "pub" = VStr pub1
             /\ read_prop (heap w2 ++ ext) s "prv" = VStr prv2
             /\ read_prop (heap w2 ++ ext) s "pub" = VStr pub2).
  { intros ext. subst c s w2 w1. cbn [heap]. unfold read_prop.
    rewrite <- !app_assoc. cbn [app]. rewrite lookup_tail0.
    rewrite length_app. cbn [length]. rewrite Nat.add_1_r, lookup_tail1.
    repeat split. }
  assert (Hget : forall wx ext,
             heap wx = (heap w2 ++ ext)%list ->
             get_prop c "prv" wx = (inr (VStr prv1), wx)
             /\ get_prop c "pub" wx = (inr (VStr pub1), wx)
             /\ get_prop s "prv" wx = (inr (VStr prv2), wx)
             /\ get_prop s "pub" wx = (inr (VStr pub2), wx)
             /\ templates_intact (heap wx)).
  { intros wx ext E. destruct (Hkeys ext) as (K1 & K2 & K3 & K4).
    rewrite !get_prop_run by reflexivity. rewrite E, K1, K2, K3, K4.
    repeat split. subst w2 w1. cbn [heap]. now repeat apply templates_extend. }
  (* the hello *)
  assert (E2 : heap w2 = (heap w2 ++ [])%list) by now rewrite app_nil_r.
  destruct (Hget w2 [] E2) as (_ & _ & _ & G2 & Ht2).
  pose proof (makeRedHello_run (VStr pub2) w2 Ht2) as R3.
  set (w3 := with_heap _ w2) in R3.
  assert (C3 : console_log_json (VRef (S (length (heap w2)))) w3 = (inr tt, w3)).
  { apply (console_log_ok _ (hello_doc pub2)). apply hello_represented. }
  assert (E3 : heap w3 = (heap w2 ++ ([] ++ _))%list)
    by exact (heap_ext_trans _ _ _ w2 w3 E2 eq_refl).
  destruct (Hget w3 _ E3) as (_ & _ & _ & _ & Ht3).
  (* the request *)
  set (w4 := with_heap
               (heap w3 ++
                [CArr [] [];
                 CObj [("jsonrpc", VStr "2.0"); ("method", VStr "doSomething");
                       ("params", VRef (S (S (length (heap w3))))); ("id", VNum pid)];
                 CArr [VStr "testing"; VNum 123] []]) w3).
  assert (M4 : represents (heap w4) (VRef (S (length (heap w3)))) (request_doc pid))
    by apply request_represented.
  assert (E4 : heap w4 = (heap w2 ++ (_ ++ _))%list)
    by exact (heap_ext_trans _ _ _ w3 w4 E3 eq_refl).
  destruct (Hget w4 _ E4) as (G4a & _ & _ & G4b & Ht4).
  destruct (leg prv1 pub2 prv2 _ _ w4 (proj1 KP1) KP2 Ht4 M4)
    as (b5 & w5 & red & w6 & R5 & C5 & R6 & M6 & (n5 & X5) & (n6 & X6)).
  assert (E5 : heap w5 = (heap w2 ++ (_ ++ _))%list)
    by exact (heap_ext_trans _ _ _ w4 w5 E4 X5).
  destruct (Hget w5 _ E5) as (_ & _ & G5 & _ & _).
  assert (E6 : heap w6 = (heap w2 ++ (_ ++ _))%list)
    by exact (heap_ext_trans _ _ _ w5 w6 E5 X6).
  destruct (Hget w6 _ E6) as (_ & _ & _ & _ & Ht6).
  (* the response *)
  destruct (request_id_read _ _ _ M6) as (l & -> & Hl & Hid).
  set (w7 := with_heap
               (heap w6 ++
                [CObj [];
                 CObj [("jsonrpc", VStr "2.0");
                       ("result", VRef (S (S (length (heap w6))))); ("id", VNum pid)];
                 CObj [("answer", VNum 42)]]) w6).
  assert (M7 : represents (heap w7) (VRef (S (length (heap w6)))) (response_doc pid))
    by apply response_represented.
  assert (E7 : heap w7 = (heap w2 ++ (_ ++ _))%list)
    by exact (heap_ext_trans _ _ _ w6 w7 E6 eq_refl).
  destruct (Hget w7 _ E7) as (_ & G7b & G7a & _ & Ht7).
  destruct (leg prv2 pub1 prv1 _ _ w7 (proj1 KP2) KP1 Ht7 M7)
    as (b8 & w8 & reply & w9 & R8 & C8 & R9 & M9 & (n8 & X8) & (n9 & X9)).
  assert (E8 : heap w8 = (heap w2 ++ (_ ++ _))%list)
    by exact (heap_ext_trans _ _ _ w7 w8 E7 X8).
  destruct (Hget w8 _ E8) as (G8 & _ & _ & _ & _).
  assert (E9 : heap w9 = (heap w2 ++ (_ ++ _))%list)
    by exact (heap_ext_trans _ _ _ w8 w9 E8 X9).
  destruct (Hget w9 _ E9) as (_ & _ & _ & _ & Ht9).
  exists w9. split; [|split; [exact Ht9|]].
  - unfold smokeTest.
    rewrite (bind_run _ _ _ _ _ R1). cbv beta.
    rewrite (bind_run _ _ _ _ _ R2). cbv beta.
    rewrite (bind_run _ _ _ _ _ G2). cbv beta.
    rewrite (bind_run _ _ _ _ _ R3). cbv beta.
    rewrite (bind_run _ _ _ _ _ C3). cbv beta.
    rewrite (request_block _ (VNum pid) w3 Ht3). cbv beta.
    rewrite (bind_run _ _ _ _ _ (console_log_ok _ _ w4 M4)). cbv beta.
    rewrite (bind_run _ _ _ _ _ G4a). cbv beta.
    rewrite (bind_run _ _ _ _ _ G4b). cbv beta.
    rewrite (bind_run _ _ _ _ _ R5). cbv beta.
    rewrite (bind_run _ _ _ _ _ C5). cbv beta.
    rewrite (bind_run _ _ _ _ _ G5). cbv beta.
    rewrite (bind_run _ _ _ _ _ R6). cbv beta.
    rewrite (bind_run _ _ _ _ _ (console_log_ok _ _ w6 M6)). cbv beta.
    rewrite (response_block _ l (VNum pid) w6 Ht6 Hl Hid). cbv beta.
    rewrite (bind_run _ _ _ _ _ G7a). cbv beta.
    rewrite (bind_run _ _ _ _ _ G7b). cbv beta.
    rewrite (bind_run _ _ _ _ _ R8). cbv beta.
    rewrite (bind_run _ _ _ _ _ C8). cbv beta.
    rewrite (bind_run _ _ _ _ _ G8). cbv beta.
    rewrite (bind_run _ _ _ _ _ R9). cbv beta.
    apply (console_log_ok _ _ w9 M9).
  - subst w2 w1. cbn [heap] in E9. rewrite <- !app_assoc in E9. eexists. exact E9.
Qed.
End SmokeTest.

(** ** A signature by somebody else *)

Section Resigned.
Context {L : Library} {Laws : LibraryLaws L}.

(** X14: [blackToRed] does not tie the signature to a sender.  Take the
    envelope [redToBlack(skA, pkB, m)] makes, keep its [msghex], and replace
    [sighex] and [spkhex] by the signature of any other valid private key
    [skE] on the SHA-256 of the same bytes and by the compressed public key
    of [skE]: [blackToRed(skB, .)] accepts that envelope too and returns the
    same document.  What is verified is that whoever holds the key named in
    [spkhex] signed the ciphertext, not who encrypted the message. *)
Theorem signature_can_be_replaced (skA pkA skB pkB skE : string) (m : value) (j : json)
        (w : world) :
  valid_key_pair skA pkA -> valid_key_pair skB pkB -> valid_secret_hex skE ->
  templates_intact (heap w) -> represents (heap w) m j ->
  exists (b : value) (w1 : world) (x : string)
         (kE : privkey) (sE : signature) (encE : bytes),
    redToBlack (VStr skA) (VStr pkB) m w = (inr b, w1)
    /\ read_prop (heap w1) b "msghex" = VStr x
    /\ keyFromPrivate (VStr skE) = Some kE
    /\ sign kE (sha256 (Hex.decode x)) = Some sE
    /\ encodePoint (getPublic kE) true = Some encE
    /\ forall wr : world,
        exists (m' : value) (wr' : world),
          blackToRed (VStr skB) (VRef (length (heap wr)))
            (receive (VStr x) (VStr (Hex.encode (toDER sE))) (VStr (Hex.encode encE)) wr)
          = (inr m', wr')
          /\ represents (heap wr') m' j.
Proof.
  intros [HA _] HB HE Ht Hm.
  destruct (encoder_succeeds_text skA pkB skB m j w HA HB Ht (shape_reify _ _ _ _ Hm))
    as (cipher & used & k & s & enc & Hd & Hs & Hp & Hrun).
  assert (Hwf : JSON.well_formed j = true) by (eapply shape_well_formed; exact Hm).
  set (w1 := World _ _ _ _) in Hrun.
  destruct (keyFromPrivate_valid skE HE) as (kE & HkE & Henc).
  destruct (sign_valid skE kE (sha256 cipher) HE HkE) as (sE & HsE).
  destruct (Henc true) as (encE & HpE).
  destruct (envelope_fields (heap w) (VStr (Hex.encode cipher))
              (VStr (Hex.encode (toDER s))) (VStr (Hex.encode enc)))
    as (Hx & _ & _).
  exists (VRef (length (heap w))), w1, (Hex.encode cipher), kE, sE, encE.
  split; [exact Hrun|]. split; [exact Hx|]. split; [exact HkE|].
  split; [now rewrite hex_decode_encode|]. split; [exact HpE|].
  intros wr.
  destruct (envelope_fields (heap wr) (VStr (Hex.encode cipher))
              (VStr (Hex.encode (toDER sE))) (VStr (Hex.encode encE)))
    as (Hx' & Hy' & Hz').
  destruct (decoder_reads (VStr skB) (VRef (length (heap wr)))
              (receive (VStr (Hex.encode cipher)) (VStr (Hex.encode (toDER sE)))
                       (VStr (Hex.encode encE)) wr)
              cipher kE sE encE j eq_refl Hx' Hy' Hz' HpE HsE Hd Hwf)
    as (m' & wr' & Hdec & Hrep & _).
  now exists m', wr'.
Qed.
End Resigned.

(** ** The validators read the document *)

Section Verdicts.

Lemma shape_props_member (f : value -> option json) (k : string)
      (ps : list (string * value)) (js : list (string * json)) :
  shape_props f ps = Some js ->
  match member k js with
  | Some j => exists x, assoc_get k ps = Some x /\ f x = Some j
  | None => assoc_get k ps = None
  end.
Proof.
  revert js. induction ps as [|[k0 x0] r IH]; intros js; simpl.
  - now intros [= <-].
  - destruct (f x0) as [j0|] eqn:Ef; [|discriminate].
    destruct (shape_props f r) as [js'|]; [|discriminate].
    intros [= <-]. simpl. destruct (String.eqb k k0); [eauto|]. now apply IH.
Qed.

Lemma shape_non_null (n : nat) (h : list cell) (x : value) (j : json) :
  shape n h x = Some j -> non_null x = doc_non_null j.
Proof.
  destruct n as [|n]; [discriminate|]. cbn [shape].
  destruct x as [| | | | |l|d]; try discriminate; try (now intros [= <-]).
  2:{ destruct (Number.fractional d); [now intros [= <-]|discriminate]. }
  destruct (h !! l) as [[ps|es [|p ps]]|]; try discriminate.
  - destruct (JSON.distinct (map fst ps)); [|discriminate].
    destruct (shape_props (shape n h) ps); [|discriminate]. now intros [= <-].
  - destruct (shape_elems (shape n h) es); [|discriminate]. now intros [= <-].
Qed.

Lemma shape_strict_eq (n : nat) (h : list cell) (x : value) (j : json) (s : string) :
  shape n h x = Some j ->
  strict_eq x (VStr s) = match j with JStr t => String.eqb t s | _ => false end.
Proof.
  destruct n as [|n]; [discriminate|]. cbn [shape].
  destruct x as [| | | | |l|d]; try discriminate; try (now intros [= <-]).
  2:{ destruct (Number.fractional d); [now intros [= <-]|discriminate]. }
  destruct (h !! l) as [[ps|es [|p ps]]|]; try discriminate.
  - destruct (JSON.distinct (map fst ps)); [|discriminate].
    destruct (shape_props (shape n h) ps); [|discriminate]. now intros [= <-].
  - destruct (shape_elems (shape n h) es); [|discriminate]. now intros [= <-].
Qed.

(** A property read on a value that is a document finds the member of the
    document, or [undefined] where there is none. *)
Lemma represents_read (h : list cell) (v : value) (j : json) (k : string) :
  represents h v j ->
  match doc_field j k with
  | Some x => shape (length h) h (read_prop h v k) = Some x
  | None => read_prop h v k = VUndefined
  end.
Proof.
  unfold represents, heap_fuel. cbn [shape].
  destruct v as [| | | | |l|d]; try discriminate; try (now intros [= <-]).
  2:{ destruct (Number.fractional d); [now intros [= <-]|discriminate]. }
  unfold read_prop.
  destruct (h !! l) as [[ps|es [|p ps]]|]; try discriminate.
  - destruct (JSON.distinct (map fst ps)); [|discriminate].
    destruct (shape_props (shape (length h) h) ps) as [js|] eqn:Ep; [|discriminate].
    intros [= <-]. cbn [doc_field cell_props].
    pose proof (shape_props_member _ k ps js Ep) as Hm.
    destruct (member k js) as [x|].
    + destruct Hm as (x0 & -> & Hx). exact Hx.
    + now rewrite Hm.
  - destruct (shape_elems (shape (length h) h) es); [|discriminate]. now intros [= <-].
Qed.

Lemma non_null_read (h : list cell) (v : value) (j : json) (k : string) :
  represents h v j -> non_null (read_prop h v k) = present j k.
Proof.
  intros Hr. pose proof (represents_read h v j k Hr) as H. unfold present.
  destruct (doc_field j k) as [x|]; [now apply shape_non_null in H|now rewrite H].
Qed.

Lemma strict_eq_read (h : list cell) (v : value) (j : json) (k s : string) :
  represents h v j ->
  strict_eq (read_prop h v k) (VStr s)
  = match doc_field j k with Some (JStr t) => String.eqb t s | _ => false end.
Proof.
  intros Hr. pose proof (represents_read h v j k Hr) as H.
  destruct (doc_field j k) as [x|]; [now apply (shape_strict_eq _ _ _ _ s) in H|].
  now rewrite H.
Qed.

End Verdicts.

(** ** The further properties at concrete inputs *)

(** X5 on [{a: undefined, b: [undefined, 1]}]: what arrives is
    [{b: [null, 1]}]. *)
Lemma round_trip_is_deep_copy_witness :
  exists (b : value) (w1 : world) (m' : value) (w2 : world),
    redToBlack (VStr skA) (VStr pkB) sparse_message sparse_world = (inr b, w1)
    /\ blackToRed (VStr skB) b w1 = (inr m', w2)
    /\ represents (heap w2) m' sparse_doc.
Proof.
  apply (round_trip_is_deep_copy (Laws := toy_laws) skA pkA skB pkB sparse_message
           sparse_doc sparse_world).
  - toy_key_pair.
  - toy_key_pair.
  - reflexivity.
  - vm_compute. reflexivity.
  - reflexivity.
Defined.

(** X6 on the request of [Toy.world1]. *)
Lemma envelope_over_the_wire_witness :
  exists (b : value) (w1 : world) (text : string),
    redToBlack (VStr skA) (VStr pkB) message world1 = (inr b, w1)
    /\ JSON_stringify b w1 = (inr (Some text), w1)
    /\ forall wr : world,
        exists (b' : value) (wr1 : world) (m' : value) (wr2 : world),
          JSON_parse text wr = (inr b', wr1)
          /\ isBlackMsg (heap wr1) b' = true
          /\ blackToRed (VStr skB) b' wr1 = (inr m', wr2)
          /\ represents (heap wr2) m' request.
Proof.
  apply (envelope_over_the_wire (Laws := toy_laws) skA pkA skB pkB message request world1).
  - toy_key_pair.
  - toy_key_pair.
  - reflexivity.
  - vm_compute. reflexivity.
Defined.

(** X7 in the world of the freshly loaded module. *)
Lemma factories_under_validators_witness :
  (forall s : value,
      exists (r : value) (w' : world),
        makeRedHello s world0 = (inr r, w')
        /\ isJSONRPC (heap w') r = true
        /\ isBlackMsg (heap w') r = false)
  /\ (forall errcode errmessage reqid : value,
      exists (r : value) (w' : world),
        makeErrorObj errcode errmessage reqid world0 = (inr r, w')
        /\ isJSONRPC (heap w') r = non_null reqid
        /\ isBlackMsg (heap w') r = false)
  /\ (forall (sk pk m b : value) (w' : world),
      redToBlack sk pk m world0 = (inr b, w') ->
      isJSONRPC (heap w') b = false /\ isBlackMsg (heap w') b = true).
Proof. apply (factories_under_validators world0). reflexivity. Defined.

(** X9 on an envelope without [sighex]. *)
Lemma blackToRed_rejects_incomplete_witness :
  isBlackMsg (heap unsigned_world) (VRef 10) = false
  /\ blackToRed (VStr skB) (VRef 10) unsigned_world = (inl TypeError, unsigned_world).
Proof.
  apply (blackToRed_rejects_incomplete (VStr skB) (VRef 10) unsigned_world).
  reflexivity.
Defined.

(** X11 on the envelope of [Toy.sent]. *)
Lemma spkhex_verifies_sighex_witness :
  exists (k : privkey) (x y z : string),
    keyFromPrivate (VStr skA) = Some k
    /\ read_prop (heap sent.2) (VRef 12) "msghex" = VStr x
    /\ read_prop (heap sent.2) (VRef 12) "sighex" = VStr y
    /\ read_prop (heap sent.2) (VRef 12) "spkhex" = VStr z
    /\ String.length z = 66
    /\ keyFromPublic (VStr z) = Some (getPublic k)
    /\ verify (getPublic k) (sha256 (Hex.decode x)) (Hex.decode y) = Some true.
Proof.
  apply (spkhex_verifies_sighex (Laws := toy_laws) (VStr skA) (VStr pkB) message (VRef 12)
           world1 sent.2).
  - reflexivity.
  - transitivity (sent.1, sent.2); [exact (surjective_pairing sent)|].
    f_equal; vm_compute; reflexivity.
Defined.

(** X12 on a key made from the entropy [01 01 ...], which signs the
    message ["hi"] for [pkB]. *)
Lemma pub_and_spkhex_differ_witness :
  exists (pub z : string) (p : point),
    read_prop
      (heap (redToBlack (read_prop (heap (makeKey world0).2) (VRef 10) "prv")
                        (VStr pkB) (VStr "hi") (makeKey world0).2).2)
      (VRef 10) "pub" = VStr pub
    /\ read_prop
         (heap (redToBlack (read_prop (heap (makeKey world0).2) (VRef 10) "prv")
                           (VStr pkB) (VStr "hi") (makeKey world0).2).2)
         (VRef 11) "spkhex" = VStr z
    /\ String.length pub = 130 /\ String.length z = 66
    /\ pub <> z
    /\ keyFromPublic (VStr pub) = Some p
    /\ keyFromPublic (VStr z) = Some p.
Proof.
  apply (pub_and_spkhex_differ (Laws := toy_laws) world0 (VRef 10) (makeKey world0).2
           (VStr pkB) (VStr "hi") (VRef 11)
           (redToBlack (read_prop (heap (makeKey world0).2) (VRef 10) "prv")
                       (VStr pkB) (VStr "hi") (makeKey world0).2).2).
  - reflexivity.
  - transitivity ((makeKey world0).1, (makeKey world0).2);
      [apply surjective_pairing|].
    f_equal; vm_compute; reflexivity.
  - match goal with |- ?run = _ =>
      transitivity (run.1, run.2); [apply surjective_pairing|]
    end.
    f_equal; vm_compute; reflexivity.
Defined.

(** X13 in a world whose entropy is [00 01 02 ...]. *)
Lemma smokeTest_passes_witness :
  exists w' : world,
    smokeTest (VNum 4242) world2 = (inr tt, w')
    /\ templates_intact (heap w')
    /\ exists new, heap w' = (heap world2 ++ new)%list.
Proof.
  apply (smokeTest_passes (Laws := toy_laws) 4242 world2).
  - reflexivity.
  - vm_compute. reflexivity.
  - vm_compute. reflexivity.
Defined.

(** X14 with the third key [skE]. *)
Lemma signature_can_be_replaced_witness :
  exists (b : value) (w1 : world) (x : string)
         (kE : privkey) (sE : signature) (encE : bytes),
    redToBlack (VStr skA) (VStr pkB) message world1 = (inr b, w1)
    /\ read_prop (heap w1) b "msghex" = VStr x
    /\ keyFromPrivate (VStr skE) = Some kE
    /\ sign kE (sha256 (Hex.decode x)) = Some sE
    /\ encodePoint (getPublic kE) true = Some encE
    /\ forall wr : world,
        exists (m' : value) (wr' : world),
          blackToRed (VStr skB) (VRef (length (heap wr)))
            (receive (VStr x) (VStr (Hex.encode (toDER sE))) (VStr (Hex.encode encE)) wr)
          = (inr m', wr')
          /\ represents (heap wr') m' request.
Proof.
  apply (signature_can_be_replaced (Laws := toy_laws) skA pkA skB pkB skE message request
           world1).
  - toy_key_pair.
  - toy_key_pair.
  - split; vm_compute; reflexivity.
  - reflexivity.
  - vm_compute. reflexivity.
Defined.

